(** * FAQ search and keyword derivation (server/src/handlers/faqs.ts)

    A shallow embedding of the FAQ handlers of the K-12 FAQ chatbot
    server, of the zod input schemas of server/src/schema.ts, of the
    tables of server/src/db/schema.ts, and of the tRPC procedures of
    server/src/index.ts that expose the handlers.

    Conventions.
    - A JavaScript string is a list of code units.  The development covers
      code units below 256 (Latin-1), for which [toLowerCase] maps one code
      unit to one code unit.
    - A JavaScript number used as an id, a timestamp or a count is a [Z].
      The handlers are modelled for ids within the range of the integer
      columns ([int4]); for a number outside it the database rejects the
      statement and the handler rethrows the error.
    - The insert of [createFaq] takes the next value of the id sequence
      and is modelled for a sequence that is ahead of the ids of the
      table ([faq_ids_fresh]), as it is unless rows were written with ids
      of their own; the primary key is not checked again.
    - Rows with equal [created_at] are listed in insertion order, one of
      the orders the database may choose.
    - The database is a record of two tables, each a list of rows in
      insertion order, threaded explicitly through the handlers.
    - A rejected promise is an [Err] result. *)

From Stdlib Require Import List Ascii String ZArith NArith Bool Lia Arith.
From Stdlib Require Import Sorting.Sorted Sorting.Permutation.
Import ListNotations.
Open Scope string_scope.
Open Scope list_scope.

(* ------------------------------------------------------------------ *)
(** ** Text *)

Module Text.

Definition text := list ascii.

(** A string literal as a [text]. *)
Definition T (s : string) : text := list_ascii_of_string s.

Definition code (c : ascii) : N := N_of_ascii c.

Definition in_range (lo hi : N) (c : ascii) : bool :=
  (lo <=? code c)%N && (code c <=? hi)%N.

(** [A-Z] *)
Definition is_upper (c : ascii) : bool := in_range 65 90 c.

(** Latin-1 capital letters U+00C0..U+00DE, the multiplication sign
    U+00D7 excepted. *)
Definition is_latin1_upper (c : ascii) : bool :=
  in_range 192 222 c && negb (code c =? 215)%N.

(** [String.prototype.toLowerCase] on one code unit below 256. *)
Definition lower_char (c : ascii) : ascii :=
  if is_upper c || is_latin1_upper c then ascii_of_N (code c + 32) else c.

Definition toLowerCase (s : text) : text := map lower_char s.

(** The regular expression class [\w], which is [[A-Za-z0-9_]]. *)
Definition is_word (c : ascii) : bool :=
  in_range 97 122 c || in_range 65 90 c || in_range 48 57 c
  || (code c =? 95)%N.

(** [[a-z0-9_]]: a word character that is not a capital letter. *)
Definition is_lower_word (c : ascii) : bool :=
  in_range 97 122 c || in_range 48 57 c || (code c =? 95)%N.

(** The regular expression class [\s] below 256: tab, line feed, vertical
    tab, form feed, carriage return, space and no-break space. *)
Definition is_space (c : ascii) : bool :=
  in_range 9 13 c || (code c =? 32)%N || (code c =? 160)%N.

Definition non_space (c : ascii) : bool := negb (is_space c).

Definition text_eqb (a b : text) : bool :=
  if list_eq_dec ascii_dec a b then true else false.

(** [w] occurs in [s] as a contiguous substring. *)
Definition substring_of (w s : text) : Prop :=
  exists pre post, s = pre ++ w ++ post.

(** The maximal runs of characters satisfying [p], in order of occurrence.
    Each character that does not satisfy [p] ends the current run and
    starts a new one, so two such characters in a row, or one at either
    end of the text, give an empty run. *)
Fixpoint runs (p : ascii -> bool) (s : text) : list text :=
  match s with
  | [] => [[]]
  | c :: s' =>
      if p c then
        match runs p s' with
        | r :: rs => (c :: r) :: rs
        | [] => [[c]]
        end
      else [] :: runs p s'
  end.

(** [pre] ends at a boundary: it is empty or its last character fails [p]. *)
Definition ends_outside (p : ascii -> bool) (pre : text) : Prop :=
  pre = [] \/ exists pre' c, pre = pre' ++ [c] /\ p c = false.

(** [post] starts at a boundary: it is empty or its first character
    fails [p]. *)
Definition starts_outside (p : ascii -> bool) (post : text) : Prop :=
  match post with
  | [] => True
  | c :: _ => p c = false
  end.

(** [w] is a maximal non-empty run of [p]-characters of [s]. *)
Definition maximal_run (p : ascii -> bool) (w s : text) : Prop :=
  exists pre post,
    s = pre ++ w ++ post /\ w <> [] /\ Forall (fun c => p c = true) w /\
    ends_outside p pre /\ starts_outside p post.

(** [String.prototype.split] with the separator [/\s+/]: the pieces between
    maximal runs of white space; a text that starts (or ends) with white
    space, and the empty text, give an empty first (or last) piece. *)
Fixpoint split_ws (s : text) : list text :=
  match s with
  | [] => [[]]
  | c :: s' =>
      if is_space c then
        match s' with
        | c' :: _ => if is_space c' then split_ws s' else [] :: split_ws s'
        | [] => [] :: split_ws s'
        end
      else
        match split_ws s' with
        | r :: rs => (c :: r) :: rs
        | [] => [[c]]
        end
  end.

End Text.

Import Text.

(* ------------------------------------------------------------------ *)
(** ** Keyword extraction and query tokenization *)

(** Insertion into an insertion-ordered collection without duplicates:
    [x] is appended unless it is already there. *)
Definition add_new {A : Type} (eqb : A -> A -> bool) (seen : list A) (x : A)
  : list A :=
  if existsb (eqb x) seen then seen else seen ++ [x].

(** The distinct elements of [l], each at its first occurrence. *)
Definition distinct {A : Type} (eqb : A -> A -> bool) (l : list A) : list A :=
  fold_left (add_new eqb) l [].

(** [[...new Set(words)]]: a [Set] keeps its elements in insertion order
    and ignores the insertion of a string it already holds. *)
Definition set_of (words : list text) : list text := distinct text_eqb words.

(** [text.match(/\b\w{3,}\b/g) || []]: a match starts at a word boundary,
    takes word characters greedily and must end at a word boundary, so the
    matches are the maximal runs of word characters of length at least 3,
    from left to right. *)
Definition match_words (s : text) : list text :=
  filter (fun w => (3 <=? List.length w)%nat) (runs is_word s).

(** [generateKeywords] of handlers/faqs.ts. *)
Definition generateKeywords (question answer : text) : list text :=
  let text := toLowerCase (question ++ T " " ++ answer) in
  let words := match_words text in
  set_of words.

(** [input.query.toLowerCase().split(/\s+/).filter(term => term.length > 2)],
    the first statement of [searchFaqs]. *)
Definition searchTerms (query : text) : list text :=
  filter (fun term => (2 <? List.length term)%nat) (split_ws (toLowerCase query)).


(* ------------------------------------------------------------------ *)
(** ** Results of handlers *)

Inductive error : Type :=
| Error (message : string)   (* [throw new Error(message)] *)
| ValidationFailure.         (* the procedure's input schema rejected the
                                input (tRPC answers BAD_REQUEST) *)

Inductive result (A : Type) : Type :=
| Ok (value : A)
| Err (e : error).

Arguments Ok {A} value.
Arguments Err {A} e.

(* ------------------------------------------------------------------ *)
(** ** Tables (server/src/db/schema.ts) *)

(** [faqCategoryEnum] / [faqCategorySchema]. *)
Inductive FaqCategory : Type :=
| admissions
| academic_programs
| campus_life
| contact_support
| general_info.

Definition FaqCategory_eqb (a b : FaqCategory) : bool :=
  match a, b with
  | admissions, admissions
  | academic_programs, academic_programs
  | campus_life, campus_life
  | contact_support, contact_support
  | general_info, general_info => true
  | _, _ => false
  end.

Definition FaqCategory_name (c : FaqCategory) : text :=
  match c with
  | admissions => T "admissions"
  | academic_programs => T "academic_programs"
  | campus_life => T "campus_life"
  | contact_support => T "contact_support"
  | general_info => T "general_info"
  end.

Definition all_categories : list FaqCategory :=
  [admissions; academic_programs; campus_life; contact_support; general_info].

(** A row of [schoolsTable]. *)
Module School.
Record t : Type := mk {
  id : Z;
  name : text;
  domain : text;
  location : option text;
  contact_email : option text;
  contact_phone : option text;
  is_active : bool;
  created_at : Z;
  updated_at : Z
}.
End School.

(** A row of [faqsTable]. *)
Module Faq.
Record t : Type := mk {
  id : Z;
  school_id : Z;
  category : FaqCategory;
  question : text;
  answer : text;
  keywords : list text;
  is_active : bool;
  created_by : Z;
  created_at : Z;
  updated_at : Z
}.
End Faq.

(** The database: the two tables the FAQ handlers use, the sequence behind
    the serial column [faqs.id], and the clock read by [defaultNow()]. *)
Record DB : Type := mkDB {
  schools : list School.t;
  faqs : list Faq.t;
  faqs_id_seq : Z;
  clock : Z
}.

(* ------------------------------------------------------------------ *)
(** ** The PostgreSQL operators used by the search *)

Module Pg.

(** [LIKE]: [%] matches any sequence, [_] any one character, and a
    backslash makes the next pattern character literal.  A pattern that
    ends in a lone backslash is an error in PostgreSQL and matches nothing
    here; [searchFaqs] never builds one, its patterns end in [%]. *)
Fixpoint like (p : text) : text -> bool :=
  match p with
  | [] => fun s => match s with [] => true | _ :: _ => false end
  | c :: p' =>
      if (code c =? 37)%N then
        fix star (s : text) : bool :=
          like p' s || match s with [] => false | _ :: s' => star s' end
      else if (code c =? 95)%N then
        fun s => match s with [] => false | _ :: s' => like p' s' end
      else if (code c =? 92)%N then
        match p' with
        | [] => fun _ => false
        | e :: p'' =>
            fun s =>
              match s with
              | [] => false
              | x :: s' => Ascii.eqb x e && like p'' s'
              end
        end
      else
        fun s =>
          match s with
          | [] => false
          | x :: s' => Ascii.eqb x c && like p' s'
          end
  end.

(** [s ILIKE p]: [LIKE] on the lower-cased text and pattern. *)
Definition ilike (s p : text) : bool := like (toLowerCase p) (toLowerCase s).

Definition hex_digit (n : N) : ascii :=
  nth (N.to_nat n) (T "0123456789abcdef") "0"%char.

Definition quote : ascii := ascii_of_N 34.
Definition backslash : ascii := ascii_of_N 92.

(** One character inside a JSON string, as [JSON.stringify] writes it. *)
Definition json_char (c : ascii) : text :=
  let n := code c in
  if (n =? 34)%N then [backslash; quote]
  else if (n =? 92)%N then [backslash; backslash]
  else if (n =? 8)%N then backslash :: T "b"
  else if (n =? 9)%N then backslash :: T "t"
  else if (n =? 10)%N then backslash :: T "n"
  else if (n =? 12)%N then backslash :: T "f"
  else if (n =? 13)%N then backslash :: T "r"
  else if (n <? 32)%N then
    backslash :: T "u00" ++ [hex_digit (n / 16); hex_digit (n mod 16)]
  else [c].

Definition json_string (s : text) : text :=
  quote :: flat_map json_char s ++ [quote].

Fixpoint join (sep : text) (l : list text) : text :=
  match l with
  | [] => []
  | [x] => x
  | x :: l' => x ++ sep ++ join sep l'
  end.

(** [keywords::text]: the column has type [json], which keeps the text the
    driver sent, and the driver sends [JSON.stringify(keywords)]. *)
Definition keywords_text (keywords : list text) : text :=
  T "[" ++ join (T ",") (map json_string keywords) ++ T "]".

End Pg.

(* ------------------------------------------------------------------ *)
(** ** The query builder (drizzle-orm) *)

Module Query.

(** A row of [faqsTable] joined to its row of [schoolsTable]. *)
Definition row : Type := (Faq.t * School.t)%type.

Definition condition : Type := row -> bool.

(** [.from(faqsTable).innerJoin(schoolsTable,
      eq(faqsTable.school_id, schoolsTable.id))] *)
Definition innerJoin (db : DB) : list row :=
  flat_map
    (fun f =>
       map (pair f)
           (filter (fun s => (Faq.school_id f =? School.id s)%Z) (schools db)))
    (faqs db).

(** [and(...conditions)] *)
Definition and_ (conditions : list condition) : condition :=
  fun r => forallb (fun c => c r) conditions.

(** [sql.join(conditions, sql` OR `)] *)
Definition or_ (conditions : list condition) : condition :=
  fun r => existsb (fun c => c r) conditions.

Definition where_ (c : condition) (rows : list row) : list row :=
  filter c rows.

Fixpoint insert_desc {A : Type} (key : A -> Z) (x : A) (l : list A) : list A :=
  match l with
  | [] => [x]
  | y :: l' =>
      if (key x <? key y)%Z then y :: insert_desc key x l' else x :: l
  end.

(** [.orderBy(desc(key))].  PostgreSQL leaves the order of rows with equal
    keys open; here they keep the order they had. *)
Fixpoint orderBy_desc {A : Type} (key : A -> Z) (l : list A) : list A :=
  match l with
  | [] => []
  | x :: l' => insert_desc key x (orderBy_desc key l')
  end.

(** [.limit(n)] *)
Definition limit {A : Type} (n : nat) (l : list A) : list A := firstn n l.

(** [select({category}) ... .groupBy(faqsTable.category)]: one row for
    each category that occurs. *)
Definition groupBy_category (rows : list row) : list FaqCategory :=
  distinct FaqCategory_eqb (map (fun r => Faq.category (fst r)) rows).

Definition eq_domain (school_domain : text) : condition :=
  fun r => text_eqb (School.domain (snd r)) school_domain.

Definition faq_is_active : condition :=
  fun r => Bool.eqb (Faq.is_active (fst r)) true.

Definition school_is_active : condition :=
  fun r => Bool.eqb (School.is_active (snd r)) true.

Definition eq_category (c : FaqCategory) : condition :=
  fun r => FaqCategory_eqb (Faq.category (fst r)) c.

(** [(question ILIKE p OR answer ILIKE p OR keywords::text ILIKE p)] with
    [p = '%' + term + '%'] *)
Definition term_condition (term : text) : condition :=
  fun r =>
    let p := T "%" ++ term ++ T "%" in
    Pg.ilike (Faq.question (fst r)) p
    || Pg.ilike (Faq.answer (fst r)) p
    || Pg.ilike (Pg.keywords_text (Faq.keywords (fst r))) p.

(** The values of an insertion into [faqsTable]; [id], [created_at] and
    [updated_at] take their column defaults. *)
Record NewFaq : Type := mkNewFaq {
  new_school_id : Z;
  new_category : FaqCategory;
  new_question : text;
  new_answer : text;
  new_keywords : list text;
  new_created_by : Z;
  new_is_active : bool
}.

(** [db.insert(faqsTable).values(v).returning()] *)
Definition insert_returning (v : NewFaq) (db : DB) : list Faq.t * DB :=
  let inserted :=
    Faq.mk (faqs_id_seq db) (new_school_id v) (new_category v)
           (new_question v) (new_answer v) (new_keywords v)
           (new_is_active v) (new_created_by v) (clock db) (clock db) in
  ([inserted],
   mkDB (schools db) (faqs db ++ [inserted]) (faqs_id_seq db + 1) (clock db)).

(** [Partial<typeof faqsTable.$inferInsert>], as far as [updateFaq] fills
    it: an absent property is [None]. *)
Record UpdateValues : Type := mkUpdateValues {
  set_category : option FaqCategory;
  set_question : option text;
  set_answer : option text;
  set_is_active : option bool;
  set_keywords : option (list text)
}.

Definition is_some {A : Type} (o : option A) : bool :=
  match o with Some _ => true | None => false end.

Definition or_current {A : Type} (o : option A) (current : A) : A :=
  match o with Some v => v | None => current end.

Definition set_values (v : UpdateValues) (f : Faq.t) : Faq.t :=
  Faq.mk (Faq.id f) (Faq.school_id f)
         (or_current (set_category v) (Faq.category f))
         (or_current (set_question v) (Faq.question f))
         (or_current (set_answer v) (Faq.answer f))
         (or_current (set_keywords v) (Faq.keywords f))
         (or_current (set_is_active v) (Faq.is_active f))
         (Faq.created_by f) (Faq.created_at f) (Faq.updated_at f).

Definition has_values (v : UpdateValues) : bool :=
  is_some (set_category v) || is_some (set_question v)
  || is_some (set_answer v) || is_some (set_is_active v)
  || is_some (set_keywords v).

(** [db.update(faqsTable).set(v).where(eq(faqsTable.id, id)).returning()];
    [set] throws when [v] has no property. *)
Definition update_returning (v : UpdateValues) (id : Z) (db : DB)
  : result (list Faq.t) * DB :=
  if has_values v then
    let hit := fun f => (Faq.id f =? id)%Z in
    (Ok (map (set_values v) (filter hit (faqs db))),
     mkDB (schools db)
          (map (fun f => if hit f then set_values v f else f) (faqs db))
          (faqs_id_seq db) (clock db))
  else (Err (Error "No values to set"), db).

(** [db.delete(faqsTable).where(eq(faqsTable.id, id)).returning()] *)
Definition delete_returning (id : Z) (db : DB) : list Faq.t * DB :=
  (filter (fun f => (Faq.id f =? id)%Z) (faqs db),
   mkDB (schools db)
        (filter (fun f => negb (Faq.id f =? id)%Z) (faqs db))
        (faqs_id_seq db) (clock db)).

End Query.

Import Query.

(* ------------------------------------------------------------------ *)
(** ** Handler inputs and outputs (server/src/schema.ts, inferred types) *)

Module ChatbotQueryInput.
Record t : Type := mk {
  school_domain : text;
  query : text;
  category : option FaqCategory
}.
End ChatbotQueryInput.

Module ChatbotResponse.
Record t : Type := mk {
  faqs : list Faq.t;
  suggested_categories : list FaqCategory;
  total_results : Z
}.
End ChatbotResponse.

Module GetFaqsByCategoryInput.
Record t : Type := mk {
  school_domain : text;
  category : FaqCategory
}.
End GetFaqsByCategoryInput.

Module CreateFaqInput.
Record t : Type := mk {
  school_id : Z;
  category : FaqCategory;
  question : text;
  answer : text;
  keywords : option (list text)
}.
End CreateFaqInput.

Module UpdateFaqInput.
Record t : Type := mk {
  id : Z;
  category : option FaqCategory;
  question : option text;
  answer : option text;
  keywords : option (list text);
  is_active : option bool
}.
End UpdateFaqInput.

(* ------------------------------------------------------------------ *)
(** ** The handlers (server/src/handlers/faqs.ts) *)

(** [results[0]] of a [returning()] list.  The handlers call it on lists
    that hold a row; on an empty list JavaScript gives [undefined]. *)
Definition first_row (results : list Faq.t) : result Faq.t :=
  match results with
  | r :: _ => Ok r
  | [] => Err (Error "undefined")
  end.

(** [a || b] on strings: the empty string is falsy. *)
Definition or_else (a : option text) (b : text) : text :=
  match a with
  | Some (c :: s) => c :: s
  | Some [] | None => b
  end.

Definition getFaqsBySchoolId (schoolId : Z) (db : DB) : list Faq.t :=
  orderBy_desc Faq.created_at
    (filter (fun f => (Faq.school_id f =? schoolId)%Z) (faqs db)).

Definition getFaqsByCategory (input : GetFaqsByCategoryInput.t) (db : DB)
  : list Faq.t :=
  map fst
    (orderBy_desc (fun r => Faq.created_at (fst r))
       (where_
          (and_ [ eq_domain (GetFaqsByCategoryInput.school_domain input);
                  eq_category (GetFaqsByCategoryInput.category input);
                  faq_is_active;
                  school_is_active ])
          (innerJoin db))).

Definition searchFaqs (input : ChatbotQueryInput.t) (db : DB)
  : ChatbotResponse.t :=
  let searchTerms := searchTerms (ChatbotQueryInput.query input) in
  let conditions :=
    [ eq_domain (ChatbotQueryInput.school_domain input);
      faq_is_active;
      school_is_active ] in
  let conditions :=
    match ChatbotQueryInput.category input with
    | Some c => conditions ++ [eq_category c]
    | None => conditions
    end in
  let conditions :=
    if (0 <? List.length searchTerms)%nat then
      let searchConditions := map term_condition searchTerms in
      match searchConditions with
      | [c] => conditions ++ [c]
      | _ => conditions ++ [or_ searchConditions]
      end
    else conditions in
  let faqs :=
    map fst
      (limit 20
         (orderBy_desc (fun r => Faq.created_at (fst r))
            (where_ (and_ conditions) (innerJoin db)))) in
  let categoriesResult :=
    groupBy_category
      (where_
         (and_ [ eq_domain (ChatbotQueryInput.school_domain input);
                 faq_is_active;
                 school_is_active ])
         (innerJoin db)) in
  let suggested_categories := categoriesResult in
  ChatbotResponse.mk faqs suggested_categories (Z.of_nat (List.length faqs)).

Definition getFaqById (id : Z) (db : DB) : option Faq.t :=
  match filter (fun f => (Faq.id f =? id)%Z) (faqs db) with
  | r :: _ => Some r
  | [] => None
  end.

Definition getAvailableCategories (schoolDomain : text) (db : DB)
  : list FaqCategory :=
  groupBy_category
    (where_
       (and_ [ eq_domain schoolDomain; faq_is_active; school_is_active ])
       (innerJoin db)).

Definition deleteFaq (id : Z) (db : DB) : bool * DB :=
  let (results, db') := delete_returning id db in
  ((0 <? List.length results)%nat, db').

(** [createFaq] and [updateFaq] take the keyword extractor as an argument,
    so that a statement can tell whether a result depends on it; the
    handlers of the source are the instances at [generateKeywords]. *)
Section Handlers.

Variable extract : text -> text -> list text.

Definition createFaq_with (input : CreateFaqInput.t) (createdBy : Z) (db : DB)
  : result Faq.t * DB :=
  let school :=
    filter (fun s => (School.id s =? CreateFaqInput.school_id input)%Z)
           (schools db) in
  if (List.length school =? 0)%nat then (Err (Error "School not found"), db)
  else
    let keywords :=
      match CreateFaqInput.keywords input with
      | Some (k :: ks) => k :: ks
      | Some [] | None =>
          extract (CreateFaqInput.question input) (CreateFaqInput.answer input)
      end in
    let (results, db') :=
      insert_returning
        (mkNewFaq (CreateFaqInput.school_id input)
                  (CreateFaqInput.category input)
                  (CreateFaqInput.question input)
                  (CreateFaqInput.answer input)
                  keywords createdBy true)
        db in
    (first_row results, db').

(** The update values that [updateFaq] prepares from its input and the
    current row. *)
Definition updateValues_for (input : UpdateFaqInput.t) (currentFaq : Faq.t)
  : UpdateValues :=
  let keywords :=
    match UpdateFaqInput.keywords input with
    | Some ks => Some ks
    | None =>
        if is_some (UpdateFaqInput.question input)
           || is_some (UpdateFaqInput.answer input)
        then
          let question :=
            or_else (UpdateFaqInput.question input)
                    (Faq.question currentFaq) in
          let answer :=
            or_else (UpdateFaqInput.answer input)
                    (Faq.answer currentFaq) in
          Some (extract question answer)
        else None
    end in
  mkUpdateValues (UpdateFaqInput.category input)
                 (UpdateFaqInput.question input)
                 (UpdateFaqInput.answer input)
                 (UpdateFaqInput.is_active input)
                 keywords.

Definition updateFaq_with (input : UpdateFaqInput.t) (db : DB)
  : result Faq.t * DB :=
  match getFaqById (UpdateFaqInput.id input) db with
  | None => (Err (Error "FAQ not found"), db)
  | Some currentFaq =>
      let updateValues := updateValues_for input currentFaq in
      match update_returning updateValues (UpdateFaqInput.id input) db with
      | (Ok results, db') => (first_row results, db')
      | (Err e, db') => (Err e, db')
      end
  end.

End Handlers.

Definition createFaq := createFaq_with generateKeywords.
Definition updateFaq := updateFaq_with generateKeywords.

(* ------------------------------------------------------------------ *)
(** ** Input schemas (server/src/schema.ts) and procedures
       (server/src/index.ts) *)

Module Router.

(** [faqCategorySchema]: [z.enum([...])] on a string. *)
Definition faqCategorySchema (s : text) : option FaqCategory :=
  find (fun c => text_eqb (FaqCategory_name c) s) all_categories.

(** [z.string().min(1)] *)
Definition string_min_1 (s : text) : option text :=
  if (1 <=? List.length s)%nat then Some s else None.

(** [schema.optional()]: an absent property passes, a present one is
    parsed.  The outer [option] is the outcome of the parse. *)
Definition optional {A B : Type} (schema : A -> option B) (v : option A)
  : option (option B) :=
  match v with
  | None => Some None
  | Some a => match schema a with Some b => Some (Some b) | None => None end
  end.

(** The request body of [faqs.create], before parsing. *)
Module CreateFaqRequest.
Record t : Type := mk {
  school_id : Z;
  category : text;
  question : text;
  answer : text;
  keywords : option (list text)
}.
End CreateFaqRequest.

(** The request body of [faqs.update], before parsing. *)
Module UpdateFaqRequest.
Record t : Type := mk {
  id : Z;
  category : option text;
  question : option text;
  answer : option text;
  keywords : option (list text);
  is_active : option bool
}.
End UpdateFaqRequest.

Definition createFaqInputSchema (r : CreateFaqRequest.t)
  : option CreateFaqInput.t :=
  match faqCategorySchema (CreateFaqRequest.category r),
        string_min_1 (CreateFaqRequest.question r),
        string_min_1 (CreateFaqRequest.answer r) with
  | Some category, Some question, Some answer =>
      Some (CreateFaqInput.mk (CreateFaqRequest.school_id r) category
                              question answer (CreateFaqRequest.keywords r))
  | _, _, _ => None
  end.

Definition updateFaqInputSchema (r : UpdateFaqRequest.t)
  : option UpdateFaqInput.t :=
  match optional faqCategorySchema (UpdateFaqRequest.category r),
        optional string_min_1 (UpdateFaqRequest.question r),
        optional string_min_1 (UpdateFaqRequest.answer r) with
  | Some category, Some question, Some answer =>
      Some (UpdateFaqInput.mk (UpdateFaqRequest.id r) category question answer
                              (UpdateFaqRequest.keywords r)
                              (UpdateFaqRequest.is_active r))
  | _, _, _ => None
  end.

(** [publicProcedure.input(schema).mutation(({ input }) => handler(input))]:
    the handler runs on the parsed input, and only when the parse
    succeeds. *)
Definition procedure {Req In Out : Type} (schema : Req -> option In)
    (handler : In -> DB -> result Out * DB) (req : Req) (db : DB)
  : result Out * DB :=
  match schema req with
  | Some input => handler input db
  | None => (Err ValidationFailure, db)
  end.

(** [faqs.create]; the creating user is the constant 1 in index.ts. *)
Definition faqs_create : CreateFaqRequest.t -> DB -> result Faq.t * DB :=
  procedure createFaqInputSchema (fun input => createFaq input 1).

(** [faqs.update] *)
Definition faqs_update : UpdateFaqRequest.t -> DB -> result Faq.t * DB :=
  procedure updateFaqInputSchema updateFaq.

End Router.

(* ------------------------------------------------------------------ *)
(** ** Predicates in which the properties are stated *)

(** The filters of a search that do not look at the query: the school's
    domain, both active flags and, when given, the category. *)
Definition filter_only (school_domain : text) (category : option FaqCategory)
  : condition :=
  fun r =>
    text_eqb (School.domain (snd r)) school_domain
    && Faq.is_active (fst r)
    && School.is_active (snd r)
    && match category with
       | Some c => FaqCategory_eqb (Faq.category (fst r)) c
       | None => true
       end.

(** The whole predicate of a search: the filters above and, when the query
    has search terms, a match of at least one of them. *)
Definition matches (input : ChatbotQueryInput.t) : condition :=
  fun r =>
    filter_only (ChatbotQueryInput.school_domain input)
                (ChatbotQueryInput.category input) r
    && match searchTerms (ChatbotQueryInput.query input) with
       | [] => true
       | terms => existsb (fun term => term_condition term r) terms
       end.

(** [a] is at least as new as [b]. *)
Definition newer_or_equal (a b : Faq.t) : Prop :=
  (Faq.created_at b <= Faq.created_at a)%Z.

(** The lower-cased text [question + " " + answer] has a run of at least
    three word characters. *)
Definition has_keyword_word (question answer : text) : Prop :=
  exists w,
    maximal_run is_word w (toLowerCase (question ++ T " " ++ answer)) /\
    3 <= List.length w.

(** [f] is an active FAQ of an active school with the given domain. *)
Definition live_in (db : DB) (school_domain : text) (f : Faq.t) : Prop :=
  In f (faqs db) /\ Faq.is_active f = true /\
  exists s, In s (schools db) /\ School.id s = Faq.school_id f /\
            School.domain s = school_domain /\ School.is_active s = true.

(* ------------------------------------------------------------------ *)
(** ** A small database for the examples *)

Module Scenario.

Definition acme : School.t :=
  School.mk 1 (T "Acme School") (T "acme.edu") None None None true 50 50.

Definition closed_school : School.t :=
  School.mk 2 (T "Closed School") (T "closed.edu") None None None false 60 60.

Definition admission_faq : Faq.t :=
  Faq.mk 1 1 admissions
         (T "What are the admission requirements?")
         (T "A diploma and test scores.")
         (map T ["admission"; "requirements"; "diploma"])
         true 1 100 100.

Definition housing_faq : Faq.t :=
  Faq.mk 2 1 campus_life
         (T "Is there student housing available?")
         (T "Yes, we have dormitories.")
         (map T ["housing"; "dormitories"])
         true 1 110 110.

Definition retired_faq : Faq.t :=
  Faq.mk 3 1 contact_support
         (T "Whom do I call about admission?")
         (T "Nobody.")
         (map T ["call"])
         false 1 120 120.

Definition closed_faq : Faq.t :=
  Faq.mk 4 2 general_info
         (T "Is admission open?")
         (T "No.")
         (map T ["admission"])
         true 1 130 130.

Definition db0 : DB :=
  mkDB [acme; closed_school]
       [admission_faq; housing_faq; retired_faq; closed_faq] 5 200.

(** A school with [n] active FAQs that all match the query "course". *)
Definition course_faq (i : nat) : Faq.t :=
  Faq.mk (Z.of_nat i) 1 academic_programs (T "Which course?") (T "Any.")
         [T "course"] true 1 (Z.of_nat i) (Z.of_nat i).

Definition db_courses (n : nat) : DB :=
  mkDB [acme] (map course_faq (seq 1 n)) (Z.of_nat (S n)) 200.

End Scenario.

(* ------------------------------------------------------------------ *)
(** ** Constraints of the tables and further predicates *)

(** [faqs.id] is a primary key. *)
Definition faq_ids_unique (db : DB) : Prop := NoDup (map Faq.id (faqs db)).

(** The sequence behind [faqs.id] is ahead of every id in the table. *)
Definition faq_ids_fresh (db : DB) : Prop :=
  forall f, In f (faqs db) -> (Faq.id f < faqs_id_seq db)%Z.

(** Every FAQ refers to a school of the table. *)
Definition faqs_have_school (db : DB) : Prop :=
  forall f, In f (faqs db) ->
    exists s, In s (schools db) /\ School.id s = Faq.school_id f.

(** The characters that [LIKE] does not take literally: [%], [_] and the
    backslash. *)
Definition like_special (c : ascii) : bool :=
  (code c =? 37)%N || (code c =? 95)%N || (code c =? 92)%N.

(** [%] and the backslash, which never match themselves only. *)
Definition like_unsafe (c : ascii) : bool :=
  (code c =? 37)%N || (code c =? 92)%N.

(** The three texts of a FAQ that a search term is matched against. *)
Definition searched_texts (f : Faq.t) : list text :=
  [Faq.question f; Faq.answer f; Pg.keywords_text (Faq.keywords f)].

Definition percent : ascii := "%"%char.

(** The values of an [integer] or [serial] column. *)
Definition int4 (n : Z) : Prop := (-2147483648 <= n <= 2147483647)%Z.

(** A text that a [text] column stores: one without the NUL character. *)
Definition pg_text (t : text) : Prop := Forall (fun c => code c <> 0%N) t.

(** What the database needs to accept the statements of [createFaq]: the
    next id is unused and within the column's range, the school id and the
    creator are within range, and the two texts can be stored. *)
Definition createFaq_accepted (input : CreateFaqInput.t) (createdBy : Z)
    (db : DB) : Prop :=
  faq_ids_fresh db /\ int4 (faqs_id_seq db)
  /\ int4 (CreateFaqInput.school_id input) /\ int4 createdBy
  /\ pg_text (CreateFaqInput.question input)
  /\ pg_text (CreateFaqInput.answer input).


(** The constraints that the FAQ handlers rely on and keep. *)
Definition db_constraints (db : DB) : Prop :=
  faq_ids_unique db /\ faq_ids_fresh db /\ faqs_have_school db.

(* ------------------------------------------------------------------ *)
(** ** The users table and the whole database *)

From Stdlib Require Import DecimalString DecimalPos DecimalZ.

(** [userRoleEnum] *)
Inductive UserRole : Type :=
| super_admin
| school_admin.

(** A row of [usersTable]; a NULL [school_id] is [None]. *)
Module User.
Record t : Type := mk {
  id : Z;
  username : text;
  password_hash : text;
  role : UserRole;
  school_id : option Z;
  full_name : text;
  email : text;
  is_active : bool;
  created_at : Z;
  updated_at : Z
}.
End User.

(** The database of the administrative handlers: the tables of the FAQ
    handlers, the users table and the sequences behind [schools.id] and
    [users.id]. *)
Record Store : Type := mkStore {
  core : DB;
  users : list User.t;
  schools_id_seq : Z;
  users_id_seq : Z
}.

(** [results[0]] of a [returning()] list of any table. *)
Definition first_of {A : Type} (results : list A) : result A :=
  match results with
  | r :: _ => Ok r
  | [] => Err (Error "undefined")
  end.

(** The error of PostgreSQL for a row that repeats a value of a unique
    column or a primary key. *)
Definition unique_violation (constraint : string) : error :=
  Error (String.append "duplicate key value violates unique constraint "
           (String Pg.quote
              (String.append constraint (String Pg.quote EmptyString)))).

(** [`${n}`] for an integer [n]. *)
Definition number_text (n : Z) : string :=
  DecimalString.NilZero.string_of_int (Z.to_int n).

(** [v || null] for a text that may be absent or null: the empty text is
    falsy. *)
Definition or_null (v : option text) : option text :=
  match v with
  | Some (c :: s) => Some (c :: s)
  | Some [] | None => None
  end.

(* ------------------------------------------------------------------ *)
(** ** The school handlers (server/src/handlers/schools.ts) *)

Module CreateSchoolInput.
Record t : Type := mk {
  name : text;
  domain : text;
  location : option text;       (* absent or null: [None] *)
  contact_email : option text;
  contact_phone : option text
}.
End CreateSchoolInput.

(** An absent property is [None]; a property given as null is
    [Some None]. *)
Module UpdateSchoolInput.
Record t : Type := mk {
  id : Z;
  name : option text;
  domain : option text;
  location : option (option text);
  contact_email : option (option text);
  contact_phone : option (option text);
  is_active : option bool
}.
End UpdateSchoolInput.

Module Schools.

Definition with_schools (st : Store) (l : list School.t) : Store :=
  mkStore (mkDB l (faqs (core st)) (faqs_id_seq (core st)) (clock (core st)))
          (users st) (schools_id_seq st) (users_id_seq st).

Definition getSchools (st : Store) : list School.t := schools (core st).

Definition getSchoolById (id : Z) (st : Store) : option School.t :=
  match filter (fun s => (School.id s =? id)%Z) (schools (core st)) with
  | r :: _ => Some r
  | [] => None
  end.

Definition getSchoolByDomain (domain : text) (st : Store) : option School.t :=
  match filter (fun s => text_eqb (School.domain s) domain)
               (schools (core st)) with
  | r :: _ => Some r
  | [] => None
  end.

(** The insertion takes the next value of the id sequence before the
    constraints are checked, so a rejected insertion still advances the
    sequence. *)
Definition createSchool (input : CreateSchoolInput.t) (st : Store)
  : result School.t * Store :=
  let inserted :=
    School.mk (schools_id_seq st)
              (CreateSchoolInput.name input)
              (CreateSchoolInput.domain input)
              (or_null (CreateSchoolInput.location input))
              (or_null (CreateSchoolInput.contact_email input))
              (or_null (CreateSchoolInput.contact_phone input))
              true (clock (core st)) (clock (core st)) in
  let advanced :=
    mkStore (core st) (users st) (schools_id_seq st + 1) (users_id_seq st) in
  if existsb (fun s => (School.id s =? School.id inserted)%Z)
             (schools (core st))
  then (Err (unique_violation "schools_pkey"), advanced)
  else if existsb (fun s => text_eqb (School.domain s) (School.domain inserted))
                  (schools (core st))
  then (Err (unique_violation "schools_domain_unique"), advanced)
  else (first_of [inserted],
        with_schools advanced (schools (core st) ++ [inserted])).

(** [updateData] applied to a row; [now] is [new Date()]. *)
Definition set_school (now : Z) (input : UpdateSchoolInput.t) (s : School.t)
  : School.t :=
  School.mk (School.id s)
            (or_current (UpdateSchoolInput.name input) (School.name s))
            (or_current (UpdateSchoolInput.domain input) (School.domain s))
            (or_current (UpdateSchoolInput.location input) (School.location s))
            (or_current (UpdateSchoolInput.contact_email input)
                        (School.contact_email s))
            (or_current (UpdateSchoolInput.contact_phone input)
                        (School.contact_phone s))
            (or_current (UpdateSchoolInput.is_active input)
                        (School.is_active s))
            (School.created_at s) now.

(** The update is rejected as a whole when a row it changes would repeat
    the domain of another row. *)
Definition updateSchool (now : Z) (input : UpdateSchoolInput.t) (st : Store)
  : result School.t * Store :=
  let hit := fun s => (School.id s =? UpdateSchoolInput.id input)%Z in
  let result := map (set_school now input) (filter hit (schools (core st))) in
  let updated :=
    map (fun s => if hit s then set_school now input s else s)
        (schools (core st)) in
  let repeats :=
    match UpdateSchoolInput.domain input with
    | Some d =>
        (0 <? List.length result)%nat
        && (1 <? List.length
                   (filter (fun s => text_eqb (School.domain s) d) updated))%nat
    | None => false
    end in
  if repeats then (Err (unique_violation "schools_domain_unique"), st)
  else if (List.length result =? 0)%nat then
    (Err (Error (String.append "School with id "
                   (String.append (number_text (UpdateSchoolInput.id input))
                                  " not found"))), st)
  else (first_of result, with_schools st updated).

(** The three deletions of [deleteSchool], one after the other; a user
    without school is kept. *)
Definition deleteSchool (id : Z) (st : Store) : bool * Store :=
  let faqs1 :=
    filter (fun f => negb (Faq.school_id f =? id)%Z) (faqs (core st)) in
  let users1 :=
    filter (fun u => negb match User.school_id u with
                          | Some i => (i =? id)%Z
                          | None => false
                          end) (users st) in
  let result := filter (fun s => (School.id s =? id)%Z) (schools (core st)) in
  let schools1 :=
    filter (fun s => negb (School.id s =? id)%Z) (schools (core st)) in
  ((0 <? List.length result)%nat,
   mkStore (mkDB schools1 faqs1 (faqs_id_seq (core st)) (clock (core st)))
           users1 (schools_id_seq st) (users_id_seq st)).

End Schools.

(** The constraints on the schools table: [id] is a primary key below its
    sequence, and [domain] is unique. *)
Definition school_constraints (st : Store) : Prop :=
  NoDup (map School.id (schools (core st)))
  /\ (forall s, In s (schools (core st)) -> (School.id s < schools_id_seq st)%Z)
  /\ NoDup (map School.domain (schools (core st))).

(** The constraints of the schools table together with those of the FAQ
    table. *)
Definition store_constraints (st : Store) : Prop :=
  school_constraints st /\ db_constraints (core st).

(* ------------------------------------------------------------------ *)
(** ** The example database with a user *)

Module AdminScenario.

Definition admin : User.t :=
  User.mk 1 (T "ada") (T "hash-of-ada") school_admin (Some 1%Z)
          (T "Ada Admin") (T "ada@acme.edu") true 70 70.

Definition store0 : Store := mkStore Scenario.db0 [admin] 3 2.

End AdminScenario.

(* ------------------------------------------------------------------ *)
(** ** The user handlers (server/src/handlers/users.ts) *)

(** A null or absent [school_id] is [None]. *)
Module CreateUserInput.
Record t : Type := mk {
  username : text;
  password : text;
  role : UserRole;
  school_id : option Z;
  full_name : text;
  email : text
}.
End CreateUserInput.

(** An absent property is [None]; [school_id: null] is [Some None]. *)
Module UpdateUserInput.
Record t : Type := mk {
  id : Z;
  username : option text;
  password : option text;
  role : option UserRole;
  school_id : option (option Z);
  full_name : option text;
  email : option text;
  is_active : option bool
}.
End UpdateUserInput.

Module Users.

Definition with_users (st : Store) (l : list User.t) : Store :=
  mkStore (core st) l (schools_id_seq st) (users_id_seq st).

Definition getUsers (st : Store) : list User.t := users st.

(** [eq(usersTable.school_id, schoolId)]: a NULL is equal to nothing. *)
Definition getUsersBySchoolId (schoolId : Z) (st : Store) : list User.t :=
  filter (fun u => match User.school_id u with
                   | Some i => (i =? schoolId)%Z
                   | None => false
                   end) (users st).

Definition getUserById (id : Z) (st : Store) : option User.t :=
  match filter (fun u => (User.id u =? id)%Z) (users st) with
  | r :: _ => Some r
  | [] => None
  end.

(** [n || null] and the test [if (n)] on a number that may be null or
    absent: zero is falsy. *)
Definition truthy_id (v : option Z) : option Z :=
  match v with
  | Some n => if (n =? 0)%Z then None else Some n
  | None => None
  end.

Definition school_exists (id : Z) (st : Store) : bool :=
  negb (List.length
          (filter (fun s => (School.id s =? id)%Z) (schools (core st))) =? 0)%nat.

(** The handlers take as arguments what they get from [crypto]:
    [pbkdf2 password salt] is
    [crypto.pbkdf2Sync(password, salt, 1000, 64, 'sha512').toString('hex')],
    and [salt] is the [crypto.randomBytes(16).toString('hex')] of the
    call. *)
Section Hashing.

Variable pbkdf2 : text -> text -> text.

Definition hash_password (password salt : text) : text :=
  pbkdf2 password salt ++ T ":" ++ salt.

Definition createUser (salt : text) (input : CreateUserInput.t) (st : Store)
  : result User.t * Store :=
  let missing_school :=
    match truthy_id (CreateUserInput.school_id input) with
    | Some school_id => negb (school_exists school_id st)
    | None => false
    end in
  if missing_school then (Err (Error "School not found"), st)
  else
    let inserted :=
      User.mk (users_id_seq st)
              (CreateUserInput.username input)
              (hash_password (CreateUserInput.password input) salt)
              (CreateUserInput.role input)
              (truthy_id (CreateUserInput.school_id input))
              (CreateUserInput.full_name input)
              (CreateUserInput.email input)
              true (clock (core st)) (clock (core st)) in
    let advanced :=
      mkStore (core st) (users st) (schools_id_seq st) (users_id_seq st + 1) in
    if existsb (fun u => (User.id u =? User.id inserted)%Z) (users st)
    then (Err (unique_violation "users_pkey"), advanced)
    else if existsb (fun u => text_eqb (User.username u) (User.username inserted))
                    (users st)
    then (Err (unique_violation "users_username_unique"), advanced)
    else (first_of [inserted], with_users advanced (users st ++ [inserted])).

(** [updateValues] applied to a row; [now] is [new Date()]. *)
Definition set_user (now : Z) (salt : text) (input : UpdateUserInput.t)
    (u : User.t) : User.t :=
  User.mk (User.id u)
          (or_current (UpdateUserInput.username input) (User.username u))
          (match UpdateUserInput.password input with
           | Some password => hash_password password salt
           | None => User.password_hash u
           end)
          (or_current (UpdateUserInput.role input) (User.role u))
          (or_current (UpdateUserInput.school_id input) (User.school_id u))
          (or_current (UpdateUserInput.full_name input) (User.full_name u))
          (or_current (UpdateUserInput.email input) (User.email u))
          (or_current (UpdateUserInput.is_active input) (User.is_active u))
          (User.created_at u) now.

Definition updateUser (now : Z) (salt : text) (input : UpdateUserInput.t)
    (st : Store) : result User.t * Store :=
  match getUserById (UpdateUserInput.id input) st with
  | None => (Err (Error "User not found"), st)
  | Some existingUser =>
      let missing_school :=
        match UpdateUserInput.school_id input with
        | Some (Some school_id) => negb (school_exists school_id st)
        | Some None | None => false
        end in
      if missing_school then (Err (Error "School not found"), st)
      else
        let hit := fun u => (User.id u =? UpdateUserInput.id input)%Z in
        let result := map (set_user now salt input) (filter hit (users st)) in
        let updated :=
          map (fun u => if hit u then set_user now salt input u else u)
              (users st) in
        let repeats :=
          match UpdateUserInput.username input with
          | Some name =>
              (1 <? List.length
                      (filter (fun u => text_eqb (User.username u) name)
                              updated))%nat
          | None => false
          end in
        if repeats then (Err (unique_violation "users_username_unique"), st)
        else (first_of result, with_users st updated)
  end.

End Hashing.

(** [deleteUser] throws for a user that does not exist, and otherwise
    reports success. *)
Definition deleteUser (id : Z) (st : Store) : result bool * Store :=
  match getUserById id st with
  | None => (Err (Error "User not found"), st)
  | Some existingUser =>
      (Ok true,
       with_users st (filter (fun u => negb (User.id u =? id)%Z) (users st)))
  end.

End Users.

(** The constraints on the users table: [id] is a primary key below its
    sequence, [username] is unique, and a user's school is a school of the
    table. *)
Definition user_constraints (st : Store) : Prop :=
  NoDup (map User.id (users st))
  /\ (forall u, In u (users st) -> (User.id u < users_id_seq st)%Z)
  /\ NoDup (map User.username (users st))
  /\ (forall u i, In u (users st) -> User.school_id u = Some i ->
        exists s, In s (schools (core st)) /\ School.id s = i).

(* ------------------------------------------------------------------ *)
(** ** Authentication (server/src/handlers/auth.ts) *)

Module LoginInput.
Record t : Type := mk {
  username : text;
  password : text
}.
End LoginInput.

Module AuthUser.
Record t : Type := mk {
  id : Z;
  username : text;
  role : UserRole;
  school_id : option Z;
  full_name : text;
  email : text
}.
End AuthUser.

Module Auth.

(** The user data that [login] and [verifyAuth] return: the row without
    its password hash, active flag and timestamps. *)
Definition auth_user (user : User.t) : AuthUser.t :=
  AuthUser.mk (User.id user) (User.username user) (User.role user)
              (User.school_id user) (User.full_name user) (User.email user).


(** [s.startsWith(p)] *)
Fixpoint startsWith (p s : text) : bool :=
  match p, s with
  | [], _ => true
  | _ :: _, [] => false
  | a :: p', b :: s' => Ascii.eqb a b && startsWith p' s'
  end.

(** [s.replace(p, '')] for a text [p]: the first occurrence of [p] is
    removed. *)
Fixpoint remove_first (p s : text) : text :=
  if startsWith p s then skipn (List.length p) s
  else match s with
       | [] => []
       | c :: s' => c :: remove_first p s'
       end.

Definition is_digit (c : ascii) : bool := in_range 48 57 c.

Definition digit_value (c : ascii) : Z := (Z.of_N (code c) - 48)%Z.

Fixpoint drop_spaces (s : text) : text :=
  match s with
  | c :: s' => if is_space c then drop_spaces s' else s
  | [] => []
  end.

Fixpoint digits_prefix (s : text) : text :=
  match s with
  | c :: s' => if is_digit c then c :: digits_prefix s' else []
  | [] => []
  end.

Definition digits_value (digits : text) : Z :=
  fold_left (fun acc c => (10 * acc + digit_value c)%Z) digits 0%Z.

(** [parseInt(s, 10)]: leading white space is skipped, a sign is read, and
    the longest run of decimal digits that follows is the number; what
    comes after it is ignored.  [None] is NaN.  The number is exact here;
    in JavaScript it is rounded beyond 2^53, where no id of the integer
    column [users.id] lies. *)
Definition parseInt (s : text) : option Z :=
  let s1 := drop_spaces s in
  let signed :=
    match s1 with
    | c :: r =>
        if (code c =? 45)%N then ((-1)%Z, r)
        else if (code c =? 43)%N then (1%Z, r)
        else (1%Z, s1)
    | [] => (1%Z, [])
    end in
  match digits_prefix (snd signed) with
  | [] => None
  | digits => Some (fst signed * digits_value digits)%Z
  end.

(** [verifyAuth]; whatever fails gives null, here [None]. *)
Definition verifyAuth (token : text) (st : Store) : option AuthUser.t :=
  if (List.length token =? 0)%nat then None
  else if negb (startsWith (T "user_") token) then None
  else
    match parseInt (remove_first (T "user_") token) with
    | None => None
    | Some userId =>
        match filter (fun u => (User.id u =? userId)%Z) (users st) with
        | [] => None
        | user :: _ =>
            if negb (User.is_active user) then None
            else Some (auth_user user)
        end
    end.

End Auth.

(* ================================================================== *)
(** * Properties *)

(* ------------------------------------------------------------------ *)
(** ** Characters *)

Module TextFacts.

Ltac each_char c :=
  destruct c as [[] [] [] [] [] [] [] []]; vm_compute; try reflexivity;
  try discriminate; auto.

Lemma lower_char_idem (c : ascii) : lower_char (lower_char c) = lower_char c.
Proof. each_char c. Qed.

Lemma lower_char_word (c : ascii) :
  is_word (lower_char c) = true -> is_lower_word (lower_char c) = true.
Proof. each_char c. Qed.

Lemma lower_char_space (c : ascii) : is_space (lower_char c) = is_space c.
Proof. each_char c. Qed.

Lemma lower_word_fixed (c : ascii) :
  is_lower_word c = true -> lower_char c = c.
Proof. each_char c. Qed.

Lemma lower_word_not_upper (c : ascii) :
  is_lower_word c = true -> is_upper c = false.
Proof. each_char c. Qed.

Lemma toLowerCase_idem (s : text) : toLowerCase (toLowerCase s) = toLowerCase s.
Proof.
  unfold toLowerCase. rewrite map_map. apply map_ext. apply lower_char_idem.
Qed.

Lemma toLowerCase_app (a b : text) :
  toLowerCase (a ++ b) = toLowerCase a ++ toLowerCase b.
Proof. apply map_app. Qed.

Lemma in_substring (c : ascii) (w s : text) :
  substring_of w s -> In c w -> In c s.
Proof.
  intros (pre & post & ->) H. apply in_or_app. right. apply in_or_app. now left.
Qed.

(** A text whose characters are lower-cased characters is its own
    lower-casing. *)
Lemma toLowerCase_fixed (w : text) :
  (forall c, In c w -> lower_char c = c) -> toLowerCase w = w.
Proof.
  intros H. unfold toLowerCase. rewrite <- (map_id w) at 2.
  apply map_ext_in. exact H.
Qed.

(** A piece of a lower-cased text is its own lower-casing. *)
Lemma substring_lower_fixed (w s : text) :
  substring_of w (toLowerCase s) -> toLowerCase w = w.
Proof.
  intros Hsub. apply toLowerCase_fixed. intros c Hc.
  apply (in_substring c w _ Hsub) in Hc. apply in_map_iff in Hc.
  destruct Hc as (c0 & <- & _). apply lower_char_idem.
Qed.

(** ** Maximal runs *)

Section Runs.

Variable p : ascii -> bool.

Lemma runs_head (s : text) :
  exists (r : text) (rs : list text) (post : text),
    runs p s = r :: rs /\ s = r ++ post /\
    Forall (fun c => p c = true) r /\ starts_outside p post.
Proof.
  induction s as [|c s IH]; simpl.
  - exists [], [], []. repeat split; constructor.
  - destruct IH as (r & rs & post & E & Es & Hr & Hpost).
    destruct (p c) eqn:Hc.
    + rewrite E. exists (c :: r), rs, post. subst s. repeat split; auto.
    + exists [], (runs p s), (c :: s). repeat split; auto.
Qed.

Lemma runs_tail_run (s w : text) :
  In w (tl (runs p s)) -> w <> [] ->
  exists (pre : text) (c : ascii) (post : text),
    s = (pre ++ [c]) ++ w ++ post /\ p c = false /\
    Forall (fun c => p c = true) w /\ starts_outside p post.
Proof.
  induction s as [|c s IH]; simpl; intros Hin Hw.
  - contradiction.
  - destruct (p c) eqn:Hc.
    + destruct (runs_head s) as (r & rs & post & E & _).
      rewrite E in Hin, IH. simpl in Hin, IH.
      destruct (IH Hin Hw) as (pre & c0 & post0 & -> & H0 & Hf & Hp).
      exists (c :: pre), c0, post0. repeat split; auto.
    + simpl in Hin.
      destruct (runs_head s) as (r & rs & post & E & Es & Hr & Hp).
      rewrite E in Hin, IH. simpl in Hin, IH. destruct Hin as [<-|Hin].
      * exists [], c, post. subst s. repeat split; auto.
      * destruct (IH Hin Hw) as (pre & c0 & post0 & -> & H0 & Hf & Hp0).
        exists (c :: pre), c0, post0. repeat split; auto.
Qed.

Lemma runs_maximal (s w : text) :
  In w (runs p s) -> w <> [] -> maximal_run p w s.
Proof.
  intros Hin Hw.
  destruct (runs_head s) as (r & rs & post & E & Es & Hr & Hp).
  assert (Hcase : w = r \/ In w (tl (runs p s))).
  { rewrite E in Hin |- *. simpl in *. intuition. }
  destruct Hcase as [->|Ht].
  - exists [], post. repeat split; auto. now left.
  - destruct (runs_tail_run s w Ht Hw) as (pre & c & post0 & Es' & Hc & Hf & Hp0).
    exists (pre ++ [c]), post0. repeat split; auto. right. eauto.
Qed.

Lemma runs_app_head (w post : text) :
  Forall (fun c => p c = true) w -> starts_outside p post ->
  exists rs, runs p (w ++ post) = w :: rs.
Proof.
  intros Hf Hp. induction Hf as [|c w Hc Hf IH]; simpl.
  - destruct post as [|d post]; simpl.
    + now exists [].
    + simpl in Hp. rewrite Hp. eauto.
  - rewrite Hc. destruct IH as (rs & ->). eauto.
Qed.

Lemma runs_after_separator (pre : text) (c : ascii) (rest x : text) :
  p c = false -> In x (runs p rest) -> In x (tl (runs p (pre ++ c :: rest))).
Proof.
  intros Hc Hin. induction pre as [|a pre IH]; simpl.
  - now rewrite Hc.
  - destruct (p a).
    + destruct (runs p (pre ++ c :: rest)); simpl in *; [contradiction|auto].
    + simpl. destruct (runs p (pre ++ c :: rest)); simpl in *; auto.
Qed.

Lemma maximal_in_runs (s w : text) : maximal_run p w s -> In w (runs p s).
Proof.
  intros (pre & post & -> & Hw & Hf & Hpre & Hpost).
  destruct (runs_app_head w post Hf Hpost) as (rs & E).
  destruct Hpre as [->|(pre' & c & -> & Hc)].
  - simpl. rewrite E. now left.
  - rewrite <- app_assoc. simpl.
    assert (Ht : In w (tl (runs p (pre' ++ c :: w ++ post)))).
    { apply runs_after_separator; trivial. rewrite E. now left. }
    destruct (runs p (pre' ++ c :: w ++ post)); simpl in Ht; [contradiction|].
    now right.
Qed.

(** The non-empty elements of [runs p s] are the maximal runs of [s]. *)
Lemma runs_spec (s w : text) :
  In w (runs p s) /\ w <> [] <-> maximal_run p w s.
Proof.
  split.
  - intros [Hin Hw]. now apply runs_maximal.
  - intros H. split; [now apply maximal_in_runs|].
    destruct H as (_ & _ & _ & Hw & _). exact Hw.
Qed.

Lemma maximal_run_substring (s w : text) :
  maximal_run p w s -> substring_of w s.
Proof. intros (pre & post & E & _). now exists pre, post. Qed.

Lemma maximal_run_chars (s w : text) (c : ascii) :
  maximal_run p w s -> In c w -> p c = true.
Proof.
  intros (_ & _ & _ & _ & Hf & _) Hc.
  rewrite Forall_forall in Hf. auto.
Qed.

End Runs.

End TextFacts.

(* ------------------------------------------------------------------ *)
(** ** Collections without duplicates *)

Section Distinct.

Variable A : Type.
Variable eqb : A -> A -> bool.
Hypothesis eqb_eq : forall x y, eqb x y = true <-> x = y.

Lemma existsb_eqb (x : A) (l : list A) :
  existsb (eqb x) l = true <-> In x l.
Proof.
  rewrite existsb_exists. split.
  - intros (y & Hy & E). apply eqb_eq in E. now subst.
  - intros H. exists x. split; trivial. now apply eqb_eq.
Qed.

Lemma add_new_In (seen : list A) (x y : A) :
  In y (add_new eqb seen x) <-> In y seen \/ y = x.
Proof.
  unfold add_new. destruct (existsb (eqb x) seen) eqn:E.
  - apply existsb_eqb in E. split; [auto|]. intros [H| ->]; trivial.
  - rewrite in_app_iff. simpl. intuition.
Qed.

Lemma add_new_fresh (seen : list A) (x : A) :
  ~ In x seen -> add_new eqb seen x = seen ++ [x].
Proof.
  intros Hx. unfold add_new. destruct (existsb (eqb x) seen) eqn:E; trivial.
  apply existsb_eqb in E. contradiction.
Qed.

Lemma add_new_NoDup (seen : list A) (x : A) :
  NoDup seen -> NoDup (add_new eqb seen x).
Proof.
  intros H. unfold add_new. destruct (existsb (eqb x) seen) eqn:E; trivial.
  assert (Hx : ~ In x seen).
  { intros Hin. apply existsb_eqb in Hin. congruence. }
  clear E. induction H as [|y l Hy Hl IH]; simpl.
  - constructor; [intros []|constructor].
  - constructor.
    + rewrite in_app_iff. simpl. intros [H|[H|[]]]; [auto|].
      subst. apply Hx. now left.
    + apply IH. intros H. apply Hx. now right.
Qed.

Lemma fold_add_new_In (l acc : list A) (y : A) :
  In y (fold_left (add_new eqb) l acc) <-> In y acc \/ In y l.
Proof.
  revert acc. induction l as [|x l IH]; intros acc; simpl.
  - intuition.
  - rewrite IH, add_new_In. intuition.
Qed.

Lemma fold_add_new_NoDup (l acc : list A) :
  NoDup acc -> NoDup (fold_left (add_new eqb) l acc).
Proof.
  revert acc. induction l as [|x l IH]; intros acc H; simpl; trivial.
  apply IH. now apply add_new_NoDup.
Qed.

Lemma fold_add_new_prefix (l acc : list A) :
  exists ext, fold_left (add_new eqb) l acc = acc ++ ext.
Proof.
  revert acc. induction l as [|x l IH]; intros acc; simpl.
  - exists []. now rewrite app_nil_r.
  - destruct (IH (add_new eqb acc x)) as (ext & ->).
    unfold add_new. destruct (existsb (eqb x) acc).
    + now exists ext.
    + exists (x :: ext). now rewrite <- app_assoc.
Qed.

Lemma distinct_In (l : list A) (y : A) : In y (distinct eqb l) <-> In y l.
Proof. unfold distinct. rewrite fold_add_new_In. simpl. intuition. Qed.

Lemma distinct_NoDup (l : list A) : NoDup (distinct eqb l).
Proof. apply fold_add_new_NoDup. constructor. Qed.

(** First-seen order: an element stands in [distinct l] after exactly the
    elements that [l] has before its first occurrence. *)
Lemma distinct_first_seen (l1 l2 : list A) (k : A) :
  ~ In k l1 ->
  exists r1 r2,
    distinct eqb (l1 ++ k :: l2) = r1 ++ k :: r2 /\
    forall x, In x r1 <-> In x l1.
Proof.
  intros Hk. unfold distinct. rewrite fold_left_app. simpl.
  assert (E : add_new eqb (fold_left (add_new eqb) l1 []) k
              = fold_left (add_new eqb) l1 [] ++ [k]).
  { apply add_new_fresh. intros Hin. apply (distinct_In l1) in Hin.
    contradiction. }
  rewrite E.
  destruct (fold_add_new_prefix l2 (fold_left (add_new eqb) l1 [] ++ [k]))
    as (ext & ->).
  exists (fold_left (add_new eqb) l1 []), ext. split.
  - now rewrite <- app_assoc.
  - intros x. apply (distinct_In l1).
Qed.

Lemma distinct_nil_iff (l : list A) : distinct eqb l = [] <-> l = [].
Proof.
  split; [|now intros ->].
  destruct l as [|x l]; trivial. intros H.
  assert (Hx : In x (distinct eqb (x :: l))) by (apply distinct_In; now left).
  rewrite H in Hx. contradiction.
Qed.

End Distinct.

Lemma text_eqb_eq (a b : text) : text_eqb a b = true <-> a = b.
Proof.
  unfold text_eqb. destruct (list_eq_dec ascii_dec a b); split; congruence.
Qed.

Lemma FaqCategory_eqb_eq (a b : FaqCategory) :
  FaqCategory_eqb a b = true <-> a = b.
Proof. destruct a, b; simpl; split; congruence. Qed.

(* ------------------------------------------------------------------ *)
(** ** Keyword extraction *)

Import TextFacts.

Lemma match_words_In (s k : text) :
  In k (match_words s) <-> maximal_run is_word k s /\ 3 <= List.length k.
Proof.
  unfold match_words. rewrite filter_In, Nat.leb_le. split.
  - intros [Hin Hlen]. split; trivial. apply runs_spec. split; trivial.
    intros ->. simpl in Hlen. lia.
  - intros [Hrun Hlen]. split; trivial. now apply runs_spec.
Qed.

Lemma generateKeywords_In (q a k : text) :
  In k (generateKeywords q a) <->
  maximal_run is_word k (toLowerCase (q ++ T " " ++ a)) /\ 3 <= List.length k.
Proof.
  unfold generateKeywords, set_of.
  rewrite (distinct_In _ text_eqb text_eqb_eq). apply match_words_In.
Qed.

(** C6.  For every question and answer, each keyword of
    [generateKeywords] has at least three characters, is lower-case (it is
    its own lower-casing and its characters are in [a-z0-9_]) and is a
    substring of the lower-cased text [question + " " + answer]; the
    keywords are exactly the maximal runs of word characters of length at
    least three of that text, each exactly once, in the order in which the
    runs are first seen; empty texts give no keyword. *)
Theorem generateKeywords_spec (question answer : text) :
  (forall k, In k (generateKeywords question answer) ->
     3 <= List.length k /\
     toLowerCase k = k /\
     Forall (fun c => is_lower_word c = true) k /\
     substring_of k (toLowerCase (question ++ T " " ++ answer)))
  /\ (forall k, In k (generateKeywords question answer) <->
        maximal_run is_word k (toLowerCase (question ++ T " " ++ answer))
        /\ 3 <= List.length k)
  /\ NoDup (generateKeywords question answer)
  /\ (forall l1 k l2,
        match_words (toLowerCase (question ++ T " " ++ answer))
          = l1 ++ k :: l2 ->
        ~ In k l1 ->
        exists r1 r2,
          generateKeywords question answer = r1 ++ k :: r2 /\
          forall x, In x r1 <-> In x l1)
  /\ generateKeywords [] [] = [].
Proof.
  split; [|split; [|split; [|split]]].
  - intros k Hk. apply generateKeywords_In in Hk. destruct Hk as [Hrun Hlen].
    pose proof (maximal_run_substring _ _ _ Hrun) as Hsub.
    split; [exact Hlen|]. split; [|split; [|exact Hsub]].
    + eapply substring_lower_fixed; eauto.
    + apply Forall_forall. intros c Hc.
      pose proof (maximal_run_chars _ _ _ c Hrun Hc) as Hw.
      apply (in_substring c k _ Hsub) in Hc. apply in_map_iff in Hc.
      destruct Hc as (c0 & <- & _). now apply lower_char_word.
  - intros k. apply generateKeywords_In.
  - apply distinct_NoDup. apply text_eqb_eq.
  - intros l1 k l2 E Hk. unfold generateKeywords, set_of. rewrite E.
    now apply distinct_first_seen; [apply text_eqb_eq|].
  - reflexivity.
Qed.

(* ------------------------------------------------------------------ *)
(** ** Query tokenization *)

Lemma split_ws_runs (s : text) :
  exists (h : text) (t1 t2 : list text),
    split_ws s = h :: t1 /\ runs non_space s = h :: t2 /\
    forall f : text -> bool, f [] = false -> filter f t1 = filter f t2.
Proof.
  induction s as [|c s IH].
  - exists [], [], []. auto.
  - destruct IH as (h & t1 & t2 & E1 & E2 & Hf).
    simpl. unfold non_space at 1. destruct (is_space c) eqn:Hc; simpl.
    + destruct s as [|c' s'].
      * simpl. exists [], [[]], [[]]. auto.
      * destruct (is_space c') eqn:Hc'.
        -- rewrite E1, E2. exists h, t1, (h :: t2). repeat split; trivial.
           ++ f_equal. simpl in E2. unfold non_space in E2 at 1.
              rewrite Hc' in E2. simpl in E2. congruence.
           ++ intros f Hnil. simpl.
              assert (Hh : h = []).
              { simpl in E2. unfold non_space in E2 at 1.
                rewrite Hc' in E2. simpl in E2. congruence. }
              rewrite Hh, Hnil. auto.
        -- rewrite E1, E2. exists [], (h :: t1), (h :: t2).
           repeat split; trivial. intros f Hnil. simpl. now rewrite Hf.
    + rewrite E1, E2. exists (c :: h), t1, t2. auto.
Qed.

Lemma filter_split_ws (f : text -> bool) (s : text) :
  f [] = false -> filter f (split_ws s) = filter f (runs non_space s).
Proof.
  intros Hnil. destruct (split_ws_runs s) as (h & t1 & t2 & -> & -> & Hf).
  simpl. now rewrite Hf.
Qed.

Lemma searchTerms_runs (query : text) :
  searchTerms query
  = filter (fun t => (2 <? List.length t)%nat)
           (runs non_space (toLowerCase query)).
Proof. unfold searchTerms. now apply filter_split_ws. Qed.

Lemma searchTerms_In (query t : text) :
  In t (searchTerms query) <->
  maximal_run non_space t (toLowerCase query) /\ 2 < List.length t.
Proof.
  rewrite searchTerms_runs, filter_In, Nat.ltb_lt. split.
  - intros [Hin Hlen]. split; trivial. apply runs_spec. split; trivial.
    intros ->. simpl in Hlen. lia.
  - intros [Hrun Hlen]. split; trivial. now apply runs_spec.
Qed.

Lemma nil_iff_no_element {A : Type} (l : list A) :
  l = [] <-> forall x, ~ In x l.
Proof.
  split.
  - intros -> x [].
  - destruct l as [|x l]; trivial. intros H. destruct (H x). now left.
Qed.

Lemma searchTerms_all_short (query : text) :
  (forall t, maximal_run non_space t (toLowerCase query) ->
             List.length t <= 2) ->
  searchTerms query = [].
Proof.
  intros H. apply nil_iff_no_element. intros t Ht.
  apply searchTerms_In in Ht. destruct Ht as [Hrun Hlen].
  apply H in Hrun. lia.
Qed.

Lemma searchTerms_white (query : text) :
  Forall (fun c => is_space c = true) query -> searchTerms query = [].
Proof.
  intros Hw. apply searchTerms_all_short. intros t Hrun.
  destruct t as [|c t]; simpl; [lia|]. exfalso.
  pose proof (maximal_run_chars _ _ _ c Hrun (or_introl eq_refl)) as Hc.
  apply maximal_run_substring in Hrun.
  assert (Hin : In c (toLowerCase query)).
  { apply (in_substring c _ _ Hrun). now left. }
  apply in_map_iff in Hin. destruct Hin as (c0 & <- & Hc0).
  rewrite Forall_forall in Hw. apply Hw in Hc0.
  unfold non_space in Hc. rewrite lower_char_space, Hc0 in Hc. discriminate.
Qed.

(* ------------------------------------------------------------------ *)
(** ** The query builder *)

Lemma innerJoin_In (db : DB) (f : Faq.t) (s : School.t) :
  In (f, s) (innerJoin db) <->
  In f (faqs db) /\ In s (schools db) /\ Faq.school_id f = School.id s.
Proof.
  unfold innerJoin. rewrite in_flat_map. split.
  - intros (f' & Hf & Hin). apply in_map_iff in Hin.
    destruct Hin as (s' & E & Hs). inversion E; subst.
    apply filter_In in Hs. destruct Hs as [Hs Hid].
    apply Z.eqb_eq in Hid. auto.
  - intros (Hf & Hs & Hid). exists f. split; trivial.
    apply in_map. apply filter_In. split; trivial. now apply Z.eqb_eq.
Qed.

Section OrderBy.

Variable A : Type.
Variable key : A -> Z.

Let desc (a b : A) : Prop := (key b <= key a)%Z.

Lemma insert_desc_perm (x : A) (l : list A) :
  Permutation (insert_desc key x l) (x :: l).
Proof.
  induction l as [|y l IH]; simpl; trivial.
  destruct (key x <? key y)%Z; trivial.
  rewrite IH. apply perm_swap.
Qed.

Lemma orderBy_desc_perm (l : list A) : Permutation (orderBy_desc key l) l.
Proof.
  induction l as [|x l IH]; simpl; trivial.
  rewrite insert_desc_perm. now constructor.
Qed.

Lemma insert_desc_sorted (x : A) (l : list A) :
  StronglySorted desc l -> StronglySorted desc (insert_desc key x l).
Proof.
  induction 1 as [|y l Hl IH Hy]; simpl.
  - repeat constructor.
  - destruct (key x <? key y)%Z eqn:E.
    + apply Z.ltb_lt in E. constructor; trivial.
      rewrite Forall_forall in Hy |- *. intros z Hz.
      apply (Permutation_in _ (insert_desc_perm x l)) in Hz.
      destruct Hz as [<-|Hz]; [unfold desc; lia|auto].
    + apply Z.ltb_ge in E. constructor; [now constructor|].
      constructor; [exact E|].
      rewrite Forall_forall in Hy |- *. intros z Hz.
      apply Hy in Hz. unfold desc in *. lia.
Qed.

Lemma orderBy_desc_sorted (l : list A) : StronglySorted desc (orderBy_desc key l).
Proof.
  induction l as [|x l IH]; simpl; [constructor|].
  now apply insert_desc_sorted.
Qed.

Lemma orderBy_desc_In (l : list A) (x : A) :
  In x (orderBy_desc key l) <-> In x l.
Proof.
  split; apply Permutation_in;
    [apply orderBy_desc_perm|symmetry; apply orderBy_desc_perm].
Qed.

Lemma orderBy_desc_length (l : list A) :
  List.length (orderBy_desc key l) = List.length l.
Proof. apply Permutation_length, orderBy_desc_perm. Qed.

End OrderBy.

Lemma firstn_In {A : Type} (n : nat) (l : list A) (x : A) :
  In x (firstn n l) -> In x l.
Proof.
  intros H. rewrite <- (firstn_skipn n l). apply in_or_app. now left.
Qed.

Lemma firstn_sorted {A : Type} (R : A -> A -> Prop) (n : nat) (l : list A) :
  StronglySorted R l -> StronglySorted R (firstn n l).
Proof.
  intros H. revert n. induction H as [|x l Hl IH Hx]; intros [|n]; simpl;
    try constructor; auto.
  rewrite Forall_forall in Hx |- *. intros y Hy.
  apply Hx. eapply firstn_In; eassumption.
Qed.

Lemma map_sorted {A B : Type} (g : A -> B) (R : B -> B -> Prop) (l : list A) :
  StronglySorted (fun a b => R (g a) (g b)) l -> StronglySorted R (map g l).
Proof.
  induction 1 as [|x l Hl IH Hx]; simpl; constructor; trivial.
  rewrite Forall_forall in Hx |- *. intros y Hy.
  apply in_map_iff in Hy. destruct Hy as (a & <- & Ha). auto.
Qed.

Lemma existsb_conditions (r : row) (terms : list text) :
  existsb (fun c : condition => c r) (map term_condition terms)
  = existsb (fun term => term_condition term r) terms.
Proof. induction terms as [|t ts IH]; simpl; [|rewrite IH]; reflexivity. Qed.

(** The conditions that [searchFaqs] collects amount to [matches]. *)
Lemma searchFaqs_faqs (input : ChatbotQueryInput.t) (db : DB) :
  ChatbotResponse.faqs (searchFaqs input db)
  = map fst
      (limit 20
         (orderBy_desc (fun r => Faq.created_at (fst r))
            (filter (matches input) (innerJoin db)))).
Proof.
  unfold searchFaqs. cbn [ChatbotResponse.faqs]. do 3 f_equal.
  unfold where_. apply filter_ext.
  intros r. unfold matches, filter_only, and_, or_.
  unfold eq_domain, faq_is_active, school_is_active, eq_category.
  destruct (ChatbotQueryInput.category input) as [c|];
    destruct (searchTerms (ChatbotQueryInput.query input)) as [|t [|t' ts]];
    simpl;
    destruct (text_eqb (School.domain (snd r))
                       (ChatbotQueryInput.school_domain input));
    destruct (Faq.is_active (fst r)); destruct (School.is_active (snd r));
    simpl; rewrite ?existsb_conditions, ?andb_true_r, ?orb_false_r;
    reflexivity.
Qed.

Lemma filter_only_true (d : text) (c : option FaqCategory) (r : row) :
  filter_only d c r = true <->
  School.domain (snd r) = d /\ Faq.is_active (fst r) = true /\
  School.is_active (snd r) = true /\
  (forall c', c = Some c' -> Faq.category (fst r) = c').
Proof.
  unfold filter_only. rewrite !andb_true_iff, text_eqb_eq.
  destruct c as [c|].
  - rewrite FaqCategory_eqb_eq. split.
    + intros [[[? ?] ?] ?]. repeat split; trivial. congruence.
    + intros (? & ? & ? & H). repeat split; trivial. now apply H.
  - split.
    + intros [[[? ?] ?] ?]. repeat split; trivial. discriminate.
    + intros (? & ? & ? & H). repeat split; trivial.
Qed.

Lemma matches_filter_only (input : ChatbotQueryInput.t) (r : row) :
  matches input r = true ->
  filter_only (ChatbotQueryInput.school_domain input)
              (ChatbotQueryInput.category input) r = true.
Proof. unfold matches. rewrite andb_true_iff. tauto. Qed.

(* ------------------------------------------------------------------ *)
(** ** Search *)

(** C7.  The search terms of a query are the maximal runs of characters
    other than white space of the lower-cased query that are longer than
    two characters, in their order in the query; the empty query, a query
    of white space only and a query whose words all have at most two
    characters have no search term; and a query without search terms is
    answered from the domain, active and optional category filters alone,
    no term predicate being applied. *)
Theorem searchTerms_spec (query : text) :
  searchTerms query
  = filter (fun t => (2 <? List.length t)%nat)
           (runs non_space (toLowerCase query))
  /\ (forall t, In t (searchTerms query) <->
        maximal_run non_space t (toLowerCase query) /\ 2 < List.length t)
  /\ searchTerms [] = []
  /\ (Forall (fun c => is_space c = true) query -> searchTerms query = [])
  /\ ((forall t, maximal_run non_space t (toLowerCase query) ->
                 List.length t <= 2) ->
      searchTerms query = [])
  /\ (searchTerms query = [] ->
      forall school_domain category db,
        ChatbotResponse.faqs
          (searchFaqs (ChatbotQueryInput.mk school_domain query category) db)
        = map fst
            (limit 20
               (orderBy_desc (fun r => Faq.created_at (fst r))
                  (filter (filter_only school_domain category)
                          (innerJoin db))))).
Proof.
  split; [apply searchTerms_runs|].
  split; [intros t; apply searchTerms_In|].
  split; [reflexivity|].
  split; [apply searchTerms_white|].
  split; [apply searchTerms_all_short|].
  intros Hnil d c db. rewrite searchFaqs_faqs. do 3 f_equal.
  apply filter_ext. intros r. unfold matches. simpl. rewrite Hnil.
  apply andb_true_r.
Qed.

Lemma searchFaqs_rows (input : ChatbotQueryInput.t) (db : DB) (f : Faq.t) :
  In f (ChatbotResponse.faqs (searchFaqs input db)) ->
  exists s, In (f, s) (innerJoin db) /\ matches input (f, s) = true.
Proof.
  rewrite searchFaqs_faqs. intros H. apply in_map_iff in H.
  destruct H as ([f' s] & E & H). simpl in E. subst f'.
  apply firstn_In in H. apply orderBy_desc_In in H.
  apply filter_In in H. eauto.
Qed.

(** C1.  Every FAQ that [searchFaqs] returns is a row of the FAQ table
    that is active and belongs to a school of the table that has the
    domain of the input and is active; when the input has a category, the
    FAQ has that category. *)
Theorem searchFaqs_scope (input : ChatbotQueryInput.t) (db : DB) :
  Forall
    (fun f =>
       live_in db (ChatbotQueryInput.school_domain input) f /\
       forall c, ChatbotQueryInput.category input = Some c ->
                 Faq.category f = c)
    (ChatbotResponse.faqs (searchFaqs input db)).
Proof.
  apply Forall_forall. intros f Hf.
  destruct (searchFaqs_rows input db f Hf) as (s & Hjoin & Hm).
  apply innerJoin_In in Hjoin. destruct Hjoin as (Hin & Hs & Hid).
  apply matches_filter_only, filter_only_true in Hm. simpl in Hm.
  destruct Hm as (Hd & Hfa & Hsa & Hc).
  split; [|exact Hc]. split; [exact Hin|]. split; [exact Hfa|].
  exists s. auto.
Qed.

(** C2.  The FAQs that [searchFaqs] returns are the first twenty of the
    matching rows in an order of descending [created_at]; so they are at
    most twenty and are themselves in descending order of [created_at];
    and [total_results] is the length of the returned list, which is the
    smaller of twenty and the number of matching rows. *)
Theorem searchFaqs_limit_order (input : ChatbotQueryInput.t) (db : DB) :
  List.length (ChatbotResponse.faqs (searchFaqs input db)) <= 20
  /\ StronglySorted newer_or_equal (ChatbotResponse.faqs (searchFaqs input db))
  /\ (exists sorted,
        Permutation sorted (filter (matches input) (innerJoin db)) /\
        StronglySorted (fun a b => newer_or_equal (fst a) (fst b)) sorted /\
        ChatbotResponse.faqs (searchFaqs input db) = map fst (firstn 20 sorted))
  /\ ChatbotResponse.total_results (searchFaqs input db)
     = Z.of_nat (List.length (ChatbotResponse.faqs (searchFaqs input db)))
  /\ ChatbotResponse.total_results (searchFaqs input db)
     = Z.of_nat
         (Nat.min 20 (List.length (filter (matches input) (innerJoin db)))).
Proof.
  assert (Hsorted :
    StronglySorted (fun a b : row => newer_or_equal (fst a) (fst b))
      (orderBy_desc (fun r => Faq.created_at (fst r))
         (filter (matches input) (innerJoin db))))
    by apply orderBy_desc_sorted.
  assert (Hlen :
    List.length (ChatbotResponse.faqs (searchFaqs input db))
    = Nat.min 20 (List.length (filter (matches input) (innerJoin db)))).
  { rewrite searchFaqs_faqs. unfold limit.
    now rewrite length_map, length_firstn, orderBy_desc_length. }
  assert (Htotal :
    ChatbotResponse.total_results (searchFaqs input db)
    = Z.of_nat (List.length (ChatbotResponse.faqs (searchFaqs input db))))
    by reflexivity.
  split; [rewrite Hlen; apply Nat.le_min_l|].
  split.
  { rewrite searchFaqs_faqs. apply map_sorted. now apply firstn_sorted. }
  split.
  { eexists. split; [apply orderBy_desc_perm|]. split; [exact Hsorted|].
    apply searchFaqs_faqs. }
  split; [exact Htotal|]. now rewrite Htotal, Hlen.
Qed.

Lemma base_conditions_true (d : text) (r : row) :
  and_ [eq_domain d; faq_is_active; school_is_active] r = true <->
  School.domain (snd r) = d /\ Faq.is_active (fst r) = true /\
  School.is_active (snd r) = true.
Proof.
  unfold and_, eq_domain, faq_is_active, school_is_active. simpl.
  rewrite !andb_true_iff, text_eqb_eq.
  destruct (Faq.is_active (fst r)), (School.is_active (snd r)); simpl;
    intuition discriminate.
Qed.

Lemma live_categories_In (db : DB) (d : text) (c : FaqCategory) :
  In c (getAvailableCategories d db) <->
  exists f, live_in db d f /\ Faq.category f = c.
Proof.
  unfold getAvailableCategories, groupBy_category, where_.
  rewrite (distinct_In _ FaqCategory_eqb FaqCategory_eqb_eq), in_map_iff.
  split.
  - intros ([f s] & E & H). simpl in E. apply filter_In in H.
    destruct H as [Hjoin Hc]. apply innerJoin_In in Hjoin.
    destruct Hjoin as (Hf & Hs & Hid).
    apply base_conditions_true in Hc. simpl in Hc.
    destruct Hc as (Hd & Hfa & Hsa).
    exists f. split; trivial. split; trivial. split; trivial. exists s. auto.
  - intros (f & (Hf & Hfa & s & Hs & Hid & Hd & Hsa) & E).
    exists (f, s). split; trivial. apply filter_In. split.
    + apply innerJoin_In. auto.
    + apply base_conditions_true. auto.
Qed.

(** C3.  The suggested categories of a search are the result of
    [getAvailableCategories] for the same domain, whatever the query and
    the category filter of the search: each category of an active FAQ of an
    active school with that domain, exactly once; so none when no school
    has the domain, when the schools with the domain are inactive, or when
    they have no active FAQ. *)
Theorem suggested_categories_spec (input : ChatbotQueryInput.t) (db : DB) :
  ChatbotResponse.suggested_categories (searchFaqs input db)
  = getAvailableCategories (ChatbotQueryInput.school_domain input) db
  /\ (forall query category,
        ChatbotResponse.suggested_categories
          (searchFaqs
             (ChatbotQueryInput.mk (ChatbotQueryInput.school_domain input)
                                   query category) db)
        = ChatbotResponse.suggested_categories (searchFaqs input db))
  /\ NoDup (ChatbotResponse.suggested_categories (searchFaqs input db))
  /\ (forall c,
        In c (ChatbotResponse.suggested_categories (searchFaqs input db)) <->
        exists f, live_in db (ChatbotQueryInput.school_domain input) f /\
                  Faq.category f = c)
  /\ ((forall s, In s (schools db) ->
                 School.domain s <> ChatbotQueryInput.school_domain input) ->
      ChatbotResponse.suggested_categories (searchFaqs input db) = [])
  /\ ((forall s, In s (schools db) ->
                 School.domain s = ChatbotQueryInput.school_domain input ->
                 School.is_active s = false) ->
      ChatbotResponse.suggested_categories (searchFaqs input db) = [])
  /\ ((forall f s, In f (faqs db) -> In s (schools db) ->
                   School.id s = Faq.school_id f ->
                   School.domain s = ChatbotQueryInput.school_domain input ->
                   Faq.is_active f = false) ->
      ChatbotResponse.suggested_categories (searchFaqs input db) = []).
Proof.
  assert (E : ChatbotResponse.suggested_categories (searchFaqs input db)
              = getAvailableCategories
                  (ChatbotQueryInput.school_domain input) db)
    by reflexivity.
  split; [exact E|]. split; [reflexivity|]. rewrite E.
  split; [apply distinct_NoDup, FaqCategory_eqb_eq|].
  split; [intros c; apply live_categories_In|].
  split; [|split]; intros H; apply nil_iff_no_element; intros c Hc;
    apply live_categories_In in Hc;
    destruct Hc as (f & (Hf & Hfa & s & Hs & Hid & Hd & Hsa) & _).
  - now apply (H s).
  - rewrite (H s Hs Hd) in Hsa. discriminate.
  - rewrite (H f s Hf Hs Hid Hd) in Hfa. discriminate.
Qed.

(* ------------------------------------------------------------------ *)
(** ** Creating and updating *)

Lemma getFaqById_Some (id : Z) (db : DB) (cur : Faq.t) :
  getFaqById id db = Some cur -> In cur (faqs db) /\ Faq.id cur = id.
Proof.
  unfold getFaqById. intros H.
  destruct (filter (fun f => (Faq.id f =? id)%Z) (faqs db)) as [|r rs] eqn:E;
    [discriminate|].
  inversion H; subst r.
  assert (Hin : In cur (filter (fun f => (Faq.id f =? id)%Z) (faqs db)))
    by (rewrite E; now left).
  apply filter_In in Hin. destruct Hin as [Hin Hid].
  apply Z.eqb_eq in Hid. auto.
Qed.

Lemma filter_updated (id : Z) (v : UpdateValues) (l : list Faq.t) :
  filter (fun f => (Faq.id f =? id)%Z)
         (map (fun f => if (Faq.id f =? id)%Z then set_values v f else f) l)
  = map (set_values v) (filter (fun f => (Faq.id f =? id)%Z) l).
Proof.
  induction l as [|f l IH]; simpl; trivial.
  destruct (Faq.id f =? id)%Z eqn:E; simpl; rewrite E, IH; reflexivity.
Qed.

Lemma filter_not_updated (id : Z) (v : UpdateValues) (l : list Faq.t) :
  filter (fun f => negb (Faq.id f =? id)%Z)
         (map (fun f => if (Faq.id f =? id)%Z then set_values v f else f) l)
  = filter (fun f => negb (Faq.id f =? id)%Z) l.
Proof.
  induction l as [|f l IH]; simpl; trivial.
  destruct (Faq.id f =? id)%Z eqn:E; simpl; rewrite E, IH; reflexivity.
Qed.

(** An update of an existing row that sets at least one value returns the
    row with the values set, and that is the row then stored under the
    id; rows with another id and the schools stay as they are. *)
Lemma update_returning_row (v : UpdateValues) (id : Z) (db : DB) (cur : Faq.t) :
  getFaqById id db = Some cur -> has_values v = true ->
  exists results db',
    update_returning v id db = (Ok results, db') /\
    first_row results = Ok (set_values v cur) /\
    getFaqById id db' = Some (set_values v cur) /\
    schools db' = schools db /\
    filter (fun f => negb (Faq.id f =? id)%Z) (faqs db')
    = filter (fun f => negb (Faq.id f =? id)%Z) (faqs db).
Proof.
  intros Hcur Hv. unfold update_returning. rewrite Hv.
  eexists. eexists. split; [reflexivity|].
  unfold getFaqById in *. simpl. rewrite filter_updated, filter_not_updated.
  destruct (filter (fun f => (Faq.id f =? id)%Z) (faqs db)) as [|r rs];
    [discriminate|].
  inversion Hcur; subst r. simpl. auto.
Qed.

Section UpdateWith.

Variable extract : text -> text -> list text.

Lemma updateFaq_with_row (input : UpdateFaqInput.t) (db : DB) (cur : Faq.t) :
  getFaqById (UpdateFaqInput.id input) db = Some cur ->
  has_values (updateValues_for extract input cur) = true ->
  exists db',
    updateFaq_with extract input db
    = (Ok (set_values (updateValues_for extract input cur) cur), db') /\
    getFaqById (UpdateFaqInput.id input) db'
    = Some (set_values (updateValues_for extract input cur) cur) /\
    schools db' = schools db /\
    filter (fun f => negb (Faq.id f =? UpdateFaqInput.id input)%Z) (faqs db')
    = filter (fun f => negb (Faq.id f =? UpdateFaqInput.id input)%Z) (faqs db).
Proof.
  intros Hcur Hv. unfold updateFaq_with. rewrite Hcur.
  destruct (update_returning_row _ _ _ _ Hcur Hv)
    as (results & db' & -> & -> & Hget & Hs & Hf).
  exists db'. auto.
Qed.

Lemma updateFaq_with_no_values (input : UpdateFaqInput.t) (db : DB)
    (cur : Faq.t) :
  getFaqById (UpdateFaqInput.id input) db = Some cur ->
  has_values (updateValues_for extract input cur) = false ->
  updateFaq_with extract input db = (Err (Error "No values to set"), db).
Proof.
  intros Hcur Hv. unfold updateFaq_with, update_returning.
  now rewrite Hcur, Hv.
Qed.

(** A successful update returns the current row with the prepared values
    set, and stores it. *)
Lemma updateFaq_with_Ok (input : UpdateFaqInput.t) (db db' : DB)
    (cur row : Faq.t) :
  getFaqById (UpdateFaqInput.id input) db = Some cur ->
  updateFaq_with extract input db = (Ok row, db') ->
  row = set_values (updateValues_for extract input cur) cur /\
  getFaqById (UpdateFaqInput.id input) db' = Some row.
Proof.
  intros Hcur Hok.
  destruct (has_values (updateValues_for extract input cur)) eqn:Hv.
  - destruct (updateFaq_with_row input db cur Hcur Hv) as (db1 & E & Hget & _).
    rewrite E in Hok. inversion Hok; subst. auto.
  - rewrite (updateFaq_with_no_values input db cur Hcur Hv) in Hok.
    discriminate.
Qed.

End UpdateWith.



(** C9.  An update of an existing FAQ that supplies only
    [is_active: false] succeeds; the row it returns and stores has the
    keywords, question, answer and category (and every other field) of the
    current row, and is inactive; the schools and the rows with another id
    are untouched. *)
Theorem updateFaq_deactivate (id : Z) (db : DB) (cur : Faq.t) :
  getFaqById id db = Some cur ->
  exists row db',
    updateFaq (UpdateFaqInput.mk id None None None None (Some false)) db
    = (Ok row, db') /\
    Faq.keywords row = Faq.keywords cur /\
    Faq.question row = Faq.question cur /\
    Faq.answer row = Faq.answer cur /\
    Faq.category row = Faq.category cur /\
    Faq.is_active row = false /\
    row = Faq.mk (Faq.id cur) (Faq.school_id cur) (Faq.category cur)
                 (Faq.question cur) (Faq.answer cur) (Faq.keywords cur)
                 false (Faq.created_by cur) (Faq.created_at cur)
                 (Faq.updated_at cur) /\
    getFaqById id db' = Some row /\
    schools db' = schools db /\
    filter (fun f => negb (Faq.id f =? id)%Z) (faqs db')
    = filter (fun f => negb (Faq.id f =? id)%Z) (faqs db).
Proof.
  intros Hcur.
  destruct (updateFaq_with_row generateKeywords
              (UpdateFaqInput.mk id None None None None (Some false))
              db cur Hcur eq_refl) as (db' & E & Hget & Hs & Hf).
  eexists. exists db'. split; [exact E|]. simpl in *.
  repeat split; trivial.
Qed.

Lemma createFaq_with_Ok (extract : text -> text -> list text)
    (input : CreateFaqInput.t) (createdBy : Z) (db db' : DB) (row : Faq.t) :
  createFaq_with extract input createdBy db = (Ok row, db') ->
  row = Faq.mk (faqs_id_seq db)
               (CreateFaqInput.school_id input)
               (CreateFaqInput.category input)
               (CreateFaqInput.question input)
               (CreateFaqInput.answer input)
               (match CreateFaqInput.keywords input with
                | Some (k :: ks) => k :: ks
                | Some [] | None =>
                    extract (CreateFaqInput.question input)
                            (CreateFaqInput.answer input)
                end)
               true createdBy (clock db) (clock db)
  /\ faqs db' = faqs db ++ [row]
  /\ schools db' = schools db
  /\ exists s, In s (schools db) /\
               School.id s = CreateFaqInput.school_id input.
Proof.
  unfold createFaq_with, insert_returning. cbv zeta.
  destruct (filter _ (schools db)) as [|s ss] eqn:E; simpl;
    [discriminate|].
  intros H. inversion H; subst. simpl. repeat split.
  assert (Hin : In s (filter
            (fun s => (School.id s =? CreateFaqInput.school_id input)%Z)
            (schools db))) by (rewrite E; now left).
  apply filter_In in Hin. destruct Hin as [Hin Hid].
  apply Z.eqb_eq in Hid. eauto.
Qed.

Lemma createFaq_with_school (extract : text -> text -> list text)
    (input : CreateFaqInput.t) (createdBy : Z) (db : DB) (s : School.t) :
  In s (schools db) -> School.id s = CreateFaqInput.school_id input ->
  exists row db', createFaq_with extract input createdBy db = (Ok row, db').
Proof.
  intros Hs Hid. unfold createFaq_with, insert_returning. cbv zeta.
  destruct (filter _ (schools db)) as [|s' ss] eqn:E; simpl; [|eauto].
  assert (Hin : In s (filter
            (fun s => (School.id s =? CreateFaqInput.school_id input)%Z)
            (schools db))).
  { apply filter_In. split; trivial. now apply Z.eqb_eq. }
  rewrite E in Hin. contradiction.
Qed.


(** C10.  The row that a successful create returns, which is the row it
    appends to the table, is active; the input of a create has no field
    for it.  The same holds for a create through the procedure
    [faqs.create].  Creates do succeed: when the database accepts the
    statements (the next id of the sequence is unused, the ids are within
    the range of their columns and the texts can be stored), a create
    succeeds exactly when the school exists. *)
Theorem createFaq_active (input : CreateFaqInput.t) (createdBy : Z) (db : DB) :
  (forall row db',
     createFaq input createdBy db = (Ok row, db') ->
     Faq.is_active row = true /\ faqs db' = faqs db ++ [row])
  /\ (createFaq_accepted input createdBy db ->
      ((exists s, In s (schools db) /\
                  School.id s = CreateFaqInput.school_id input) <->
       exists row db', createFaq input createdBy db = (Ok row, db')))
  /\ (forall req row db',
        Router.faqs_create req db = (Ok row, db') ->
        Faq.is_active row = true /\ faqs db' = faqs db ++ [row]).
Proof.
  split; [|split].
  - intros row db' H. apply createFaq_with_Ok in H.
    destruct H as (-> & Hf & _). auto.
  - intros _. split.
    + intros (s & Hs & Hid). now apply createFaq_with_school with s.
    + intros (row & db' & H). apply createFaq_with_Ok in H. tauto.
  - intros req row db' H. unfold Router.faqs_create, Router.procedure in H.
    destruct (Router.createFaqInputSchema req) as [i|]; [|discriminate].
    apply createFaq_with_Ok in H. destruct H as (-> & Hf & _). auto.
Qed.

Lemma generateKeywords_nonempty (question answer : text) :
  generateKeywords question answer <> [] <-> has_keyword_word question answer.
Proof.
  unfold has_keyword_word. split.
  - intros H. destruct (generateKeywords question answer) as [|k ks] eqn:E;
      [contradiction|].
    exists k. apply generateKeywords_In. rewrite E. now left.
  - intros (w & Hw) E. apply generateKeywords_In in Hw.
    rewrite E in Hw. contradiction.
Qed.

(** C4, as the handlers have it.  After a successful create the stored
    keywords are non-empty exactly when the caller supplied a non-empty
    list or the lower-cased text of question and answer has a run of at
    least three word characters.  After a successful update they are
    non-empty exactly when the supplied list is non-empty; or, no list
    being supplied, a question or an answer is supplied and the lower-cased
    text of the effective question and answer has such a run; or none of
    the three is supplied and the keywords were non-empty before. *)
Theorem keywords_nonempty_after_write :
  (forall input createdBy db row db',
     createFaq input createdBy db = (Ok row, db') ->
     faqs db' = faqs db ++ [row] /\
     (Faq.keywords row <> [] <->
      (exists k ks, CreateFaqInput.keywords input = Some (k :: ks)) \/
      has_keyword_word (CreateFaqInput.question input)
                       (CreateFaqInput.answer input)))
  /\ (forall input db cur row db',
        getFaqById (UpdateFaqInput.id input) db = Some cur ->
        updateFaq input db = (Ok row, db') ->
        getFaqById (UpdateFaqInput.id input) db' = Some row /\
        (Faq.keywords row <> [] <->
         match UpdateFaqInput.keywords input with
         | Some ks => ks <> []
         | None =>
             if is_some (UpdateFaqInput.question input)
                || is_some (UpdateFaqInput.answer input)
             then has_keyword_word
                    (or_else (UpdateFaqInput.question input) (Faq.question cur))
                    (or_else (UpdateFaqInput.answer input) (Faq.answer cur))
             else Faq.keywords cur <> []
         end)).
Proof.
  split.
  - intros input createdBy db row db' H. apply createFaq_with_Ok in H.
    destruct H as (-> & Hf & _). split; [exact Hf|]. simpl.
    destruct (CreateFaqInput.keywords input) as [[|k ks]|].
    + rewrite generateKeywords_nonempty. split; [auto|].
      intros [(k & ks & E)|H]; [discriminate|exact H].
    + split; [eauto|discriminate].
    + rewrite generateKeywords_nonempty. split; [auto|].
      intros [(k & ks & E)|H]; [discriminate|exact H].
  - intros input db cur row db' Hcur H.
    destruct (updateFaq_with_Ok generateKeywords input db db' cur row Hcur H)
      as [-> Hget].
    split; [exact Hget|]. unfold updateValues_for. simpl.
    destruct (UpdateFaqInput.keywords input) as [ks|]; simpl; [tauto|].
    destruct (is_some (UpdateFaqInput.question input)
              || is_some (UpdateFaqInput.answer input)); simpl.
    + apply generateKeywords_nonempty.
    + tauto.
Qed.

(* ------------------------------------------------------------------ *)
(** ** Validation *)

Lemma faqCategorySchema_name (c : FaqCategory) :
  Router.faqCategorySchema (FaqCategory_name c) = Some c.
Proof. destruct c; reflexivity. Qed.

Lemma faqCategorySchema_Some (s : text) (c : FaqCategory) :
  Router.faqCategorySchema s = Some c -> s = FaqCategory_name c.
Proof.
  unfold Router.faqCategorySchema. intros H. apply find_some in H.
  destruct H as [_ H]. apply text_eqb_eq in H. now symmetry.
Qed.

Lemma faqCategorySchema_None (s : text) :
  ~ In s (map FaqCategory_name all_categories) ->
  Router.faqCategorySchema s = None.
Proof.
  intros H. destruct (Router.faqCategorySchema s) as [c|] eqn:E; trivial.
  apply faqCategorySchema_Some in E. subst s. destruct H.
  apply in_map. destruct c; simpl; tauto.
Qed.

Lemma createFaqInputSchema_rejects (req : Router.CreateFaqRequest.t) :
  Router.CreateFaqRequest.question req = [] \/
  Router.CreateFaqRequest.answer req = [] \/
  ~ In (Router.CreateFaqRequest.category req)
       (map FaqCategory_name all_categories) ->
  Router.createFaqInputSchema req = None.
Proof.
  unfold Router.createFaqInputSchema. intros [H|[H|H]].
  - rewrite H. simpl.
    now destruct (Router.faqCategorySchema (Router.CreateFaqRequest.category req)).
  - rewrite H. simpl.
    destruct (Router.faqCategorySchema (Router.CreateFaqRequest.category req));
      trivial.
    now destruct (Router.string_min_1 (Router.CreateFaqRequest.question req)).
  - now rewrite (faqCategorySchema_None _ H).
Qed.

Lemma updateFaqInputSchema_rejects (req : Router.UpdateFaqRequest.t) :
  Router.UpdateFaqRequest.question req = Some [] \/
  Router.UpdateFaqRequest.answer req = Some [] \/
  (exists c, Router.UpdateFaqRequest.category req = Some c /\
             ~ In c (map FaqCategory_name all_categories)) ->
  Router.updateFaqInputSchema req = None.
Proof.
  unfold Router.updateFaqInputSchema. intros [H|[H|(c & H & Hc)]].
  - rewrite H. simpl.
    now destruct (Router.optional Router.faqCategorySchema
                    (Router.UpdateFaqRequest.category req)).
  - rewrite H. simpl.
    destruct (Router.optional Router.faqCategorySchema
                (Router.UpdateFaqRequest.category req)); trivial.
    now destruct (Router.optional Router.string_min_1
                    (Router.UpdateFaqRequest.question req)).
  - rewrite H. simpl. now rewrite (faqCategorySchema_None _ Hc).
Qed.

(** C5, as the code has it.  The empty question, the empty answer and the
    unknown category are rejected by the input schemas of the procedures,
    not by the handlers: a create through [faqs.create] whose question is
    empty, whose answer is empty or whose category is not one of the five
    names, and an update through [faqs.update] that supplies an empty
    question, an empty answer or a category that is not one of the five
    names, fails with [ValidationFailure] and leaves the database as it
    was; the handler does not run. *)
Theorem validation_rejects :
  (forall req db,
     Router.CreateFaqRequest.question req = [] \/
     Router.CreateFaqRequest.answer req = [] \/
     ~ In (Router.CreateFaqRequest.category req)
          (map FaqCategory_name all_categories) ->
     Router.faqs_create req db = (Err ValidationFailure, db))
  /\ (forall req db,
        Router.UpdateFaqRequest.question req = Some [] \/
        Router.UpdateFaqRequest.answer req = Some [] \/
        (exists c, Router.UpdateFaqRequest.category req = Some c /\
                   ~ In c (map FaqCategory_name all_categories)) ->
        Router.faqs_update req db = (Err ValidationFailure, db)).
Proof.
  split; intros req db H.
  - unfold Router.faqs_create, Router.procedure.
    now rewrite (createFaqInputSchema_rejects req H).
  - unfold Router.faqs_update, Router.procedure.
    now rewrite (updateFaqInputSchema_rejects req H).
Qed.

(* ------------------------------------------------------------------ *)
(** ** The properties on the example database *)

Import Scenario.

Example generateKeywords_dining :
  generateKeywords (T "What dining options exist on campus?")
                   (T "Multiple cafeterias serve various cuisines.")
  = map T ["what"; "dining"; "options"; "exist"; "campus"; "multiple";
           "cafeterias"; "serve"; "various"; "cuisines"].
Proof. vm_compute. reflexivity. Qed.

Example generateKeywords_repeats :
  generateKeywords (T "The CAT, the dog; a cat_9 to") (T "DOG the")
  = map T ["the"; "cat"; "dog"; "cat_9"].
Proof. vm_compute. reflexivity. Qed.

Example searchTerms_mixed :
  searchTerms (T "  How  do I APPLY to   the school ")
  = map T ["how"; "apply"; "the"; "school"].
Proof. vm_compute. reflexivity. Qed.

Example searchTerms_short : searchTerms (T "to be or") = [].
Proof. reflexivity. Qed.

Example split_ws_edges :
  split_ws (T "") = [[]] /\ split_ws (T " ") = [[]; []] /\
  split_ws (T " a  b ") = [[]; T "a"; T "b"; []].
Proof. repeat split. Qed.

Example ilike_patterns :
  Pg.ilike (T "Admission Requirements") (T "%requirements%") = true
  /\ Pg.ilike (T "abc") (T "%a_c%") = true
  /\ Pg.ilike (T "abc") (T "%b") = false.
Proof. repeat split. Qed.

Example keywords_text_two :
  Pg.keywords_text [T "sat"; T "act"]
  = T "[" ++ [Pg.quote] ++ T "sat" ++ [Pg.quote] ++ T ","
    ++ [Pg.quote] ++ T "act" ++ [Pg.quote] ++ T "]".
Proof. reflexivity. Qed.

Example search_admission :
  searchFaqs
    (ChatbotQueryInput.mk (T "acme.edu") (T "admission requirements") None) db0
  = ChatbotResponse.mk [admission_faq] [admissions; campus_life] 1.
Proof. vm_compute. reflexivity. Qed.

Example search_without_terms :
  searchFaqs (ChatbotQueryInput.mk (T "acme.edu") (T "to be or") None) db0
  = ChatbotResponse.mk [housing_faq; admission_faq] [admissions; campus_life] 2.
Proof. vm_compute. reflexivity. Qed.

Example search_unknown_domain :
  searchFaqs (ChatbotQueryInput.mk (T "unknown.edu") (T "anything") None) db0
  = ChatbotResponse.mk [] [] 0.
Proof. vm_compute. reflexivity. Qed.

Example search_inactive_school :
  searchFaqs (ChatbotQueryInput.mk (T "closed.edu") (T "admission") None) db0
  = ChatbotResponse.mk [] [] 0.
Proof. vm_compute. reflexivity. Qed.

(** With 21 matching rows the search returns the 20 newest, and
    [total_results] is 20. *)
Example search_capped :
  List.length
    (filter (matches (ChatbotQueryInput.mk (T "acme.edu") (T "course") None))
            (innerJoin (db_courses 21))) = 21
  /\ ChatbotResponse.total_results
       (searchFaqs (ChatbotQueryInput.mk (T "acme.edu") (T "course") None)
                   (db_courses 21)) = 20%Z
  /\ map Faq.id
       (ChatbotResponse.faqs
          (searchFaqs (ChatbotQueryInput.mk (T "acme.edu") (T "course") None)
                      (db_courses 21)))
     = map Z.of_nat (rev (seq 2 20)).
Proof. vm_compute. repeat split. Qed.

(** C5 does not hold of the handlers: they do not validate.  Called
    directly, [createFaq] with an empty question inserts the row, and
    [updateFaq] with an empty question stores it. *)
Lemma handlers_accept_empty_question :
  (exists row db',
     createFaq (CreateFaqInput.mk 1 admissions [] (T "!") None) 1 db0
     = (Ok row, db') /\
     Faq.question row = [] /\ faqs db' = faqs db0 ++ [row])
  /\ (exists row db',
        updateFaq (UpdateFaqInput.mk 1 None (Some []) None None None) db0
        = (Ok row, db') /\
        Faq.question row = [] /\ getFaqById 1 db' = Some row).
Proof.
  split; eexists; eexists; (split; [vm_compute; reflexivity|]);
    split; reflexivity.
Qed.

(** C4 does not hold as stated: a create whose question and answer have
    no run of three word characters, and an update to such a question and
    answer, succeed and store no keyword, although the caller supplied no
    keywords list at all. *)
Lemma keywords_empty_after_write :
  (exists row db',
     Router.faqs_create
       (Router.CreateFaqRequest.mk 1 (T "admissions") (T "?") (T "!") None) db0
     = (Ok row, db') /\
     Faq.keywords row = [] /\ faqs db' = faqs db0 ++ [row])
  /\ (exists row db',
        Router.faqs_update
          (Router.UpdateFaqRequest.mk 1 None (Some (T "Hi?")) (Some (T "No."))
                                      None None) db0
        = (Ok row, db') /\
        Faq.keywords row = [] /\ getFaqById 1 db' = Some row).
Proof.
  split; eexists; eexists; (split; [vm_compute; reflexivity|]);
    split; reflexivity.
Qed.

(** [searchFaqs_scope] at work on the example database. *)
Lemma searchFaqs_scope_witness :
  Forall
    (fun f =>
       live_in db0 (T "acme.edu") f /\
       forall c, Some campus_life = Some c -> Faq.category f = c)
    [housing_faq].
Proof.
  exact (searchFaqs_scope
           (ChatbotQueryInput.mk (T "acme.edu") (T "housing") (Some campus_life))
           db0).
Defined.

(** [suggested_categories_spec] at work on the example database. *)
Lemma suggested_categories_spec_witness :
  (forall s, In s (schools db0) -> School.domain s <> T "unknown.edu") /\
  ChatbotResponse.suggested_categories
    (searchFaqs (ChatbotQueryInput.mk (T "unknown.edu") (T "anything") None) db0)
  = [].
Proof.
  assert (H : forall s, In s (schools db0) -> School.domain s <> T "unknown.edu").
  { intros s [<-|[<-|[]]]; discriminate. }
  split; [exact H|].
  exact (proj1 (proj2 (proj2 (proj2 (proj2
           (suggested_categories_spec
              (ChatbotQueryInput.mk (T "unknown.edu") (T "anything") None)
              db0))))) H).
Defined.

(** [keywords_nonempty_after_write] at work on the example database. *)
Lemma keywords_nonempty_after_write_witness :
  createFaq (CreateFaqInput.mk 1 campus_life
               (T "What dining options exist on campus?")
               (T "Multiple cafeterias serve various cuisines.") None) 1 db0
  = (Ok (Faq.mk 5 1 campus_life
                (T "What dining options exist on campus?")
                (T "Multiple cafeterias serve various cuisines.")
                (map T ["what"; "dining"; "options"; "exist"; "campus";
                        "multiple"; "cafeterias"; "serve"; "various";
                        "cuisines"])
                true 1 200 200),
     mkDB (schools db0)
          (faqs db0
           ++ [Faq.mk 5 1 campus_life
                 (T "What dining options exist on campus?")
                 (T "Multiple cafeterias serve various cuisines.")
                 (map T ["what"; "dining"; "options"; "exist"; "campus";
                         "multiple"; "cafeterias"; "serve"; "various";
                         "cuisines"])
                 true 1 200 200])
          6 200)
  /\ has_keyword_word (T "What dining options exist on campus?")
                      (T "Multiple cafeterias serve various cuisines.").
Proof.
  assert (E : createFaq (CreateFaqInput.mk 1 campus_life
               (T "What dining options exist on campus?")
               (T "Multiple cafeterias serve various cuisines.") None) 1 db0
  = (Ok (Faq.mk 5 1 campus_life
                (T "What dining options exist on campus?")
                (T "Multiple cafeterias serve various cuisines.")
                (map T ["what"; "dining"; "options"; "exist"; "campus";
                        "multiple"; "cafeterias"; "serve"; "various";
                        "cuisines"])
                true 1 200 200),
     mkDB (schools db0)
          (faqs db0
           ++ [Faq.mk 5 1 campus_life
                 (T "What dining options exist on campus?")
                 (T "Multiple cafeterias serve various cuisines.")
                 (map T ["what"; "dining"; "options"; "exist"; "campus";
                         "multiple"; "cafeterias"; "serve"; "various";
                         "cuisines"])
                 true 1 200 200])
          6 200)) by (vm_compute; reflexivity).
  split; [exact E|].
  destruct (proj1 keywords_nonempty_after_write _ _ _ _ _ E) as [_ [H _]].
  destruct (H ltac:(discriminate)) as [(k & ks & Hk)|Hw];
    [discriminate|exact Hw].
Defined.

(** [validation_rejects] at work on the example database. *)
Lemma validation_rejects_witness :
  Router.faqs_create
    (Router.CreateFaqRequest.mk 1 (T "admissions") [] (T "An answer.") None) db0
  = (Err ValidationFailure, db0)
  /\ Router.faqs_create
       (Router.CreateFaqRequest.mk 1 (T "sports") (T "A question?")
                                   (T "An answer.") None) db0
     = (Err ValidationFailure, db0)
  /\ Router.faqs_update
       (Router.UpdateFaqRequest.mk 1 None None (Some []) None None) db0
     = (Err ValidationFailure, db0).
Proof.
  split; [|split].
  - apply (proj1 validation_rejects). now left.
  - apply (proj1 validation_rejects). right. right. simpl.
    intros [H|[H|[H|[H|[H|[]]]]]]; discriminate.
  - apply (proj2 validation_rejects). right. now left.
Defined.

(** [generateKeywords_spec] at work on the example database. *)
Lemma generateKeywords_spec_witness :
  In (T "dining")
     (generateKeywords (T "What dining options exist on campus?")
                       (T "Multiple cafeterias serve various cuisines."))
  /\ substring_of (T "dining")
       (toLowerCase (T "What dining options exist on campus?" ++ T " "
                     ++ T "Multiple cafeterias serve various cuisines.")).
Proof.
  assert (H : In (T "dining")
     (generateKeywords (T "What dining options exist on campus?")
                       (T "Multiple cafeterias serve various cuisines.")))
    by (vm_compute; tauto).
  split; [exact H|].
  apply (proj1 (generateKeywords_spec
                  (T "What dining options exist on campus?")
                  (T "Multiple cafeterias serve various cuisines.")) _ H).
Defined.

(** [searchTerms_spec] at work on the example database. *)
Lemma searchTerms_spec_witness :
  searchTerms (T "to be or") = [] /\
  ChatbotResponse.faqs
    (searchFaqs
       (ChatbotQueryInput.mk (T "acme.edu") (T "to be or") (Some admissions))
       db0)
  = map fst
      (limit 20
         (orderBy_desc (fun r => Faq.created_at (fst r))
            (filter (filter_only (T "acme.edu") (Some admissions))
                    (innerJoin db0)))).
Proof.
  split; [reflexivity|].
  exact (proj2 (proj2 (proj2 (proj2 (proj2
           (searchTerms_spec (T "to be or"))))))
           eq_refl (T "acme.edu") (Some admissions) db0).
Defined.


(** [updateFaq_deactivate] at work on the example database. *)
Lemma updateFaq_deactivate_witness :
  getFaqById 2 db0 = Some housing_faq /\
  exists row db',
    updateFaq (UpdateFaqInput.mk 2 None None None None (Some false)) db0
    = (Ok row, db') /\
    Faq.keywords row = Faq.keywords housing_faq /\
    Faq.is_active row = false /\
    getFaqById 2 db' = Some row.
Proof.
  split; [reflexivity|].
  destruct (updateFaq_deactivate 2 db0 housing_faq eq_refl)
    as (row & db' & E & K & _ & _ & _ & A & _ & G & _).
  exists row, db'. auto.
Defined.

(** [createFaq_active] at work on the example database. *)
Lemma createFaq_active_witness :
  exists row db',
    createFaq (CreateFaqInput.mk 1 general_info (T "Where is the school?")
                                 (T "Downtown.") (Some [T "where"])) 7 db0
    = (Ok row, db') /\
    Faq.is_active row = true /\ faqs db' = faqs db0 ++ [row].
Proof.
  assert (Hdb : createFaq_accepted
                  (CreateFaqInput.mk 1 general_info (T "Where is the school?")
                                     (T "Downtown.") (Some [T "where"])) 7 db0).
  { split; [|split; [|split; [|split; [|split]]]].
    - intros f [<-|[<-|[<-|[<-|[]]]]]; reflexivity.
    - split; discriminate.
    - split; discriminate.
    - split; discriminate.
    - repeat constructor; discriminate.
    - repeat constructor; discriminate. }
  destruct (proj1 (proj2 (createFaq_active
              (CreateFaqInput.mk 1 general_info (T "Where is the school?")
                                 (T "Downtown.") (Some [T "where"])) 7 db0))
              Hdb)
    as [H _].
  destruct H as (row & db' & E).
  { exists acme. split; [now left|reflexivity]. }
  exists row, db'. split; [exact E|].
  apply (proj1 (createFaq_active _ _ _) _ _ E).
Defined.

(* ================================================================== *)
(** * Further properties of the handlers *)

(* ------------------------------------------------------------------ *)
(** ** [LIKE] patterns *)

Lemma like_percent_nil (p : text) : Pg.like (percent :: p) [] = Pg.like p [].
Proof. simpl. apply orb_false_r. Qed.

Lemma like_percent_cons (p : text) (a : ascii) (s : text) :
  Pg.like (percent :: p) (a :: s)
  = Pg.like p (a :: s) || Pg.like (percent :: p) s.
Proof. reflexivity. Qed.

Lemma like_percent_only (s : text) : Pg.like [percent] s = true.
Proof.
  induction s as [|a s IH].
  - reflexivity.
  - rewrite like_percent_cons, IH. apply orb_true_r.
Qed.

Lemma like_skip (p pre s : text) :
  Pg.like p s = true -> Pg.like (percent :: p) (pre ++ s) = true.
Proof.
  intros H. induction pre as [|a pre IH]; simpl app.
  - destruct s as [|b s].
    + now rewrite like_percent_nil.
    + rewrite like_percent_cons, H. reflexivity.
  - rewrite like_percent_cons, IH. apply orb_true_r.
Qed.

Lemma like_percent_inv (p s : text) :
  Pg.like (percent :: p) s = true ->
  exists pre rest, s = pre ++ rest /\ Pg.like p rest = true.
Proof.
  induction s as [|a s IH].
  - rewrite like_percent_nil. intros H. now exists [], [].
  - rewrite like_percent_cons. intros H. apply orb_true_iff in H.
    destruct H as [H|H].
    + now exists [], (a :: s).
    + destruct (IH H) as (pre & rest & -> & Hr). now exists (a :: pre), rest.
Qed.

(** A text without [%] and backslash matches itself as a prefix. *)
Lemma like_prefix (t p s : text) :
  Forall (fun c => like_unsafe c = false) t ->
  Pg.like p s = true -> Pg.like (t ++ p) (t ++ s) = true.
Proof.
  intros Ht H. induction Ht as [|c t Hc Ht IH]; simpl app; trivial.
  unfold like_unsafe in Hc. apply orb_false_iff in Hc. destruct Hc as [H1 H2].
  simpl. rewrite H1, H2. destruct (code c =? 95)%N; trivial.
  now rewrite Ascii.eqb_refl.
Qed.

(** A text of literal characters matches only itself as a prefix. *)
Lemma like_prefix_inv (t p s : text) :
  Forall (fun c => like_special c = false) t ->
  Pg.like (t ++ p) s = true ->
  exists rest, s = t ++ rest /\ Pg.like p rest = true.
Proof.
  intros Ht. revert s. induction Ht as [|c t Hc Ht IH]; intros s H.
  - now exists s.
  - unfold like_special in Hc. apply orb_false_iff in Hc.
    destruct Hc as [Hc H3]. apply orb_false_iff in Hc. destruct Hc as [H1 H2].
    simpl in H. rewrite H1, H2, H3 in H.
    destruct s as [|x s]; [discriminate|].
    apply andb_true_iff in H. destruct H as [Hx H].
    apply Ascii.eqb_eq in Hx. subst x.
    destruct (IH s H) as (rest & -> & Hr). now exists rest.
Qed.

Lemma like_contains (t s : text) :
  Forall (fun c => like_unsafe c = false) t ->
  substring_of t s -> Pg.like (percent :: t ++ [percent]) s = true.
Proof.
  intros Ht (pre & post & ->). apply like_skip. apply like_prefix; trivial.
  apply like_percent_only.
Qed.

Lemma like_contains_inv (t s : text) :
  Forall (fun c => like_special c = false) t ->
  Pg.like (percent :: t ++ [percent]) s = true -> substring_of t s.
Proof.
  intros Ht H. apply like_percent_inv in H.
  destruct H as (pre & rest & -> & H).
  apply like_prefix_inv in H; trivial. destruct H as (post & -> & _).
  now exists pre, post.
Qed.

Lemma lower_char_unsafe (c : ascii) :
  like_unsafe (lower_char c) = like_unsafe c.
Proof. TextFacts.each_char c. Qed.

Lemma lower_char_special (c : ascii) :
  like_special (lower_char c) = like_special c.
Proof. TextFacts.each_char c. Qed.

Lemma toLowerCase_pattern (term : text) :
  toLowerCase (T "%" ++ term ++ T "%")
  = percent :: toLowerCase term ++ [percent].
Proof.
  unfold toLowerCase. simpl. now rewrite map_app.
Qed.

Lemma Forall_toLowerCase (P : ascii -> bool) (t : text) :
  (forall c, P (lower_char c) = P c) ->
  Forall (fun c => P c = false) t ->
  Forall (fun c => P c = false) (toLowerCase t).
Proof.
  intros HP Ht. unfold toLowerCase. apply Forall_map.
  eapply Forall_impl; [|exact Ht]. simpl. intros c Hc. now rewrite HP.
Qed.

(** [s ILIKE '%' + term + '%'] holds when the lower-cased term occurs in
    the lower-cased text, for a term without [%] and backslash. *)
Lemma ilike_contains (term s : text) :
  Forall (fun c => like_unsafe c = false) term ->
  substring_of (toLowerCase term) (toLowerCase s) ->
  Pg.ilike s (T "%" ++ term ++ T "%") = true.
Proof.
  intros Ht H. unfold Pg.ilike. rewrite toLowerCase_pattern.
  apply like_contains; trivial.
  apply Forall_toLowerCase; trivial. apply lower_char_unsafe.
Qed.

Lemma ilike_contains_iff (term s : text) :
  Forall (fun c => like_special c = false) term ->
  Pg.ilike s (T "%" ++ term ++ T "%") = true <->
  substring_of (toLowerCase term) (toLowerCase s).
Proof.
  intros Ht. split.
  - unfold Pg.ilike. rewrite toLowerCase_pattern. apply like_contains_inv.
    apply Forall_toLowerCase; trivial. apply lower_char_special.
  - apply ilike_contains. eapply Forall_impl; [|exact Ht]. simpl.
    intros c Hc. unfold like_special in Hc. unfold like_unsafe.
    destruct (code c =? 37)%N, (code c =? 92)%N; trivial;
      simpl in Hc; try discriminate.
    now rewrite orb_true_r in Hc.
Qed.

(* ------------------------------------------------------------------ *)
(** ** What a search term matches *)

(** X1.  A search term without [%], [_] and backslash matches a row
    exactly when, lower-cased, it occurs in the lower-cased question, in
    the lower-cased answer or in the lower-cased JSON text of the
    keywords: term matching is case-insensitive substring search. *)
Theorem term_condition_contains (term : text) (f : Faq.t) (s : School.t) :
  Forall (fun c => like_special c = false) term ->
  term_condition term (f, s) = true <->
  exists t, In t (searched_texts f) /\
            substring_of (toLowerCase term) (toLowerCase t).
Proof.
  intros Ht. unfold term_condition, searched_texts. simpl fst.
  rewrite !orb_true_iff, !(ilike_contains_iff _ _ Ht). split.
  - intros [[H|H]|H]; eexists; (split; [|exact H]); simpl; auto.
  - intros (t & [<-|[<-|[<-|[]]]] & H); auto.
Qed.

(** [term_condition_contains] at work on the example database. *)
Lemma term_condition_contains_witness :
  Forall (fun c => like_special c = false) (T "DIPLOMA") /\
  term_condition (T "DIPLOMA") (Scenario.admission_faq, Scenario.acme) = true.
Proof.
  assert (H : Forall (fun c => like_special c = false) (T "DIPLOMA"))
    by (repeat constructor).
  split; [exact H|].
  apply (proj2 (term_condition_contains (T "DIPLOMA") Scenario.admission_faq
                  Scenario.acme H)).
  exists (Faq.answer Scenario.admission_faq). split; [simpl; auto|].
  exists (T "a "), (T " and test scores."). reflexivity.
Defined.

(* ------------------------------------------------------------------ *)
(** ** Keywords of question and answer *)

Lemma runs_nonempty (p : ascii -> bool) (s : text) : runs p s <> [].
Proof.
  destruct (TextFacts.runs_head p s) as (r & rs & _ & E & _).
  rewrite E. discriminate.
Qed.

(** A character outside [p] separates the runs on its two sides. *)
Lemma runs_app_separator (p : ascii -> bool) (x : text) (c : ascii) (y : text) :
  p c = false -> runs p (x ++ c :: y) = runs p x ++ runs p y.
Proof.
  intros Hc. induction x as [|a x IH]; simpl.
  - now rewrite Hc.
  - rewrite IH. destruct (p a); trivial.
    destruct (runs p x) as [|r rs] eqn:E; [now destruct (runs_nonempty p x)|].
    reflexivity.
Qed.

Lemma runs_all (p : ascii -> bool) (w : text) :
  Forall (fun c => p c = true) w -> runs p w = [w].
Proof.
  induction 1 as [|c w Hc Hw IH]; simpl; trivial. now rewrite Hc, IH.
Qed.

Lemma match_words_app (x y : text) :
  match_words (x ++ T " " ++ y) = match_words x ++ match_words y.
Proof.
  unfold match_words. simpl app.
  rewrite runs_app_separator by reflexivity. apply filter_app.
Qed.

Lemma distinct_of_NoDup {A : Type} (eqb : A -> A -> bool)
    (eqb_eq : forall x y, eqb x y = true <-> x = y) (l : list A) :
  NoDup l -> distinct eqb l = l.
Proof.
  unfold distinct. intros H.
  assert (G : forall acc, NoDup (acc ++ l) ->
                          fold_left (add_new eqb) l acc = acc ++ l).
  { clear H. induction l as [|x l IH]; intros acc Hnd; simpl.
    - now rewrite app_nil_r.
    - rewrite (add_new_fresh _ eqb eqb_eq).
      + rewrite IH; rewrite <- app_assoc; trivial.
      + intros Hin. apply NoDup_remove_2 in Hnd. apply Hnd.
        apply in_or_app. now left. }
  now apply (G []).
Qed.

Lemma generateKeywords_parts (question answer : text) :
  generateKeywords question answer
  = distinct text_eqb (match_words (toLowerCase question)
                       ++ match_words (toLowerCase answer)).
Proof.
  unfold generateKeywords, set_of.
  now rewrite !TextFacts.toLowerCase_app, match_words_app.
Qed.

Lemma keyword_chars (question answer k : text) :
  In k (generateKeywords question answer) ->
  3 <= List.length k /\ Forall (fun c => is_lower_word c = true) k.
Proof.
  intros Hk. apply generateKeywords_In in Hk. destruct Hk as [Hrun Hlen].
  split; trivial. apply Forall_forall. intros c Hc.
  pose proof (TextFacts.maximal_run_chars _ _ _ c Hrun Hc) as Hw.
  apply TextFacts.maximal_run_substring in Hrun.
  apply (TextFacts.in_substring c k _ Hrun) in Hc. apply in_map_iff in Hc.
  destruct Hc as (c0 & <- & _). now apply TextFacts.lower_char_word.
Qed.

Lemma lower_word_plain (c : ascii) :
  is_lower_word c = true ->
  is_space c = false /\ like_unsafe c = false /\ is_word c = true.
Proof. TextFacts.each_char c. Qed.

(** X2.  The keywords of a question and an answer are the words of the
    lower-cased question followed by the words of the lower-cased answer,
    each kept at its first occurrence: no keyword spans the two texts, and
    the question and answer of the arguments may be swapped without
    changing which keywords there are. *)
Theorem generateKeywords_union (question answer : text) :
  generateKeywords question answer
  = distinct text_eqb (match_words (toLowerCase question)
                       ++ match_words (toLowerCase answer))
  /\ (forall k, In k (generateKeywords question answer) <->
        In k (generateKeywords question []) \/
        In k (generateKeywords [] answer))
  /\ (forall k, In k (generateKeywords question answer) <->
                In k (generateKeywords answer question))
  /\ generateKeywords (toLowerCase question) (toLowerCase answer)
     = generateKeywords question answer.
Proof.
  assert (Hin : forall q a k, In k (generateKeywords q a) <->
            In k (match_words (toLowerCase q)) \/
            In k (match_words (toLowerCase a))).
  { intros q a k. rewrite generateKeywords_parts.
    rewrite (distinct_In _ text_eqb text_eqb_eq). apply in_app_iff. }
  split; [apply generateKeywords_parts|]. split; [|split].
  - intros k. rewrite !Hin. simpl. unfold match_words at 3 4. simpl. tauto.
  - intros k. rewrite !Hin. tauto.
  - rewrite !generateKeywords_parts. now rewrite !TextFacts.toLowerCase_idem.
Qed.

Lemma match_words_join (ks : list text) :
  Forall (fun k => 3 <= List.length k /\
                   Forall (fun c => is_word c = true) k) ks ->
  match_words (Pg.join (T " ") ks) = ks.
Proof.
  induction 1 as [|k ks [Hlen Hk] Hks IH]; [reflexivity|].
  destruct ks as [|k' ks'].
  - change (Pg.join (T " ") [k]) with k.
    unfold match_words. rewrite (runs_all _ _ Hk). cbn [filter].
    apply Nat.leb_le in Hlen. now rewrite Hlen.
  - change (Pg.join (T " ") (k :: k' :: ks'))
      with (k ++ T " " ++ Pg.join (T " ") (k' :: ks')).
    rewrite match_words_app, IH. unfold match_words.
    rewrite (runs_all _ _ Hk). cbn [filter app].
    apply Nat.leb_le in Hlen. now rewrite Hlen.
Qed.

(** X3.  Deriving keywords again from the derived keywords, joined by
    spaces, gives the same keywords in the same order. *)
Theorem generateKeywords_idempotent (question answer : text) :
  generateKeywords (Pg.join (T " ") (generateKeywords question answer)) []
  = generateKeywords question answer.
Proof.
  set (ks := generateKeywords question answer).
  assert (Hks : Forall (fun k => 3 <= List.length k /\
                          Forall (fun c => is_lower_word c = true) k) ks).
  { apply Forall_forall. intros k Hk. eapply keyword_chars. exact Hk. }
  assert (Hlow : toLowerCase (Pg.join (T " ") ks) = Pg.join (T " ") ks).
  { apply TextFacts.toLowerCase_fixed. clear -Hks.
    induction Hks as [|k ks [_ Hk] Hks IH]; simpl; [intros c []|].
    assert (Hkc : forall c, In c k -> lower_char c = c).
    { intros c Hc. rewrite Forall_forall in Hk.
      now apply TextFacts.lower_word_fixed, Hk. }
    destruct ks as [|k' ks']; [exact Hkc|].
    intros c Hc. apply in_app_or in Hc. destruct Hc as [Hc|Hc]; [auto|].
    simpl in Hc. destruct Hc as [<-|Hc]; [reflexivity|]. now apply IH. }
  rewrite generateKeywords_parts, Hlow. simpl toLowerCase.
  change (match_words []) with (@nil text). rewrite app_nil_r.
  rewrite match_words_join.
  - apply distinct_of_NoDup; [apply text_eqb_eq|].
    apply distinct_NoDup, text_eqb_eq.
  - eapply Forall_impl; [|exact Hks]. simpl. intros k [Hlen Hk].
    split; trivial. eapply Forall_impl; [|exact Hk]. simpl.
    intros c Hc. now apply lower_word_plain.
Qed.

(* ------------------------------------------------------------------ *)
(** ** Searching and listing *)

Lemma matching_row_returned (input : ChatbotQueryInput.t) (db : DB)
    (f : Faq.t) (s : School.t) :
  In (f, s) (innerJoin db) -> matches input (f, s) = true ->
  List.length (filter (matches input) (innerJoin db)) <= 20 ->
  In f (ChatbotResponse.faqs (searchFaqs input db)).
Proof.
  intros Hjoin Hm Hlen. rewrite searchFaqs_faqs. unfold limit.
  rewrite firstn_all2 by now rewrite orderBy_desc_length.
  apply in_map_iff. exists (f, s). split; trivial.
  apply orderBy_desc_In. apply filter_In. auto.
Qed.

(** X4.  When at most twenty rows match, the search returns all of them:
    the returned FAQs are the FAQs of the matching rows, each as often as
    it matches. *)
Theorem searchFaqs_complete (input : ChatbotQueryInput.t) (db : DB) :
  List.length (filter (matches input) (innerJoin db)) <= 20 ->
  Permutation (ChatbotResponse.faqs (searchFaqs input db))
              (map fst (filter (matches input) (innerJoin db)))
  /\ ChatbotResponse.total_results (searchFaqs input db)
     = Z.of_nat (List.length (filter (matches input) (innerJoin db))).
Proof.
  intros Hlen.
  assert (E : ChatbotResponse.faqs (searchFaqs input db)
              = map fst (orderBy_desc (fun r => Faq.created_at (fst r))
                           (filter (matches input) (innerJoin db)))).
  { rewrite searchFaqs_faqs. unfold limit.
    now rewrite firstn_all2 by now rewrite orderBy_desc_length. }
  split.
  - rewrite E. apply Permutation_map, orderBy_desc_perm.
  - change (ChatbotResponse.total_results (searchFaqs input db))
      with (Z.of_nat (List.length
                        (ChatbotResponse.faqs (searchFaqs input db)))).
    now rewrite E, length_map, orderBy_desc_length.
Qed.

(** [searchFaqs_complete] at work on the example database. *)
Lemma searchFaqs_complete_witness :
  Permutation [Scenario.housing_faq; Scenario.admission_faq]
              [Scenario.admission_faq; Scenario.housing_faq].
Proof.
  refine (proj1 (searchFaqs_complete
           (ChatbotQueryInput.mk (T "acme.edu") (T "") None) Scenario.db0 _)).
  vm_compute. repeat constructor.
Defined.

Lemma category_conditions_true (d : text) (c : FaqCategory) (r : row) :
  and_ [eq_domain d; eq_category c; faq_is_active; school_is_active] r
  = filter_only d (Some c) r.
Proof.
  unfold and_, filter_only, eq_domain, eq_category, faq_is_active,
    school_is_active. simpl.
  destruct (text_eqb (School.domain (snd r)) d),
    (FaqCategory_eqb (Faq.category (fst r)) c),
    (Faq.is_active (fst r)), (School.is_active (snd r)); reflexivity.
Qed.

Lemma getFaqsByCategory_rows (input : GetFaqsByCategoryInput.t) (db : DB) :
  getFaqsByCategory input db
  = map fst
      (orderBy_desc (fun r => Faq.created_at (fst r))
         (filter (filter_only (GetFaqsByCategoryInput.school_domain input)
                              (Some (GetFaqsByCategoryInput.category input)))
                 (innerJoin db))).
Proof.
  unfold getFaqsByCategory, where_. do 2 f_equal. apply filter_ext.
  intros r. apply category_conditions_true.
Qed.

Lemma live_row (db : DB) (d : text) (c : option FaqCategory) (f : Faq.t) :
  (exists s, In (f, s) (innerJoin db) /\ filter_only d c (f, s) = true) <->
  live_in db d f /\ forall c', c = Some c' -> Faq.category f = c'.
Proof.
  split.
  - intros (s & Hjoin & Hf). apply innerJoin_In in Hjoin.
    destruct Hjoin as (Hin & Hs & Hid).
    apply filter_only_true in Hf. simpl in Hf.
    destruct Hf as (Hd & Hfa & Hsa & Hc).
    split; trivial. split; trivial. split; trivial. exists s. auto.
  - intros [(Hin & Hfa & s & Hs & Hid & Hd & Hsa) Hc]. exists s. split.
    + apply innerJoin_In. auto.
    + apply filter_only_true. simpl. auto.
Qed.

(** X5.  [getFaqsByCategory] returns exactly the active FAQs of the given
    category that belong to an active school with the given domain, all of
    them (there is no limit), in descending order of [created_at]; for a
    domain that no school has it returns nothing. *)
Theorem getFaqsByCategory_spec (input : GetFaqsByCategoryInput.t) (db : DB) :
  (forall f, In f (getFaqsByCategory input db) <->
     live_in db (GetFaqsByCategoryInput.school_domain input) f /\
     Faq.category f = GetFaqsByCategoryInput.category input)
  /\ StronglySorted newer_or_equal (getFaqsByCategory input db)
  /\ List.length (getFaqsByCategory input db)
     = List.length
         (filter (filter_only (GetFaqsByCategoryInput.school_domain input)
                    (Some (GetFaqsByCategoryInput.category input)))
                 (innerJoin db))
  /\ ((forall s, In s (schools db) ->
         School.domain s <> GetFaqsByCategoryInput.school_domain input) ->
      getFaqsByCategory input db = []).
Proof.
  assert (Hin : forall f, In f (getFaqsByCategory input db) <->
     live_in db (GetFaqsByCategoryInput.school_domain input) f /\
     Faq.category f = GetFaqsByCategoryInput.category input).
  { intros f. rewrite getFaqsByCategory_rows, in_map_iff. split.
    - intros ([f' s] & E & H). simpl in E. subst f'.
      apply orderBy_desc_In, filter_In in H.
      destruct (proj1 (live_row db _ _ f) (ex_intro _ s H)) as [Hl Hc].
      split; trivial. now apply Hc.
    - intros [Hl Hc].
      destruct (proj2 (live_row db
                  (GetFaqsByCategoryInput.school_domain input)
                  (Some (GetFaqsByCategoryInput.category input)) f))
        as (s & Hjoin & Hf).
      { split; trivial. intros c' E. inversion E. now subst. }
      exists (f, s). split; trivial.
      apply orderBy_desc_In, filter_In. auto. }
  split; [exact Hin|]. split; [|split].
  - rewrite getFaqsByCategory_rows. apply map_sorted.
    apply orderBy_desc_sorted.
  - now rewrite getFaqsByCategory_rows, length_map, orderBy_desc_length.
  - intros Hnone. apply nil_iff_no_element. intros f Hf. apply Hin in Hf.
    destruct Hf as [(_ & _ & s & Hs & _ & Hd & _) _]. now apply (Hnone s).
Qed.




(** X7.  A category is among the available categories of a domain exactly
    when [getFaqsByCategory] has a FAQ to show for it. *)
Theorem category_available_iff (d : text) (c : FaqCategory) (db : DB) :
  In c (getAvailableCategories d db) <->
  getFaqsByCategory (GetFaqsByCategoryInput.mk d c) db <> [].
Proof.
  rewrite live_categories_In, getFaqsByCategory_rows. split.
  - intros (f & Hl & Hc) E.
    destruct (proj2 (live_row db d (Some c) f)) as (s & Hjoin & Hf).
    { split; trivial. intros c' Ec. inversion Ec. now subst. }
    assert (Hin : In f (map fst
              (orderBy_desc (fun r => Faq.created_at (fst r))
                 (filter (filter_only d (Some c)) (innerJoin db))))).
    { apply in_map_iff. exists (f, s). split; trivial.
      apply orderBy_desc_In, filter_In. auto. }
    simpl in E. rewrite E in Hin. contradiction.
  - intros Hne. simpl in Hne.
    destruct (map fst _) as [|f l] eqn:E in Hne; [contradiction|].
    assert (Hin : In f (map fst
              (orderBy_desc (fun r => Faq.created_at (fst r))
                 (filter (filter_only d (Some c)) (innerJoin db)))))
      by (rewrite E; now left).
    apply in_map_iff in Hin. destruct Hin as ([f' s] & Ef & H).
    simpl in Ef. subst f'. apply orderBy_desc_In, filter_In in H.
    destruct (proj1 (live_row db d (Some c) f) (ex_intro _ s H)) as [Hl Hc].
    exists f. split; trivial. now apply Hc.
Qed.

(** X8.  For a school id within the range of the column,
    [getFaqsBySchoolId] returns the FAQs of the table with that school id,
    all of them and each as often as the table has it, active or not and
    whether or not such a school exists, in descending order of
    [created_at]. *)
Theorem getFaqsBySchoolId_spec (schoolId : Z) (db : DB) :
  int4 schoolId ->
  Permutation (getFaqsBySchoolId schoolId db)
              (filter (fun f => (Faq.school_id f =? schoolId)%Z) (faqs db))
  /\ StronglySorted newer_or_equal (getFaqsBySchoolId schoolId db)
  /\ (forall f, In f (getFaqsBySchoolId schoolId db) <->
                In f (faqs db) /\ Faq.school_id f = schoolId).
Proof.
  intros _. unfold getFaqsBySchoolId. split; [apply orderBy_desc_perm|]. split.
  - apply orderBy_desc_sorted.
  - intros f. rewrite orderBy_desc_In, filter_In, Z.eqb_eq. tauto.
Qed.

(** [getFaqsBySchoolId_spec] at work on the example database: the FAQs of
    the inactive school are listed, and so is the inactive FAQ of the
    other school. *)
Lemma getFaqsBySchoolId_spec_witness :
  In Scenario.closed_faq (getFaqsBySchoolId 2 Scenario.db0)
  /\ In Scenario.retired_faq (getFaqsBySchoolId 1 Scenario.db0).
Proof.
  assert (H1 : int4 1) by (split; discriminate).
  assert (H2 : int4 2) by (split; discriminate).
  split.
  - apply (proj2 (proj2 (getFaqsBySchoolId_spec 2 Scenario.db0 H2))).
    split; [simpl; tauto|reflexivity].
  - apply (proj2 (proj2 (getFaqsBySchoolId_spec 1 Scenario.db0 H1))).
    split; [simpl; tauto|reflexivity].
Defined.

Lemma split_ws_word (w : text) :
  Forall (fun c => is_space c = false) w -> split_ws w = [w].
Proof.
  induction 1 as [|c w Hc Hw IH]; [reflexivity|].
  simpl. now rewrite Hc, IH.
Qed.

Lemma keyword_is_search_term (k : text) :
  3 <= List.length k -> Forall (fun c => is_lower_word c = true) k ->
  searchTerms k = [k].
Proof.
  intros Hlen Hk. unfold searchTerms.
  rewrite TextFacts.toLowerCase_fixed.
  - rewrite split_ws_word.
    + cbn [filter]. assert (E : (2 <? List.length k)%nat = true)
        by (apply Nat.ltb_lt; lia). now rewrite E.
    + eapply Forall_impl; [|exact Hk]. simpl. intros c Hc.
      now apply lower_word_plain.
  - intros c Hc. rewrite Forall_forall in Hk.
    now apply TextFacts.lower_word_fixed, Hk.
Qed.

Lemma keyword_in_question_or_answer (question answer k : text) :
  In k (generateKeywords question answer) ->
  substring_of k (toLowerCase question) \/
  substring_of k (toLowerCase answer).
Proof.
  rewrite generateKeywords_parts, (distinct_In _ text_eqb text_eqb_eq).
  rewrite in_app_iff, !match_words_In.
  intros [[H _]|[H _]]; [left|right];
    eapply TextFacts.maximal_run_substring; exact H.
Qed.

Lemma createFaq_with_result (extract : text -> text -> list text)
    (input : CreateFaqInput.t) (createdBy : Z) (db db' : DB) (row : Faq.t) :
  createFaq_with extract input createdBy db = (Ok row, db') ->
  db' = mkDB (schools db) (faqs db ++ [row]) (faqs_id_seq db + 1) (clock db)
  /\ Faq.id row = faqs_id_seq db.
Proof.
  unfold createFaq_with, insert_returning. cbv zeta.
  destruct (filter _ (schools db)) as [|s ss]; simpl; [discriminate|].
  intros H. inversion H; subst. auto.
Qed.

(** X9.  A FAQ created for an active school is matched by a search, in
    that school's domain, for any of the keywords that [generateKeywords]
    derives from its question and answer, with no category or with its own
    category; the search returns it when at most twenty rows match. *)
Theorem created_faq_is_found (input : CreateFaqInput.t) (createdBy : Z)
    (db db' : DB) (row : Faq.t) (s : School.t) (k : text)
    (cat : option FaqCategory) :
  createFaq input createdBy db = (Ok row, db') ->
  In s (schools db) ->
  School.id s = CreateFaqInput.school_id input ->
  School.is_active s = true ->
  In k (generateKeywords (CreateFaqInput.question input)
                         (CreateFaqInput.answer input)) ->
  (forall c, cat = Some c -> c = CreateFaqInput.category input) ->
  In (row, s) (innerJoin db')
  /\ matches (ChatbotQueryInput.mk (School.domain s) k cat) (row, s) = true
  /\ (List.length
        (filter (matches (ChatbotQueryInput.mk (School.domain s) k cat))
                (innerJoin db')) <= 20 ->
      In row (ChatbotResponse.faqs
                (searchFaqs (ChatbotQueryInput.mk (School.domain s) k cat)
                            db'))).
Proof.
  intros Hok Hs Hid Hact Hk Hcat.
  destruct (createFaq_with_Ok _ _ _ _ _ _ Hok) as (Hrow & Hfaqs & Hsch & _).
  assert (Hjoin : In (row, s) (innerJoin db')).
  { apply innerJoin_In. rewrite Hfaqs, Hsch. split; [|split; trivial].
    - apply in_or_app. right. now left.
    - rewrite Hrow. simpl. now symmetry. }
  destruct (keyword_chars _ _ _ Hk) as [Hlen Hchars].
  assert (Hm : matches (ChatbotQueryInput.mk (School.domain s) k cat)
                       (row, s) = true).
  { unfold matches. simpl. apply andb_true_iff. split.
    - apply filter_only_true. simpl. rewrite Hrow. simpl.
      repeat split; trivial. intros c Hc. symmetry. now apply Hcat.
    - rewrite (keyword_is_search_term k Hlen Hchars). cbn [existsb].
      rewrite orb_false_r. unfold term_condition. cbv zeta. cbn [fst].
      assert (Hsafe : Forall (fun c => like_unsafe c = false) k).
      { eapply Forall_impl; [|exact Hchars]. simpl. intros c Hc.
        now apply lower_word_plain. }
      assert (Hlow : toLowerCase k = k).
      { apply TextFacts.toLowerCase_fixed. intros c Hc.
        rewrite Forall_forall in Hchars.
        now apply TextFacts.lower_word_fixed, Hchars. }
      rewrite Hrow. cbn [Faq.question Faq.answer Faq.keywords].
      destruct (keyword_in_question_or_answer _ _ _ Hk) as [H|H].
      + rewrite (ilike_contains k (CreateFaqInput.question input) Hsafe);
          [reflexivity|now rewrite Hlow].
      + rewrite (ilike_contains k (CreateFaqInput.answer input) Hsafe);
          [now rewrite orb_true_r|now rewrite Hlow]. }
  split; [exact Hjoin|]. split; [exact Hm|].
  intros Hfew. now apply matching_row_returned with s.
Qed.

(** [created_faq_is_found] at work on the example database. *)
Lemma created_faq_is_found_witness :
  exists row db',
    createFaq (CreateFaqInput.mk 1 campus_life
                 (T "What dining options exist on campus?")
                 (T "Multiple cafeterias serve various cuisines.") None)
              1 Scenario.db0
    = (Ok row, db') /\
    In row (ChatbotResponse.faqs
              (searchFaqs
                 (ChatbotQueryInput.mk (T "acme.edu") (T "cafeterias") None)
                 db')).
Proof.
  eexists. eexists. split; [reflexivity|].
  refine (proj2 (proj2 (created_faq_is_found
            (CreateFaqInput.mk 1 campus_life
               (T "What dining options exist on campus?")
               (T "Multiple cafeterias serve various cuisines.") None)
            1 Scenario.db0 _ _ Scenario.acme (T "cafeterias") None
            eq_refl _ eq_refl eq_refl _ _)) _).
  - now left.
  - vm_compute. tauto.
  - discriminate.
  - vm_compute. repeat constructor.
Defined.

(* ------------------------------------------------------------------ *)
(** ** Deleting, and looking up after a write *)

Lemma filter_other_id (id id' : Z) (l : list Faq.t) :
  id' <> id ->
  filter (fun f => (Faq.id f =? id')%Z)
         (filter (fun f => negb (Faq.id f =? id)%Z) l)
  = filter (fun f => (Faq.id f =? id')%Z) l.
Proof.
  intros Hne. induction l as [|f l IH]; simpl; trivial.
  destruct (Faq.id f =? id)%Z eqn:E; simpl.
  - apply Z.eqb_eq in E.
    assert (E' : (Faq.id f =? id')%Z = false) by (apply Z.eqb_neq; congruence).
    now rewrite E'.
  - now rewrite IH.
Qed.

Lemma filter_same_id (id : Z) (l : list Faq.t) :
  filter (fun f => (Faq.id f =? id)%Z)
         (filter (fun f => negb (Faq.id f =? id)%Z) l) = [].
Proof.
  induction l as [|f l IH]; simpl; trivial.
  destruct (Faq.id f =? id)%Z eqn:E; simpl; trivial. now rewrite E.
Qed.

Lemma getFaqById_None (id : Z) (db : DB) :
  getFaqById id db = None <-> forall f, In f (faqs db) -> Faq.id f <> id.
Proof.
  unfold getFaqById.
  destruct (filter (fun f => (Faq.id f =? id)%Z) (faqs db)) as [|r rs] eqn:E.
  - split; trivial. intros _ f Hf Hid.
    assert (Hin : In f (filter (fun f => (Faq.id f =? id)%Z) (faqs db))).
    { apply filter_In. split; trivial. now apply Z.eqb_eq. }
    rewrite E in Hin. contradiction.
  - split; [discriminate|]. intros H.
    assert (Hin : In r (filter (fun f => (Faq.id f =? id)%Z) (faqs db)))
      by (rewrite E; now left).
    apply filter_In in Hin. destruct Hin as [Hin Hid].
    apply Z.eqb_eq in Hid. now destruct (H r Hin).
Qed.

(** X10.  For an id within the range of the column, [deleteFaq] reports
    success exactly when the table had a FAQ with the id; afterwards no
    FAQ has the id, look-ups of other ids within the range give what they
    gave before, the schools are untouched, and deleting the same id again
    reports no success and changes nothing. *)
Theorem deleteFaq_spec (id : Z) (db : DB) :
  int4 id ->
  (fst (deleteFaq id db) = true <-> exists f, getFaqById id db = Some f)
  /\ getFaqById id (snd (deleteFaq id db)) = None
  /\ (forall id', int4 id' -> id' <> id ->
        getFaqById id' (snd (deleteFaq id db)) = getFaqById id' db)
  /\ (forall f, In f (faqs (snd (deleteFaq id db))) <->
                In f (faqs db) /\ Faq.id f <> id)
  /\ schools (snd (deleteFaq id db)) = schools db
  /\ deleteFaq id (snd (deleteFaq id db)) = (false, snd (deleteFaq id db)).
Proof.
  intros _. unfold deleteFaq, delete_returning. simpl.
  split; [|split; [|split; [|split; [|split]]]].
  - unfold getFaqById.
    destruct (filter (fun f => (Faq.id f =? id)%Z) (faqs db)) as [|r rs];
      simpl; split; try discriminate; eauto.
    intros (f & H). discriminate.
  - unfold getFaqById. simpl. now rewrite filter_same_id.
  - intros id' _ Hne. unfold getFaqById. simpl. now rewrite filter_other_id.
  - intros f. rewrite filter_In, negb_true_iff, Z.eqb_neq. tauto.
  - reflexivity.
  - rewrite filter_same_id. simpl. f_equal. f_equal.
    induction (faqs db) as [|f l IH]; simpl; trivial.
    destruct (Faq.id f =? id)%Z eqn:E; simpl; trivial.
    now rewrite E, IH.
Qed.

(** [deleteFaq_spec] at work on the example database: the second deletion
    of a FAQ reports no success. *)
Lemma deleteFaq_spec_witness :
  fst (deleteFaq 2 Scenario.db0) = true
  /\ fst (deleteFaq 2 (snd (deleteFaq 2 Scenario.db0))) = false.
Proof.
  assert (H2 : int4 2) by (split; discriminate).
  split.
  - apply (proj1 (deleteFaq_spec 2 Scenario.db0 H2)).
    exists Scenario.housing_faq. reflexivity.
  - rewrite (proj2 (proj2 (proj2 (proj2 (proj2
               (deleteFaq_spec 2 Scenario.db0 H2)))))).
    reflexivity.
Defined.

(** X11.  Under the constraint that the id sequence is ahead of the ids in
    the table, a successful create can be looked up: the new row has the
    next id of the sequence, which no row had before, [getFaqById] finds
    exactly the returned row under it, and look-ups of other ids give what
    they gave before. *)
Theorem createFaq_lookup (input : CreateFaqInput.t) (createdBy : Z)
    (db db' : DB) (row : Faq.t) :
  faq_ids_fresh db ->
  createFaq input createdBy db = (Ok row, db') ->
  Faq.id row = faqs_id_seq db
  /\ getFaqById (Faq.id row) db = None
  /\ getFaqById (Faq.id row) db' = Some row
  /\ (forall id, id <> Faq.id row -> getFaqById id db' = getFaqById id db).
Proof.
  intros Hfresh Hok.
  destruct (createFaq_with_result _ _ _ _ _ _ Hok) as [-> Hid].
  assert (Hnone : getFaqById (Faq.id row) db = None).
  { apply getFaqById_None. intros f Hf. apply Hfresh in Hf. lia. }
  split; [exact Hid|]. split; [exact Hnone|]. split.
  - unfold getFaqById in *. simpl. rewrite filter_app. simpl.
    rewrite Z.eqb_refl.
    destruct (filter (fun f => (Faq.id f =? Faq.id row)%Z) (faqs db));
      [reflexivity|discriminate].
  - intros id Hne. unfold getFaqById. simpl. rewrite filter_app. simpl.
    assert (E : (Faq.id row =? id)%Z = false) by (apply Z.eqb_neq; congruence).
    now rewrite E, app_nil_r.
Qed.

(** [createFaq_lookup] at work on the example database. *)
Lemma createFaq_lookup_witness :
  exists row db',
    createFaq (CreateFaqInput.mk 1 general_info (T "Where is the school?")
                 (T "Downtown.") None) 1 Scenario.db0 = (Ok row, db') /\
    Faq.id row = 5%Z /\ getFaqById 5 db' = Some row.
Proof.
  eexists. eexists. split; [reflexivity|].
  refine ((fun H => conj (proj1 H) (proj1 (proj2 (proj2 H))))
            (createFaq_lookup
               (CreateFaqInput.mk 1 general_info (T "Where is the school?")
                  (T "Downtown.") None) 1 Scenario.db0 _ _ _ eq_refl)).
  intros f [<-|[<-|[<-|[<-|[]]]]]; reflexivity.
Defined.

(* ------------------------------------------------------------------ *)
(** ** Constraints kept by the writes *)

Lemma map_id_updated (id : Z) (v : UpdateValues) (l : list Faq.t) :
  map Faq.id (map (fun f => if (Faq.id f =? id)%Z then set_values v f else f) l)
  = map Faq.id l.
Proof.
  rewrite map_map. apply map_ext. intros f.
  now destruct (Faq.id f =? id)%Z.
Qed.

Lemma NoDup_map_filter {A B : Type} (g : A -> B) (p : A -> bool) (l : list A) :
  NoDup (map g l) -> NoDup (map g (filter p l)).
Proof.
  induction l as [|x l IH]; simpl; trivial. intros H.
  inversion H as [|y m Hx Hl]; subst. destruct (p x); simpl; [|auto].
  constructor; [|auto]. intros Hin. apply Hx.
  apply in_map_iff in Hin. destruct Hin as (z & E & Hz).
  apply filter_In in Hz. apply in_map_iff. exists z. tauto.
Qed.

Lemma updateFaq_with_db (extract : text -> text -> list text)
    (input : UpdateFaqInput.t) (db : DB) :
  snd (updateFaq_with extract input db) = db \/
  exists v,
    snd (updateFaq_with extract input db)
    = mkDB (schools db)
           (map (fun f => if (Faq.id f =? UpdateFaqInput.id input)%Z
                          then set_values v f else f) (faqs db))
           (faqs_id_seq db) (clock db).
Proof.
  unfold updateFaq_with.
  destruct (getFaqById (UpdateFaqInput.id input) db) as [cur|]; [|now left].
  unfold update_returning. cbv zeta.
  destruct (has_values (updateValues_for extract input cur)); [|now left].
  right. eexists. reflexivity.
Qed.

(** X12.  The FAQ handlers keep the constraints of the tables: starting
    from a database in which the FAQ ids are distinct and below the id
    sequence and every FAQ refers to a school of the table, the database
    after [createFaq], after [updateFaq] and after [deleteFaq] is again
    such a database, whether the call succeeds or fails. *)
Theorem writes_keep_constraints (db : DB) :
  db_constraints db ->
  (forall input createdBy,
     db_constraints (snd (createFaq input createdBy db)))
  /\ (forall input, db_constraints (snd (updateFaq input db)))
  /\ (forall id, db_constraints (snd (deleteFaq id db))).
Proof.
  intros (Huniq & Hfresh & Hschool). split; [|split].
  - intros input createdBy.
    destruct (createFaq input createdBy db) as [[row|e] db'] eqn:E.
    + destruct (createFaq_with_result _ _ _ _ _ _ E) as [-> Hid].
      destruct (createFaq_with_Ok _ _ _ _ _ _ E) as (Hrow & _ & _ & Hs).
      simpl. split; [|split].
      * unfold faq_ids_unique in *. simpl. rewrite map_app. simpl.
        apply NoDup_app; [exact Huniq|repeat constructor; intros []|].
        intros x Hx [<-|[]]. apply in_map_iff in Hx.
        destruct Hx as (f & Ef & Hf). apply Hfresh in Hf. lia.
      * intros f Hf. simpl in *. apply in_app_or in Hf.
        destruct Hf as [Hf|[<-|[]]]; [apply Hfresh in Hf|]; lia.
      * intros f Hf. simpl in *. apply in_app_or in Hf.
        destruct Hf as [Hf|[<-|[]]]; [now apply Hschool|].
        rewrite Hrow. exact Hs.
    + unfold createFaq, createFaq_with, insert_returning in E.
      cbv zeta in E.
      destruct (filter _ (schools db)); simpl in E; inversion E; subst.
      simpl. now repeat split.
  - intros input. unfold updateFaq.
    destruct (updateFaq_with_db generateKeywords input db) as [->|(v & ->)];
      [now repeat split|].
    split; [|split].
    + unfold faq_ids_unique. simpl. now rewrite map_id_updated.
    + intros f Hf. simpl in *. apply in_map_iff in Hf.
      destruct Hf as (g & <- & Hg). apply Hfresh in Hg.
      now destruct (Faq.id g =? UpdateFaqInput.id input)%Z.
    + intros f Hf. simpl in *. apply in_map_iff in Hf.
      destruct Hf as (g & <- & Hg). apply Hschool in Hg.
      now destruct (Faq.id g =? UpdateFaqInput.id input)%Z.
  - intros id. unfold deleteFaq, delete_returning. simpl. split; [|split].
    + unfold faq_ids_unique. simpl. now apply NoDup_map_filter.
    + intros f Hf. simpl in *. apply filter_In in Hf. now apply Hfresh.
    + intros f Hf. simpl in *. apply filter_In in Hf. now apply Hschool.
Qed.

(** [writes_keep_constraints] at work on the example database. *)
Lemma writes_keep_constraints_witness :
  db_constraints Scenario.db0 /\
  db_constraints
    (snd (createFaq (CreateFaqInput.mk 1 general_info (T "Where?")
                       (T "Downtown.") None) 1 Scenario.db0)).
Proof.
  assert (H : db_constraints Scenario.db0).
  { split; [|split].
    - unfold faq_ids_unique. simpl. repeat constructor; simpl; intuition lia.
    - intros f [<-|[<-|[<-|[<-|[]]]]]; reflexivity.
    - intros f [<-|[<-|[<-|[<-|[]]]]]; simpl;
        [exists Scenario.acme|exists Scenario.acme|exists Scenario.acme
        |exists Scenario.closed_school]; simpl; auto. }
  split; [exact H|].
  apply (proj1 (writes_keep_constraints Scenario.db0 H)).
Defined.




(** X14.  A successful [updateFaq] never changes the id, the school, the
    creator or the two timestamps of the FAQ (it does not refresh
    [updated_at]); category, question, answer and is_active take the
    supplied value or keep the current one; the schools, the id sequence,
    the number of FAQs and the FAQs with another id are untouched. *)
Theorem updateFaq_frame (input : UpdateFaqInput.t) (db db' : DB)
    (cur row : Faq.t) :
  getFaqById (UpdateFaqInput.id input) db = Some cur ->
  updateFaq input db = (Ok row, db') ->
  (Faq.id row = Faq.id cur /\
   Faq.school_id row = Faq.school_id cur /\
   Faq.created_by row = Faq.created_by cur /\
   Faq.created_at row = Faq.created_at cur /\
   Faq.updated_at row = Faq.updated_at cur)
  /\ (Faq.category row
      = or_current (UpdateFaqInput.category input) (Faq.category cur) /\
      Faq.question row
      = or_current (UpdateFaqInput.question input) (Faq.question cur) /\
      Faq.answer row
      = or_current (UpdateFaqInput.answer input) (Faq.answer cur) /\
      Faq.is_active row
      = or_current (UpdateFaqInput.is_active input) (Faq.is_active cur))
  /\ schools db' = schools db
  /\ faqs_id_seq db' = faqs_id_seq db
  /\ List.length (faqs db') = List.length (faqs db)
  /\ filter (fun f => negb (Faq.id f =? UpdateFaqInput.id input)%Z) (faqs db')
     = filter (fun f => negb (Faq.id f =? UpdateFaqInput.id input)%Z) (faqs db).
Proof.
  intros Hcur Hok.
  destruct (updateFaq_with_Ok generateKeywords input db db' cur row Hcur Hok)
    as [-> _].
  split; [now repeat split|]. split; [now repeat split|].
  assert (Hdb : snd (updateFaq input db) = db') by now rewrite Hok.
  unfold updateFaq in Hdb.
  destruct (updateFaq_with_db generateKeywords input db) as [E|(v & E)];
    rewrite E in Hdb; subst db'.
  - repeat split.
  - simpl. split; [reflexivity|]. split; [reflexivity|].
    split; [apply length_map|]. apply filter_not_updated.
Qed.

(** [updateFaq_frame] at work on the example database. *)
Lemma updateFaq_frame_witness :
  exists row db',
    updateFaq (UpdateFaqInput.mk 2 (Some general_info) None
                 (Some (T "Yes, three halls.")) None None) Scenario.db0
    = (Ok row, db') /\
    Faq.updated_at row = 110%Z /\ Faq.school_id row = 1%Z /\
    getFaqById 1 db' = Some Scenario.admission_faq.
Proof.
  eexists. eexists. split; [reflexivity|].
  destruct (updateFaq_frame
              (UpdateFaqInput.mk 2 (Some general_info) None
                 (Some (T "Yes, three halls.")) None None)
              Scenario.db0 _ Scenario.housing_faq _ eq_refl eq_refl)
    as ((_ & Hs & _ & _ & Hu) & _).
  split; [exact Hu|]. split; [exact Hs|reflexivity].
Defined.

(* ------------------------------------------------------------------ *)
(** ** What the public queries no longer show *)

Lemma searchFaqs_live (input : ChatbotQueryInput.t) (db : DB) (f : Faq.t) :
  In f (ChatbotResponse.faqs (searchFaqs input db)) ->
  live_in db (ChatbotQueryInput.school_domain input) f.
Proof.
  intros Hf. destruct (searchFaqs_rows input db f Hf) as (s & Hjoin & Hm).
  apply matches_filter_only in Hm.
  now destruct (proj1 (live_row db _ _ f) (ex_intro _ s (conj Hjoin Hm))).
Qed.

Lemma getFaqsByCategory_live (input : GetFaqsByCategoryInput.t) (db : DB)
    (f : Faq.t) :
  In f (getFaqsByCategory input db) ->
  live_in db (GetFaqsByCategoryInput.school_domain input) f.
Proof.
  rewrite getFaqsByCategory_rows, in_map_iff.
  intros ([f' s] & E & H). simpl in E. subst f'.
  apply orderBy_desc_In, filter_In in H.
  now destruct (proj1 (live_row db _ _ f) (ex_intro _ s H)).
Qed.

(** X15.  A FAQ that was deleted, and a FAQ that an update made inactive,
    is shown by no public query: whatever the input, neither [searchFaqs]
    nor [getFaqsByCategory] returns a FAQ with its id. *)
Theorem removed_faq_is_hidden :
  (forall id db input,
     Forall (fun f => Faq.id f <> id)
            (ChatbotResponse.faqs (searchFaqs input (snd (deleteFaq id db)))))
  /\ (forall id db input,
        Forall (fun f => Faq.id f <> id)
               (getFaqsByCategory input (snd (deleteFaq id db))))
  /\ (forall upd db row db',
        UpdateFaqInput.is_active upd = Some false ->
        updateFaq upd db = (Ok row, db') ->
        (forall input,
           Forall (fun f => Faq.id f <> UpdateFaqInput.id upd)
                  (ChatbotResponse.faqs (searchFaqs input db'))) /\
        (forall input,
           Forall (fun f => Faq.id f <> UpdateFaqInput.id upd)
                  (getFaqsByCategory input db'))).
Proof.
  assert (Hdel : forall id db d f,
            live_in (snd (deleteFaq id db)) d f -> Faq.id f <> id).
  { intros id db d f (Hin & _). unfold deleteFaq, delete_returning in Hin.
    simpl in Hin. apply filter_In in Hin. destruct Hin as [_ H].
    now apply negb_true_iff, Z.eqb_neq in H. }
  assert (Hupd : forall upd db row db' d f,
            UpdateFaqInput.is_active upd = Some false ->
            updateFaq upd db = (Ok row, db') ->
            live_in db' d f -> Faq.id f <> UpdateFaqInput.id upd).
  { intros upd db row db' d f Hoff Hok (Hin & Hact & _) Hid.
    assert (Hdb : snd (updateFaq upd db) = db') by now rewrite Hok.
    unfold updateFaq, updateFaq_with, update_returning in Hdb, Hok.
    destruct (getFaqById (UpdateFaqInput.id upd) db) as [cur|];
      [|discriminate].
    cbv zeta in Hdb, Hok.
    destruct (has_values (updateValues_for generateKeywords upd cur));
      [|discriminate].
    simpl in Hdb. subst db'. simpl in Hin. apply in_map_iff in Hin.
    destruct Hin as (g & Eg & Hg).
    destruct (Faq.id g =? UpdateFaqInput.id upd)%Z eqn:E.
    - subst f. unfold updateValues_for in Hact. simpl in Hact.
      rewrite Hoff in Hact. discriminate.
    - subst g. apply Z.eqb_neq in E. contradiction. }
  split; [|split].
  - intros id db input. apply Forall_forall. intros f Hf.
    eapply Hdel, searchFaqs_live, Hf.
  - intros id db input. apply Forall_forall. intros f Hf.
    eapply Hdel, getFaqsByCategory_live, Hf.
  - intros upd db row db' Hoff Hok. split; intros input;
      apply Forall_forall; intros f Hf.
    + eapply Hupd; eauto using searchFaqs_live.
    + eapply Hupd; eauto using getFaqsByCategory_live.
Qed.

(** [removed_faq_is_hidden] at work on the example database. *)
Lemma removed_faq_is_hidden_witness :
  exists row db',
    updateFaq (UpdateFaqInput.mk 1 None None None None (Some false))
              Scenario.db0 = (Ok row, db') /\
    Forall (fun f => Faq.id f <> 1%Z)
           (ChatbotResponse.faqs
              (searchFaqs (ChatbotQueryInput.mk (T "acme.edu")
                             (T "admission") None) db')).
Proof.
  eexists. eexists. split; [reflexivity|].
  apply (proj1 (proj2 (proj2 removed_faq_is_hidden)
           (UpdateFaqInput.mk 1 None None None None (Some false))
           Scenario.db0 _ _ eq_refl eq_refl)).
Defined.

(* ------------------------------------------------------------------ *)
(** ** Schools *)


Lemma getSchoolById_None (id : Z) (st : Store) :
  Schools.getSchoolById id st = None <->
  forall s, In s (schools (core st)) -> School.id s <> id.
Proof.
  unfold Schools.getSchoolById.
  destruct (filter (fun s => (School.id s =? id)%Z) (schools (core st)))
    as [|r rs] eqn:E.
  - split; trivial. intros _ s Hs Hid.
    assert (Hin : In s (filter (fun s => (School.id s =? id)%Z)
                               (schools (core st)))).
    { apply filter_In. split; trivial. now apply Z.eqb_eq. }
    rewrite E in Hin. contradiction.
  - split; [discriminate|]. intros H.
    assert (Hin : In r (filter (fun s => (School.id s =? id)%Z)
                               (schools (core st)))) by (rewrite E; now left).
    apply filter_In in Hin. destruct Hin as [Hin Hid].
    apply Z.eqb_eq in Hid. now destruct (H r Hin).
Qed.

Lemma getSchoolByDomain_Some (d : text) (st : Store) (s : School.t) :
  Schools.getSchoolByDomain d st = Some s ->
  In s (schools (core st)) /\ School.domain s = d.
Proof.
  unfold Schools.getSchoolByDomain. intros H.
  destruct (filter (fun s => text_eqb (School.domain s) d) (schools (core st)))
    as [|r rs] eqn:E; [discriminate|].
  inversion H; subst r.
  assert (Hin : In s (filter (fun s => text_eqb (School.domain s) d)
                             (schools (core st)))) by (rewrite E; now left).
  apply filter_In in Hin. destruct Hin as [Hin Hd].
  apply text_eqb_eq in Hd. auto.
Qed.

Lemma getSchoolByDomain_None (d : text) (st : Store) :
  Schools.getSchoolByDomain d st = None <->
  forall s, In s (schools (core st)) -> School.domain s <> d.
Proof.
  unfold Schools.getSchoolByDomain.
  destruct (filter (fun s => text_eqb (School.domain s) d) (schools (core st)))
    as [|r rs] eqn:E.
  - split; trivial. intros _ s Hs Hd.
    assert (Hin : In s (filter (fun s => text_eqb (School.domain s) d)
                               (schools (core st)))).
    { apply filter_In. split; trivial. now apply text_eqb_eq. }
    rewrite E in Hin. contradiction.
  - split; [discriminate|]. intros H.
    assert (Hin : In r (filter (fun s => text_eqb (School.domain s) d)
                               (schools (core st)))) by (rewrite E; now left).
    apply filter_In in Hin. destruct Hin as [Hin Hd].
    apply text_eqb_eq in Hd. now destruct (H r Hin).
Qed.

(** Two rows of a list that agree on a key without repetitions are the
    same row. *)
Lemma NoDup_map_inj {A B : Type} (g : A -> B) (l : list A) (x y : A) :
  NoDup (map g l) -> In x l -> In y l -> g x = g y -> x = y.
Proof.
  induction l as [|a l IH]; simpl; [contradiction|].
  intros H Hx Hy E. inversion H as [|b m Ha Hl]; subst.
  destruct Hx as [->|Hx], Hy as [->|Hy]; trivial.
  - destruct Ha. rewrite E. now apply in_map.
  - destruct Ha. rewrite <- E. now apply in_map.
  - now apply IH.
Qed.

(** X17.  For an id within the range of the column, [deleteSchool]
    removes the schools with the id, the FAQs that refer to the id and the
    users that refer to it, and nothing else; it removes those FAQs and
    users also when no school has the id, in which case it reports no
    success.  Afterwards the school cannot be looked up,
    [getFaqsBySchoolId] is empty for the id, and no search returns a FAQ
    of the school. *)
Theorem deleteSchool_cascade (id : Z) (st : Store) :
  int4 id ->
  (fst (Schools.deleteSchool id st) = true <->
   exists s, Schools.getSchoolById id st = Some s)
  /\ Schools.getSchoolById id (snd (Schools.deleteSchool id st)) = None
  /\ (forall s, In s (schools (core (snd (Schools.deleteSchool id st)))) <->
                In s (schools (core st)) /\ School.id s <> id)
  /\ (forall f, In f (faqs (core (snd (Schools.deleteSchool id st)))) <->
                In f (faqs (core st)) /\ Faq.school_id f <> id)
  /\ (forall u, In u (users (snd (Schools.deleteSchool id st))) <->
                In u (users st) /\ User.school_id u <> Some id)
  /\ getFaqsBySchoolId id (core (snd (Schools.deleteSchool id st))) = []
  /\ (forall input,
        Forall (fun f => Faq.school_id f <> id)
               (ChatbotResponse.faqs
                  (searchFaqs input (core (snd (Schools.deleteSchool id st)))))).
Proof.
  intros _.
  assert (Hfaqs : forall f,
            In f (faqs (core (snd (Schools.deleteSchool id st)))) <->
            In f (faqs (core st)) /\ Faq.school_id f <> id).
  { intros f. unfold Schools.deleteSchool. simpl.
    rewrite filter_In, negb_true_iff, Z.eqb_neq. tauto. }
  assert (Hschools : forall s,
            In s (schools (core (snd (Schools.deleteSchool id st)))) <->
            In s (schools (core st)) /\ School.id s <> id).
  { intros s. unfold Schools.deleteSchool. simpl.
    rewrite filter_In, negb_true_iff, Z.eqb_neq. tauto. }
  split; [|split; [|split; [|split; [|split; [|split]]]]];
    trivial.
  - unfold Schools.deleteSchool, Schools.getSchoolById. simpl.
    destruct (filter (fun s => (School.id s =? id)%Z) (schools (core st)));
      simpl; split; try discriminate; eauto.
    intros (s & H). discriminate.
  - apply getSchoolById_None. intros s Hs. now apply Hschools in Hs.
  - intros u. unfold Schools.deleteSchool. simpl.
    rewrite filter_In, negb_true_iff. destruct (User.school_id u) as [i|].
    + rewrite Z.eqb_neq. split; intros [H1 H2]; split; trivial; congruence.
    + split; intros [H1 H2]; split; trivial; discriminate.
  - apply nil_iff_no_element. intros f Hf.
    unfold getFaqsBySchoolId in Hf. apply orderBy_desc_In, filter_In in Hf.
    destruct Hf as [Hf Hid]. apply Z.eqb_eq in Hid.
    apply Hfaqs in Hf. tauto.
  - intros input. apply Forall_forall. intros f Hf.
    apply searchFaqs_live in Hf. destruct Hf as (Hf & _).
    apply Hfaqs in Hf. tauto.
Qed.

(** [deleteSchool_cascade] at work on the example database: with the
    school go its three FAQs and its user. *)
Lemma deleteSchool_cascade_witness :
  fst (Schools.deleteSchool 1 AdminScenario.store0) = true
  /\ getFaqsBySchoolId 1
       (core (snd (Schools.deleteSchool 1 AdminScenario.store0))) = []
  /\ ~ In AdminScenario.admin
         (users (snd (Schools.deleteSchool 1 AdminScenario.store0))).
Proof.
  assert (H1 : int4 1) by (split; discriminate).
  pose proof (deleteSchool_cascade 1 AdminScenario.store0 H1)
    as (Hok & _ & _ & _ & Husers & Hnone & _).
  split; [|split].
  - apply Hok. exists Scenario.acme. reflexivity.
  - exact Hnone.
  - intros Hin. apply Husers in Hin. destruct Hin as [_ Hne].
    now apply Hne.
Defined.

Lemma existsb_false_domain (d : text) (l : list School.t) :
  existsb (fun s => text_eqb (School.domain s) d) l = false ->
  ~ In d (map School.domain l).
Proof.
  intros H Hin. apply in_map_iff in Hin. destruct Hin as (s & E & Hs).
  assert (Ht : existsb (fun s => text_eqb (School.domain s) d) l = true).
  { apply existsb_exists. exists s. split; trivial. now apply text_eqb_eq. }
  congruence.
Qed.

Lemma existsb_false_id (id : Z) (l : list School.t) :
  existsb (fun s => (School.id s =? id)%Z) l = false ->
  ~ In id (map School.id l).
Proof.
  intros H Hin. apply in_map_iff in Hin. destruct Hin as (s & E & Hs).
  assert (Ht : existsb (fun s => (School.id s =? id)%Z) l = true).
  { apply existsb_exists. exists s. split; trivial. now apply Z.eqb_eq. }
  congruence.
Qed.

Lemma NoDup_snoc {A : Type} (l : list A) (x : A) :
  NoDup l -> ~ In x l -> NoDup (l ++ [x]).
Proof.
  intros Hl Hx. apply NoDup_app; trivial.
  - repeat constructor. intros [].
  - intros y Hy [<-|[]]. contradiction.
Qed.

Lemma map_id_set_school (now : Z) (input : UpdateSchoolInput.t)
    (l : list School.t) :
  map School.id
      (map (fun s => if (School.id s =? UpdateSchoolInput.id input)%Z
                     then Schools.set_school now input s else s) l)
  = map School.id l.
Proof.
  rewrite map_map. apply map_ext. intros s.
  now destruct (School.id s =? UpdateSchoolInput.id input)%Z.
Qed.

(** When the domains were distinct and at most one updated row has the
    new domain, the domains are distinct after the update. *)
Lemma domains_after_update (hit : School.t -> bool) (g : School.t -> School.t)
    (d : text) (l : list School.t) :
  (forall s, School.domain (g s) = d) ->
  NoDup (map School.domain l) ->
  List.length (filter (fun s => text_eqb (School.domain s) d)
                      (map (fun s => if hit s then g s else s) l)) <= 1 ->
  NoDup (map School.domain (map (fun s => if hit s then g s else s) l)).
Proof.
  intros Hg. induction l as [|s l IH]; simpl; [constructor|].
  intros Hnd Hcount. inversion Hnd as [|x m Hs Hl]; subst.
  set (u := if hit s then g s else s) in *.
  destruct (text_eqb (School.domain u) d) eqn:Eu.
  - simpl in Hcount.
    assert (Hnone : filter (fun s => text_eqb (School.domain s) d)
                      (map (fun s => if hit s then g s else s) l) = []).
    { destruct (filter _ _); trivial. simpl in Hcount. lia. }
    constructor.
    + intros Hin. apply in_map_iff in Hin. destruct Hin as (y & Ey & Hy).
      assert (Hy' : In y (filter (fun s => text_eqb (School.domain s) d)
                  (map (fun s => if hit s then g s else s) l))).
      { apply filter_In. split; trivial. now rewrite Ey. }
      rewrite Hnone in Hy'. contradiction.
    + apply IH; trivial. rewrite Hnone. simpl. lia.
  - constructor.
    + intros Hin. apply in_map_iff in Hin. destruct Hin as (y & Ey & Hy).
      apply in_map_iff in Hy. destruct Hy as (z & Ez & Hz).
      assert (Hu : u = s).
      { unfold u in *. destruct (hit s); trivial.
        rewrite (proj2 (text_eqb_eq _ _) (Hg s)) in Eu. discriminate. }
      destruct (hit z).
      * subst y. rewrite Hg in Ey. rewrite <- Ey in Eu.
        rewrite (proj2 (text_eqb_eq _ _) eq_refl) in Eu. discriminate.
      * subst y. apply Hs. rewrite <- Hu, <- Ey. now apply in_map.
    + apply IH; trivial.
Qed.

Lemma updateSchool_store (now : Z) (input : UpdateSchoolInput.t) (st : Store) :
  snd (Schools.updateSchool now input st) = st \/
  (snd (Schools.updateSchool now input st)
   = Schools.with_schools st
       (map (fun s => if (School.id s =? UpdateSchoolInput.id input)%Z
                      then Schools.set_school now input s else s)
            (schools (core st)))
   /\ (exists row, fst (Schools.updateSchool now input st) = Ok row)
   /\ forall d, UpdateSchoolInput.domain input = Some d ->
        List.length
          (filter (fun s => text_eqb (School.domain s) d)
             (map (fun s => if (School.id s =? UpdateSchoolInput.id input)%Z
                            then Schools.set_school now input s else s)
                  (schools (core st)))) <= 1).
Proof.
  unfold Schools.updateSchool. cbv zeta.
  destruct (UpdateSchoolInput.domain input) as [d|] eqn:Ed.
  - destruct ((0 <? _)%nat && _) eqn:Er; [now left|].
    destruct (List.length _ =? 0)%nat eqn:El; [now left|].
    right. split; [reflexivity|]. split.
    + destruct (map _ (filter _ _)) as [|r rs]; [discriminate|]. now exists r.
    + intros d' E. inversion E; subst d'.
      apply Nat.eqb_neq in El. apply andb_false_iff in Er.
      destruct Er as [Er|Er].
      * apply Nat.ltb_ge in Er. lia.
      * apply Nat.ltb_ge in Er. exact Er.
  - destruct (List.length _ =? 0)%nat eqn:El; [now left|].
    right. split; [reflexivity|]. split; [|discriminate].
    destruct (map _ (filter _ _)) as [|r rs]; [discriminate|]. now exists r.
Qed.

(** X18.  The school handlers keep the constraints of the tables: from a
    database in which school ids are distinct and below their sequence,
    school domains are distinct, FAQ ids are distinct and below their
    sequence and every FAQ refers to a school of the table, the database
    after [createSchool], after [updateSchool] and after [deleteSchool]
    is again such a database, whether the call succeeds or fails. *)
Theorem school_writes_keep_constraints (st : Store) :
  store_constraints st ->
  (forall input, store_constraints (snd (Schools.createSchool input st)))
  /\ (forall now input,
        store_constraints (snd (Schools.updateSchool now input st)))
  /\ (forall id, store_constraints (snd (Schools.deleteSchool id st))).
Proof.
  intros ((Hids & Hfresh & Hdom) & (Hfu & Hff & Hfs)). split; [|split].
  - intros input. unfold Schools.createSchool. cbv zeta. simpl School.id.
    simpl School.domain.
    destruct (existsb (fun s => (School.id s =? schools_id_seq st)%Z)
                (schools (core st))) eqn:E1.
    { simpl. split; [|now repeat split]. split; [exact Hids|].
      split; [|exact Hdom]. simpl. intros s Hs. apply Hfresh in Hs. lia. }
    destruct (existsb (fun s => text_eqb (School.domain s)
                                  (CreateSchoolInput.domain input))
                (schools (core st))) eqn:E2.
    { simpl. split; [|now repeat split]. split; [exact Hids|].
      split; [|exact Hdom]. simpl. intros s Hs. apply Hfresh in Hs. lia. }
    simpl. split; [split; [|split]|split; [|split]]; simpl; trivial.
    + rewrite map_app. simpl. apply NoDup_snoc; trivial.
      now apply existsb_false_id.
    + intros s Hs. apply in_app_or in Hs.
      destruct Hs as [Hs|[<-|[]]]; [apply Hfresh in Hs|simpl]; lia.
    + rewrite map_app. simpl. apply NoDup_snoc; trivial.
      now apply existsb_false_domain.
    + intros f Hf. destruct (Hfs f Hf) as (s & Hs & Hid).
      exists s. split; trivial. simpl. apply in_or_app. now left.
  - intros now input.
    destruct (updateSchool_store now input st) as [->|(-> & _ & Hcount)].
    { now repeat split. }
    unfold Schools.with_schools. split; [split; [|split]|split; [|split]];
      simpl; trivial.
    + now rewrite map_id_set_school.
    + intros s Hs. apply in_map_iff in Hs. destruct Hs as (x & <- & Hx).
      apply Hfresh in Hx.
      now destruct (School.id x =? UpdateSchoolInput.id input)%Z.
    + destruct (UpdateSchoolInput.domain input) as [d|] eqn:Ed.
      * apply domains_after_update with d; trivial.
        -- intros s. unfold Schools.set_school. simpl. now rewrite Ed.
        -- now apply Hcount.
      * rewrite map_map.
        replace (map _ (schools (core st)))
          with (map School.domain (schools (core st))); trivial.
        apply map_ext. intros s.
        destruct (School.id s =? UpdateSchoolInput.id input)%Z; trivial.
        unfold Schools.set_school. simpl. now rewrite Ed.
    + intros f Hf. destruct (Hfs f Hf) as (s & Hs & Hid).
      exists (if (School.id s =? UpdateSchoolInput.id input)%Z
              then Schools.set_school now input s else s).
      split.
      * simpl. apply in_map_iff. now exists s.
      * now destruct (School.id s =? UpdateSchoolInput.id input)%Z.
  - intros id. unfold Schools.deleteSchool.
    split; [split; [|split]|split; [|split]]; simpl.
    + now apply NoDup_map_filter.
    + intros s Hs. apply filter_In in Hs. now apply Hfresh.
    + now apply NoDup_map_filter.
    + unfold faq_ids_unique. simpl. now apply NoDup_map_filter.
    + intros f Hf. simpl in Hf. apply filter_In in Hf. now apply Hff.
    + intros f Hf. simpl in Hf. apply filter_In in Hf.
      destruct Hf as [Hf Hne]. apply negb_true_iff, Z.eqb_neq in Hne.
      destruct (Hfs f Hf) as (s & Hs & Hid). exists s. split; trivial.
      simpl. apply filter_In. split; trivial.
      apply negb_true_iff, Z.eqb_neq. congruence.
Qed.

Lemma store0_constraints : store_constraints AdminScenario.store0.
Proof.
  split; [split; [|split]|split; [|split]].
  - simpl. repeat constructor; simpl; intuition lia.
  - intros s [<-|[<-|[]]]; reflexivity.
  - simpl. repeat constructor; simpl; intuition discriminate.
  - unfold faq_ids_unique. simpl. repeat constructor; simpl; intuition lia.
  - intros f [<-|[<-|[<-|[<-|[]]]]]; reflexivity.
  - intros f [<-|[<-|[<-|[<-|[]]]]]; simpl;
      [exists Scenario.acme|exists Scenario.acme|exists Scenario.acme
      |exists Scenario.closed_school]; simpl; auto.
Qed.

(** [school_writes_keep_constraints] at work on the example database. *)
Lemma school_writes_keep_constraints_witness :
  store_constraints
    (snd (Schools.updateSchool 300
            (UpdateSchoolInput.mk 2 None (Some (T "open.edu")) None None None
                                  (Some true))
            AdminScenario.store0)).
Proof.
  apply (proj1 (proj2 (school_writes_keep_constraints AdminScenario.store0
                         store0_constraints))).
Defined.

Lemma empty_response (input : ChatbotQueryInput.t) (db : DB) :
  (forall f, ~ live_in db (ChatbotQueryInput.school_domain input) f) ->
  searchFaqs input db = ChatbotResponse.mk [] [] 0.
Proof.
  intros Hnone.
  assert (Hf : ChatbotResponse.faqs (searchFaqs input db) = []).
  { apply nil_iff_no_element. intros f Hf. apply searchFaqs_live in Hf.
    now apply (Hnone f). }
  assert (Hc : ChatbotResponse.suggested_categories (searchFaqs input db) = []).
  { apply nil_iff_no_element. intros c Hc.
    change (In c (getAvailableCategories
                    (ChatbotQueryInput.school_domain input) db)) in Hc.
    apply live_categories_In in Hc. destruct Hc as (f & Hl & _).
    now apply (Hnone f). }
  assert (Ht : ChatbotResponse.total_results (searchFaqs input db)
               = Z.of_nat (List.length
                             (ChatbotResponse.faqs (searchFaqs input db))))
    by reflexivity.
  rewrite Hf in Ht. clear Hnone.
  destruct (searchFaqs input db) as [fs cs n].
  cbn [ChatbotResponse.faqs ChatbotResponse.suggested_categories
       ChatbotResponse.total_results List.length Z.of_nat] in *.
  now subst.
Qed.

(** X19.  With distinct school domains a search answers for one school:
    when [getSchoolByDomain] finds no school for the domain the response
    is empty; when it finds a school, every returned FAQ refers to that
    school, and the response is empty if that school is inactive. *)
Theorem search_answers_for_one_school (st : Store) (d query : text)
    (c : option FaqCategory) :
  NoDup (map School.domain (schools (core st))) ->
  match Schools.getSchoolByDomain d st with
  | None =>
      searchFaqs (ChatbotQueryInput.mk d query c) (core st)
      = ChatbotResponse.mk [] [] 0
  | Some s =>
      Forall (fun f => Faq.school_id f = School.id s)
             (ChatbotResponse.faqs
                (searchFaqs (ChatbotQueryInput.mk d query c) (core st)))
      /\ (School.is_active s = false ->
          searchFaqs (ChatbotQueryInput.mk d query c) (core st)
          = ChatbotResponse.mk [] [] 0)
  end.
Proof.
  intros Hdom.
  destruct (Schools.getSchoolByDomain d st) as [s|] eqn:E.
  - apply getSchoolByDomain_Some in E. destruct E as [Hs Hd].
    assert (Hsame : forall f, live_in (core st) d f ->
              Faq.school_id f = School.id s /\ School.is_active s = true).
    { intros f (_ & _ & s' & Hs' & Hid & Hd' & Hact).
      assert (s' = s).
      { apply (NoDup_map_inj School.domain (schools (core st))); trivial.
        congruence. }
      subst s'. auto. }
    split.
    + apply Forall_forall. intros f Hf. apply searchFaqs_live in Hf.
      now apply Hsame in Hf.
    + intros Hoff. apply empty_response. intros f Hf.
      apply Hsame in Hf. destruct Hf as [_ Hon]. congruence.
  - apply empty_response. intros f (_ & _ & s' & Hs' & _ & Hd' & _).
    rewrite getSchoolByDomain_None in E. now apply (E s').
Qed.

(** [search_answers_for_one_school] at work on the example database. *)
Lemma search_answers_for_one_school_witness :
  Forall (fun f => Faq.school_id f = 1%Z)
         (ChatbotResponse.faqs
            (searchFaqs (ChatbotQueryInput.mk (T "acme.edu") (T "") None)
                        Scenario.db0)).
Proof.
  refine (proj1 (search_answers_for_one_school AdminScenario.store0
                   (T "acme.edu") (T "") None _)).
  simpl. repeat constructor; simpl; intuition discriminate.
Defined.

Lemma updateSchool_Ok (now : Z) (input : UpdateSchoolInput.t) (st st' : Store)
    (row : School.t) :
  Schools.updateSchool now input st = (Ok row, st') ->
  st' = Schools.with_schools st
          (map (fun s => if (School.id s =? UpdateSchoolInput.id input)%Z
                         then Schools.set_school now input s else s)
               (schools (core st)))
  /\ exists cur, Schools.getSchoolById (UpdateSchoolInput.id input) st = Some cur
                 /\ row = Schools.set_school now input cur.
Proof.
  unfold Schools.updateSchool, Schools.getSchoolById. cbv zeta.
  destruct (match UpdateSchoolInput.domain input with
            | Some d => _ | None => false end); [discriminate|].
  destruct (filter (fun s => (School.id s =? UpdateSchoolInput.id input)%Z)
                   (schools (core st))) as [|cur rest];
    simpl; [discriminate|].
  intros H. inversion H; subst. split; trivial. now exists cur.
Qed.

(** X20.  Making a school inactive hides its FAQs without removing them:
    after a successful [updateSchool] with [is_active: false] the FAQ and
    user tables are as before and [getFaqsBySchoolId] lists what it
    listed, but neither [searchFaqs] nor [getFaqsByCategory] returns a FAQ
    of the school, whatever the input. *)
Theorem inactive_school_is_hidden (now : Z) (input : UpdateSchoolInput.t)
    (st st' : Store) (row : School.t) :
  Schools.updateSchool now input st = (Ok row, st') ->
  UpdateSchoolInput.is_active input = Some false ->
  faqs (core st') = faqs (core st)
  /\ users st' = users st
  /\ getFaqsBySchoolId (UpdateSchoolInput.id input) (core st')
     = getFaqsBySchoolId (UpdateSchoolInput.id input) (core st)
  /\ (forall q,
        Forall (fun f => Faq.school_id f <> UpdateSchoolInput.id input)
               (ChatbotResponse.faqs (searchFaqs q (core st'))))
  /\ (forall q,
        Forall (fun f => Faq.school_id f <> UpdateSchoolInput.id input)
               (getFaqsByCategory q (core st'))).
Proof.
  intros Hok Hoff. destruct (updateSchool_Ok _ _ _ _ _ Hok) as [-> _].
  assert (Hlive : forall d f,
            live_in (core (Schools.with_schools st
               (map (fun s => if (School.id s =? UpdateSchoolInput.id input)%Z
                              then Schools.set_school now input s else s)
                    (schools (core st))))) d f ->
            Faq.school_id f <> UpdateSchoolInput.id input).
  { intros d f (_ & _ & s & Hs & Hid & _ & Hact) E.
    simpl in Hs. apply in_map_iff in Hs. destruct Hs as (x & Ex & Hx).
    destruct (School.id x =? UpdateSchoolInput.id input)%Z eqn:Eh.
    - subst s. unfold Schools.set_school in Hact. simpl in Hact.
      rewrite Hoff in Hact. discriminate.
    - subst s. apply Z.eqb_neq in Eh. congruence. }
  split; [reflexivity|]. split; [reflexivity|]. split; [reflexivity|].
  split; intros q; apply Forall_forall; intros f Hf.
  - eapply Hlive, searchFaqs_live, Hf.
  - eapply Hlive, getFaqsByCategory_live, Hf.
Qed.

(** [inactive_school_is_hidden] at work on the example database. *)
Lemma inactive_school_is_hidden_witness :
  exists row st',
    Schools.updateSchool 300
      (UpdateSchoolInput.mk 1 None None None None None (Some false))
      AdminScenario.store0 = (Ok row, st') /\
    faqs (core st') = faqs Scenario.db0 /\
    forall q, Forall (fun f => Faq.school_id f <> 1%Z)
                     (ChatbotResponse.faqs (searchFaqs q (core st'))).
Proof.
  eexists. eexists. split; [reflexivity|].
  destruct (inactive_school_is_hidden 300
              (UpdateSchoolInput.mk 1 None None None None None (Some false))
              AdminScenario.store0 _ _ eq_refl eq_refl)
    as (Hf & _ & _ & Hs & _).
  split; [exact Hf|exact Hs].
Defined.










(* ------------------------------------------------------------------ *)
(** ** Authentication *)

Lemma filter_head_find {A : Type} (p : A -> bool) (l : list A) :
  find p l = match filter p l with x :: _ => Some x | [] => None end.
Proof.
  induction l as [|a l IH]; simpl; trivial. now destruct (p a).
Qed.



Lemma startsWith_iff (p s : text) :
  Auth.startsWith p s = true <-> exists rest, s = p ++ rest.
Proof.
  revert s. induction p as [|a p IH]; intros s; simpl.
  - split; eauto.
  - destruct s as [|b s].
    + split; [discriminate|]. intros (rest & H). discriminate.
    + rewrite andb_true_iff, Ascii.eqb_eq, IH. split.
      * intros [-> (rest & ->)]. now exists rest.
      * intros (rest & H). inversion H; subst. eauto.
Qed.

Lemma remove_first_prefix (p rest : text) :
  Auth.remove_first p (p ++ rest) = rest.
Proof.
  assert (H : Auth.startsWith p (p ++ rest) = true)
    by (apply startsWith_iff; eauto).
  destruct (p ++ rest) as [|c s] eqn:E; simpl; rewrite H.
  - destruct p; [simpl in E; subst; reflexivity|discriminate].
  - rewrite <- E. clear. induction p as [|a p IH]; simpl; trivial.
Qed.

Lemma digit_plain (c : ascii) :
  Auth.is_digit c = true ->
  is_space c = false /\ (code c =? 45)%N = false /\ (code c =? 43)%N = false.
Proof. TextFacts.each_char c. Qed.

Lemma drop_spaces_app (ws s : text) :
  Forall (fun c => is_space c = true) ws ->
  Auth.drop_spaces (ws ++ s) = Auth.drop_spaces s.
Proof.
  induction 1 as [|c ws Hc Hws IH]; simpl; trivial. now rewrite Hc.
Qed.

Lemma digits_prefix_app (digits junk : text) :
  Forall (fun c => Auth.is_digit c = true) digits ->
  match junk with [] => True | c :: _ => Auth.is_digit c = false end ->
  Auth.digits_prefix (digits ++ junk) = digits.
Proof.
  intros Hd Hj. induction Hd as [|c ds Hc Hds IH]; simpl.
  - destruct junk as [|c j]; trivial. simpl. now rewrite Hj.
  - now rewrite Hc, IH.
Qed.

(** What [parseInt] reads from white space, digits and anything after. *)
Lemma parseInt_digits (ws digits junk : text) :
  Forall (fun c => is_space c = true) ws ->
  Forall (fun c => Auth.is_digit c = true) digits -> digits <> [] ->
  match junk with [] => True | c :: _ => Auth.is_digit c = false end ->
  Auth.parseInt (ws ++ digits ++ junk) = Some (Auth.digits_value digits).
Proof.
  intros Hws Hd Hne Hj. unfold Auth.parseInt. cbv zeta.
  rewrite drop_spaces_app by trivial.
  destruct digits as [|d ds]; [contradiction|].
  inversion Hd as [|x l Hd1 Hd2]; subst.
  destruct (digit_plain d Hd1) as (Hsp & Hminus & Hplus).
  simpl app. simpl Auth.drop_spaces. rewrite Hsp, Hminus, Hplus.
  cbn [fst snd].
  change (d :: ds ++ junk) with ((d :: ds) ++ junk).
  rewrite digits_prefix_app by trivial.
  f_equal. apply Z.mul_1_l.
Qed.

Lemma parseInt_plain (digits : text) :
  Forall (fun c => Auth.is_digit c = true) digits -> digits <> [] ->
  Auth.parseInt digits = Some (Auth.digits_value digits).
Proof.
  intros Hd Hne.
  pose proof (parseInt_digits [] digits [] (Forall_nil _) Hd Hne I) as H.
  simpl in H. now rewrite app_nil_r in H.
Qed.

Lemma parseInt_minus (digits : text) :
  Forall (fun c => Auth.is_digit c = true) digits -> digits <> [] ->
  Auth.parseInt (T "-" ++ digits) = Some (- Auth.digits_value digits)%Z.
Proof.
  intros Hd Hne. unfold Auth.parseInt. cbv zeta. simpl. cbn [fst snd].
  rewrite <- (app_nil_r digits) at 1.
  rewrite digits_prefix_app by trivial.
  destruct digits as [|d ds]; [contradiction|]. f_equal; lia.
Qed.

(** The digits of a decimal number, and their value. *)
Lemma uint_digits (d : Decimal.uint) :
  Forall (fun c => Auth.is_digit c = true)
         (T (NilEmpty.string_of_uint d)).
Proof. induction d; simpl; constructor; trivial. Qed.

Ltac digit_values :=
  repeat match goal with
  | |- context [Auth.digit_value ?c] =>
      let v := eval vm_compute in (Auth.digit_value c) in
      change (Auth.digit_value c) with v
  end.

Lemma uint_value_acc (d : Decimal.uint) (acc : positive) :
  fold_left (fun a c => (10 * a + Auth.digit_value c)%Z)
            (list_ascii_of_string (NilEmpty.string_of_uint d)) (Z.pos acc)
  = Z.pos (Pos.of_uint_acc d acc).
Proof.
  revert acc. induction d; intros acc;
    cbn [NilEmpty.string_of_uint list_ascii_of_string fold_left
         Pos.of_uint_acc]; trivial;
    rewrite <- IHd; f_equal; digit_values; lia.
Qed.

Lemma uint_value (d : Decimal.uint) :
  Auth.digits_value (T (NilEmpty.string_of_uint d)) = Z.of_uint d.
Proof.
  unfold Auth.digits_value, Z.of_uint, T.
  induction d;
    cbn [NilEmpty.string_of_uint list_ascii_of_string fold_left Pos.of_uint];
    trivial; digit_values;
    first [exact IHd | exact (uint_value_acc d _)].
Qed.

Lemma number_text_parse (n : Z) : Auth.parseInt (T (number_text n)) = Some n.
Proof.
  unfold number_text.
  assert (Hpos : forall p,
            T (NilZero.string_of_uint (Pos.to_uint p))
            = T (NilEmpty.string_of_uint (Pos.to_uint p))
            /\ T (NilEmpty.string_of_uint (Pos.to_uint p)) <> []).
  { intros p. unfold NilZero.string_of_uint.
    pose proof (DecimalPos.Unsigned.of_to p) as Hp.
    destruct (Pos.to_uint p); try (split; [reflexivity|discriminate]).
    discriminate. }
  destruct n as [|p|p].
  - reflexivity.
  - simpl Z.to_int. unfold NilZero.string_of_int.
    destruct (Hpos p) as [-> Hne].
    rewrite parseInt_plain; trivial; [|apply uint_digits].
    rewrite uint_value. f_equal.
    change (Z.of_int (Z.to_int (Z.pos p)) = Z.pos p). apply DecimalZ.of_to.
  - simpl Z.to_int. unfold NilZero.string_of_int.
    change (T (String "-" (NilZero.string_of_uint (Pos.to_uint p))))
      with (T "-" ++ T (NilZero.string_of_uint (Pos.to_uint p))).
    destruct (Hpos p) as [-> Hne].
    rewrite parseInt_minus; trivial; [|apply uint_digits].
    rewrite uint_value. f_equal.
    change (Z.of_int (Z.to_int (Z.neg p)) = Z.neg p). apply DecimalZ.of_to.
Qed.

Lemma verifyAuth_prefixed (rest : text) (st : Store) :
  Auth.verifyAuth (T "user_" ++ rest) st
  = match Auth.parseInt rest with
    | None => None
    | Some n =>
        match find (fun u => (User.id u =? n)%Z) (users st) with
        | None => None
        | Some u => if User.is_active u then Some (Auth.auth_user u) else None
        end
    end.
Proof.
  unfold Auth.verifyAuth.
  assert (Hs : Auth.startsWith (T "user_") (T "user_" ++ rest) = true)
    by (apply startsWith_iff; eauto).
  rewrite Hs, remove_first_prefix. simpl List.length. simpl negb.
  cbn [Nat.eqb]. destruct (Auth.parseInt rest) as [n|]; trivial.
  rewrite filter_head_find.
  destruct (filter (fun u => (User.id u =? n)%Z) (users st)) as [|u l];
    trivial.
  now destruct (User.is_active u).
Qed.

(** X24.  [verifyAuth] returns a user exactly for a token that starts with
    "user_" and continues with text from which [parseInt] reads the id of
    a user whose first row with that id is active; it returns that row
    without the password hash.  What follows the digits is ignored, and
    white space before them is skipped: a token with white space, digits
    and any tail that does not begin with a digit is treated as the token
    with the digits alone. *)
Theorem verifyAuth_spec (st : Store) :
  (forall token a,
     Auth.verifyAuth token st = Some a <->
     exists rest n u,
       token = T "user_" ++ rest /\ Auth.parseInt rest = Some n /\
       find (fun u => (User.id u =? n)%Z) (users st) = Some u /\
       User.is_active u = true /\ a = Auth.auth_user u)
  /\ (forall ws digits tail,
        Forall (fun c => is_space c = true) ws ->
        Forall (fun c => Auth.is_digit c = true) digits -> digits <> [] ->
        match tail with [] => True | c :: _ => Auth.is_digit c = false end ->
        Auth.verifyAuth (T "user_" ++ ws ++ digits ++ tail) st
        = Auth.verifyAuth (T "user_" ++ digits) st)
  /\ Auth.verifyAuth [] st = None.
Proof.
  split; [|split].
  - intros token a. split.
    + intros H.
      destruct (Auth.startsWith (T "user_") token) eqn:Hs.
      * apply startsWith_iff in Hs. destruct Hs as (rest & ->).
        rewrite verifyAuth_prefixed in H.
        destruct (Auth.parseInt rest) as [n|] eqn:Hn; [|discriminate].
        destruct (find _ (users st)) as [u|] eqn:Hu; [|discriminate].
        destruct (User.is_active u) eqn:Ha; [|discriminate].
        inversion H; subst. exists rest, n, u. repeat split; trivial.
      * unfold Auth.verifyAuth in H. rewrite Hs in H. simpl in H.
        destruct (List.length token =? 0)%nat; discriminate.
    + intros (rest & n & u & -> & Hn & Hu & Ha & ->).
      now rewrite verifyAuth_prefixed, Hn, Hu, Ha.
  - intros ws digits tail Hws Hd Hne Htail.
    rewrite !verifyAuth_prefixed.
    now rewrite (parseInt_digits ws digits tail), (parseInt_plain digits).
  - reflexivity.
Qed.

(** [verifyAuth_spec] at work on the example database. *)
Lemma verifyAuth_spec_witness :
  Auth.verifyAuth (T "user_ 1abc") AdminScenario.store0
  = Auth.verifyAuth (T "user_1") AdminScenario.store0.
Proof.
  refine (proj1 (proj2 (verifyAuth_spec AdminScenario.store0))
            (T " ") (T "1") (T "abc") _ _ _ eq_refl).
  - repeat constructor.
  - repeat constructor.
  - discriminate.
Defined.

(** X25.  The token ["user_" + id], with the id written in decimal,
    authenticates the user with that id when the user is active, and
    nobody when the user is inactive or no user has the id. *)
Theorem verifyAuth_token (id : Z) (st : Store) :
  Auth.verifyAuth (T "user_" ++ T (number_text id)) st
  = match Users.getUserById id st with
    | Some u => if User.is_active u then Some (Auth.auth_user u) else None
    | None => None
    end.
Proof.
  rewrite verifyAuth_prefixed, number_text_parse, filter_head_find.
  unfold Users.getUserById.
  now destruct (filter (fun u => (User.id u =? id)%Z) (users st)).
Qed.

(* ------------------------------------------------------------------ *)
(** ** Users *)

Lemma getUserById_Some (id : Z) (st : Store) (u : User.t) :
  Users.getUserById id st = Some u -> In u (users st) /\ User.id u = id.
Proof.
  unfold Users.getUserById. intros H.
  destruct (filter (fun u => (User.id u =? id)%Z) (users st)) as [|r rs] eqn:E;
    [discriminate|].
  inversion H; subst r.
  assert (Hin : In u (filter (fun u => (User.id u =? id)%Z) (users st)))
    by (rewrite E; now left).
  apply filter_In in Hin. destruct Hin as [Hin Hid].
  apply Z.eqb_eq in Hid. auto.
Qed.

Lemma getUserById_None (id : Z) (st : Store) :
  Users.getUserById id st = None <->
  forall u, In u (users st) -> User.id u <> id.
Proof.
  unfold Users.getUserById.
  destruct (filter (fun u => (User.id u =? id)%Z) (users st)) as [|r rs] eqn:E.
  - split; trivial. intros _ u Hu Hid.
    assert (Hin : In u (filter (fun u => (User.id u =? id)%Z) (users st))).
    { apply filter_In. split; trivial. now apply Z.eqb_eq. }
    rewrite E in Hin. contradiction.
  - split; [discriminate|]. intros H.
    assert (Hin : In r (filter (fun u => (User.id u =? id)%Z) (users st)))
      by (rewrite E; now left).
    apply filter_In in Hin. destruct Hin as [Hin Hid].
    apply Z.eqb_eq in Hid. now destruct (H r Hin).
Qed.

Lemma school_exists_iff (id : Z) (st : Store) :
  Users.school_exists id st = true <->
  exists s, In s (schools (core st)) /\ School.id s = id.
Proof.
  unfold Users.school_exists.
  destruct (filter (fun s => (School.id s =? id)%Z) (schools (core st)))
    as [|r rs] eqn:E; simpl.
  - split; [discriminate|]. intros (s & Hs & Hid).
    assert (Hin : In s (filter (fun s => (School.id s =? id)%Z)
                               (schools (core st)))).
    { apply filter_In. split; trivial. now apply Z.eqb_eq. }
    rewrite E in Hin. contradiction.
  - split; trivial. intros _. exists r.
    assert (Hin : In r (filter (fun s => (School.id s =? id)%Z)
                               (schools (core st)))) by (rewrite E; now left).
    apply filter_In in Hin. destruct Hin as [Hin Hid].
    apply Z.eqb_eq in Hid. auto.
Qed.





(** When the keys were distinct and at most one updated row has the new
    key, the keys are distinct after the update. *)
Lemma keys_after_update {A : Type} (key : A -> text) (hit : A -> bool)
    (g : A -> A) (d : text) (l : list A) :
  (forall s, key (g s) = d) ->
  NoDup (map key l) ->
  List.length (filter (fun s => text_eqb (key s) d)
                      (map (fun s => if hit s then g s else s) l)) <= 1 ->
  NoDup (map key (map (fun s => if hit s then g s else s) l)).
Proof.
  intros Hg. induction l as [|s l IH]; simpl; [constructor|].
  intros Hnd Hcount. inversion Hnd as [|x m Hs Hl]; subst.
  set (u := if hit s then g s else s) in *.
  destruct (text_eqb (key u) d) eqn:Eu.
  - simpl in Hcount.
    assert (Hnone : filter (fun s => text_eqb (key s) d)
                      (map (fun s => if hit s then g s else s) l) = []).
    { destruct (filter _ _); trivial. simpl in Hcount. lia. }
    constructor.
    + intros Hin. apply in_map_iff in Hin. destruct Hin as (y & Ey & Hy).
      assert (Hy' : In y (filter (fun s => text_eqb (key s) d)
                  (map (fun s => if hit s then g s else s) l))).
      { apply filter_In. split; trivial. now rewrite Ey. }
      rewrite Hnone in Hy'. contradiction.
    + apply IH; trivial. rewrite Hnone. simpl. lia.
  - constructor.
    + intros Hin. apply in_map_iff in Hin. destruct Hin as (y & Ey & Hy).
      apply in_map_iff in Hy. destruct Hy as (z & Ez & Hz).
      assert (Hu : u = s).
      { unfold u in *. destruct (hit s); trivial.
        rewrite (proj2 (text_eqb_eq _ _) (Hg s)) in Eu. discriminate. }
      destruct (hit z).
      * subst y. rewrite Hg in Ey. rewrite <- Ey in Eu.
        rewrite (proj2 (text_eqb_eq _ _) eq_refl) in Eu. discriminate.
      * subst y. apply Hs. rewrite <- Hu, <- Ey. now apply in_map.
    + apply IH; trivial.
Qed.

Lemma existsb_false_username (name : text) (l : list User.t) :
  existsb (fun u => text_eqb (User.username u) name) l = false ->
  ~ In name (map User.username l).
Proof.
  intros E Hin. apply in_map_iff in Hin. destruct Hin as (u & Eu & Hu).
  assert (Ht : existsb (fun u => text_eqb (User.username u) name) l = true).
  { apply existsb_exists. exists u. split; trivial. now apply text_eqb_eq. }
  congruence.
Qed.

Lemma existsb_false_user_id (id : Z) (l : list User.t) :
  existsb (fun u => (User.id u =? id)%Z) l = false ->
  ~ In id (map User.id l).
Proof.
  intros E Hin. apply in_map_iff in Hin. destruct Hin as (u & Eu & Hu).
  assert (Ht : existsb (fun u => (User.id u =? id)%Z) l = true).
  { apply existsb_exists. exists u. split; trivial. now apply Z.eqb_eq. }
  congruence.
Qed.

(** What a call of [updateUser] leaves behind: the store as it was, or
    the store with the rows of the id updated, and then a supplied school
    exists and a supplied user name is the name of at most one row. *)
Lemma updateUser_store (pbkdf2 : text -> text -> text) (now : Z) (salt : text)
    (input : UpdateUserInput.t) (st : Store) :
  snd (Users.updateUser pbkdf2 now salt input st) = st \/
  (snd (Users.updateUser pbkdf2 now salt input st)
   = Users.with_users st
       (map (fun u => if (User.id u =? UpdateUserInput.id input)%Z
                      then Users.set_user pbkdf2 now salt input u else u)
            (users st))
   /\ (forall z, UpdateUserInput.school_id input = Some (Some z) ->
         Users.school_exists z st = true)
   /\ forall name, UpdateUserInput.username input = Some name ->
        List.length
          (filter (fun u => text_eqb (User.username u) name)
             (map (fun u => if (User.id u =? UpdateUserInput.id input)%Z
                            then Users.set_user pbkdf2 now salt input u else u)
                  (users st))) <= 1).
Proof.
  unfold Users.updateUser. cbv zeta.
  destruct (Users.getUserById (UpdateUserInput.id input) st) as [u|];
    [|now left].
  destruct (match UpdateUserInput.school_id input with
            | Some (Some school_id) => negb (Users.school_exists school_id st)
            | _ => false
            end) eqn:Es; [now left|].
  destruct (UpdateUserInput.username input) as [name|] eqn:En.
  - destruct (1 <? _)%nat eqn:Er; [now left|].
    right. split; [reflexivity|]. split.
    + intros z Ez. rewrite Ez in Es. now apply negb_false_iff in Es.
    + intros name' E. inversion E; subst name'.
      apply Nat.ltb_ge in Er. exact Er.
  - right. split; [reflexivity|]. split.
    + intros z Ez. rewrite Ez in Es. now apply negb_false_iff in Es.
    + discriminate.
Qed.

Lemma createUser_store (pbkdf2 : text -> text -> text) (salt : text)
    (input : CreateUserInput.t) (st : Store) :
  snd (Users.createUser pbkdf2 salt input st) = st
  \/ snd (Users.createUser pbkdf2 salt input st)
     = mkStore (core st) (users st) (schools_id_seq st) (users_id_seq st + 1)
  \/ (exists row,
        snd (Users.createUser pbkdf2 salt input st)
        = mkStore (core st) (users st ++ [row]) (schools_id_seq st)
                  (users_id_seq st + 1)
        /\ fst (Users.createUser pbkdf2 salt input st) = Ok row
        /\ User.id row = users_id_seq st
        /\ User.username row = CreateUserInput.username input
        /\ User.school_id row
           = Users.truthy_id (CreateUserInput.school_id input)
        /\ ~ In (User.id row) (map User.id (users st))
        /\ ~ In (User.username row) (map User.username (users st))
        /\ forall z, User.school_id row = Some z ->
             Users.school_exists z st = true).
Proof.
  unfold Users.createUser. cbv zeta. simpl User.id. simpl User.username.
  destruct (match Users.truthy_id (CreateUserInput.school_id input) with
            | Some school_id => negb (Users.school_exists school_id st)
            | None => false
            end) eqn:Es; [now left|].
  destruct (existsb (fun u => (User.id u =? users_id_seq st)%Z) (users st))
    eqn:E1; [right; now left|].
  destruct (existsb (fun u => text_eqb (User.username u)
                                (CreateUserInput.username input)) (users st))
    eqn:E2; [right; now left|].
  right. right. eexists. split; [reflexivity|]. split; [reflexivity|].
  simpl. repeat split.
  - now apply existsb_false_user_id.
  - now apply existsb_false_username.
  - intros z Ez. rewrite Ez in Es. now apply negb_false_iff in Es.
Qed.

(** X27.  The handlers keep the constraints of the users table: from a
    store in which user ids are distinct and below their sequence, user
    names are distinct and every user with a school refers to a school of
    the table, the store after [createUser], [updateUser], [deleteUser],
    [createSchool], [updateSchool] and [deleteSchool] is again such a
    store, whether the call succeeds or fails.  No foreign key is
    declared on [users.school_id]: the last part holds because
    [createUser] and [updateUser] look the school up and [deleteSchool]
    deletes the users of the school. *)
Theorem user_writes_keep_constraints (pbkdf2 : text -> text -> text)
    (st : Store) :
  user_constraints st ->
  (forall salt input,
     user_constraints (snd (Users.createUser pbkdf2 salt input st)))
  /\ (forall now salt input,
        user_constraints (snd (Users.updateUser pbkdf2 now salt input st)))
  /\ (forall id, user_constraints (snd (Users.deleteUser id st)))
  /\ (forall input, user_constraints (snd (Schools.createSchool input st)))
  /\ (forall now input,
        user_constraints (snd (Schools.updateSchool now input st)))
  /\ (forall id, user_constraints (snd (Schools.deleteSchool id st))).
Proof.
  intros (Hids & Hfresh & Hnames & Hschool).
  assert (Hadv : forall k, (0 <= k)%Z ->
            user_constraints (mkStore (core st) (users st) (schools_id_seq st)
                                      (users_id_seq st + k))).
  { intros k Hk. repeat split; simpl; trivial.
    intros u Hu. apply Hfresh in Hu. lia. }
  split; [|split; [|split; [|split; [|split]]]].
  - intros salt input.
    destruct (createUser_store pbkdf2 salt input st)
      as [->|[->|(row & -> & _ & Hid & _ & _ & Hnid & Hnname & Hsch)]].
    + repeat split; trivial.
    + apply Hadv. lia.
    + split; [|split; [|split]]; simpl.
      * rewrite map_app. simpl. now apply NoDup_snoc.
      * intros u Hu. apply in_app_or in Hu.
        destruct Hu as [Hu|[<-|[]]]; [apply Hfresh in Hu|]; lia.
      * rewrite map_app. simpl. now apply NoDup_snoc.
      * intros u i Hu Ei. apply in_app_or in Hu.
        destruct Hu as [Hu|[<-|[]]]; [now apply (Hschool u)|].
        now apply school_exists_iff, Hsch.
  - intros now salt input.
    destruct (updateUser_store pbkdf2 now salt input st)
      as [->|(-> & Hsch & Hcount)].
    { repeat split; trivial. }
    unfold Users.with_users. split; [|split; [|split]]; simpl.
    + rewrite map_map.
      replace (map _ (users st)) with (map User.id (users st)); trivial.
      apply map_ext. intros u.
      now destruct (User.id u =? UpdateUserInput.id input)%Z.
    + intros u Hu. apply in_map_iff in Hu. destruct Hu as (x & <- & Hx).
      apply Hfresh in Hx.
      now destruct (User.id x =? UpdateUserInput.id input)%Z.
    + destruct (UpdateUserInput.username input) as [name|] eqn:En.
      * apply keys_after_update with name; trivial.
        -- intros u. unfold Users.set_user. simpl. now rewrite En.
        -- now apply Hcount.
      * rewrite map_map.
        replace (map _ (users st)) with (map User.username (users st));
          trivial.
        apply map_ext. intros u.
        destruct (User.id u =? UpdateUserInput.id input)%Z; trivial.
        unfold Users.set_user. simpl. now rewrite En.
    + intros u i Hu Ei. apply in_map_iff in Hu. destruct Hu as (x & Ex & Hx).
      destruct (User.id x =? UpdateUserInput.id input)%Z;
        [|subst u; now apply (Hschool x)].
      subst u. unfold Users.set_user in Ei. simpl in Ei.
      destruct (UpdateUserInput.school_id input) as [[z|]|] eqn:Ez;
        simpl in Ei.
      * inversion Ei; subst i. now apply school_exists_iff, Hsch.
      * discriminate.
      * now apply (Hschool x).
  - intros id. unfold Users.deleteUser.
    destruct (Users.getUserById id st) as [u|]; [|repeat split; trivial].
    split; [|split; [|split]]; simpl.
    + now apply NoDup_map_filter.
    + intros x Hx. apply filter_In in Hx. now apply Hfresh.
    + now apply NoDup_map_filter.
    + intros x i Hx Ei. apply filter_In in Hx. now apply (Hschool x).
  - intros input. unfold Schools.createSchool. cbv zeta.
    destruct (existsb _ _); [repeat split; trivial|].
    destruct (existsb _ _); [repeat split; trivial|].
    repeat split; trivial. simpl. intros u i Hu Ei.
    destruct (Hschool u i Hu Ei) as (s & Hs & Hid).
    exists s. split; trivial. apply in_or_app. now left.
  - intros now input.
    destruct (updateSchool_store now input st) as [->|(-> & _ & _)].
    { repeat split; trivial. }
    repeat split; trivial. simpl. intros u i Hu Ei.
    destruct (Hschool u i Hu Ei) as (s & Hs & Hid).
    exists (if (School.id s =? UpdateSchoolInput.id input)%Z
            then Schools.set_school now input s else s).
    split.
    + apply in_map_iff. now exists s.
    + now destruct (School.id s =? UpdateSchoolInput.id input)%Z.
  - intros id. unfold Schools.deleteSchool.
    split; [|split; [|split]]; simpl.
    + now apply NoDup_map_filter.
    + intros x Hx. apply filter_In in Hx. now apply Hfresh.
    + now apply NoDup_map_filter.
    + intros x i Hx Ei. apply filter_In in Hx. destruct Hx as [Hx Hne].
      rewrite Ei in Hne. apply negb_true_iff, Z.eqb_neq in Hne.
      destruct (Hschool x i Hx Ei) as (s & Hs & Hid).
      exists s. split; trivial. apply filter_In. split; trivial.
      apply negb_true_iff, Z.eqb_neq. congruence.
Qed.

Lemma store0_user_constraints : user_constraints AdminScenario.store0.
Proof.
  split; [|split; [|split]].
  - simpl. repeat constructor; simpl; intuition.
  - intros u [<-|[]]. reflexivity.
  - simpl. repeat constructor; simpl; intuition.
  - intros u i [<-|[]] E. inversion E; subst i.
    exists Scenario.acme. simpl. auto.
Qed.

(** [user_writes_keep_constraints] at work on the example database: after
    the school of the only user is deleted, no user is left without its
    school. *)
Lemma user_writes_keep_constraints_witness :
  user_constraints (snd (Schools.deleteSchool 1 AdminScenario.store0)).
Proof.
  apply (proj2 (proj2 (proj2 (proj2 (proj2
           (user_writes_keep_constraints (fun password salt => password)
              AdminScenario.store0 store0_user_constraints)))))).
Defined.

(** An updated row and another row that already has the new key make two
    rows with that key. *)
Lemma updated_key_twice {A : Type} (key : A -> text) (hit : A -> bool)
    (g : A -> A) (d : text) (cur other : A) (l : list A) :
  (forall s, key (g s) = d) ->
  hit cur = true -> hit other = false -> key other = d ->
  In cur l -> In other l ->
  2 <= List.length (filter (fun s => text_eqb (key s) d)
                           (map (fun s => if hit s then g s else s) l)).
Proof.
  intros Hg Hcur Hother Hkey.
  assert (Hrow : forall x, hit x = true \/ key x = d ->
            text_eqb (key (if hit x then g x else x)) d = true).
  { intros x Hx. apply text_eqb_eq. destruct (hit x); trivial.
    destruct Hx as [Hx|Hx]; [discriminate|exact Hx]. }
  assert (Hone : forall x m, In x m -> hit x = true \/ key x = d ->
            1 <= List.length
                   (filter (fun s => text_eqb (key s) d)
                           (map (fun s => if hit s then g s else s) m))).
  { intros x m Hx Hcase. induction m as [|y m IH]; [contradiction|].
    cbn [map filter]. destruct Hx as [->|Hx].
    - rewrite (Hrow x Hcase). simpl. lia.
    - specialize (IH Hx). destruct (text_eqb _ d); simpl; lia. }
  induction l as [|y l IH]; [contradiction|].
  intros Hc Ho. cbn [map filter].
  assert (Hdec : y = cur \/ y = other \/ (In cur l /\ In other l)).
  { destruct Hc as [->|Hc], Ho as [->|Ho]; auto. }
  destruct Hdec as [->|[->|[Hc' Ho']]].
  - rewrite (Hrow cur (or_introl Hcur)). simpl.
    destruct Ho as [Ho|Ho]; [congruence|].
    specialize (Hone other l Ho (or_intror Hkey)). lia.
  - rewrite (Hrow other (or_intror Hkey)). simpl.
    destruct Hc as [Hc|Hc]; [congruence|].
    specialize (Hone cur l Hc (or_introl Hcur)). lia.
  - specialize (IH Hc' Ho'). destruct (text_eqb _ d); simpl; lia.
Qed.

Lemma filter_user_updated (i : Z) (g : User.t -> User.t) (l : list User.t) :
  (forall u, User.id (g u) = User.id u) ->
  filter (fun u => (User.id u =? i)%Z)
         (map (fun u => if (User.id u =? i)%Z then g u else u) l)
  = map g (filter (fun u => (User.id u =? i)%Z) l).
Proof.
  intros Hg. induction l as [|u l IH]; simpl; trivial.
  destruct (User.id u =? i)%Z eqn:E; simpl; [rewrite Hg|]; rewrite E, IH;
    reflexivity.
Qed.

Lemma filter_user_other (i j : Z) (g : User.t -> User.t) (l : list User.t) :
  (forall u, User.id (g u) = User.id u) -> j <> i ->
  filter (fun u => (User.id u =? j)%Z)
         (map (fun u => if (User.id u =? i)%Z then g u else u) l)
  = filter (fun u => (User.id u =? j)%Z) l.
Proof.
  intros Hg Hne. induction l as [|u l IH]; simpl; trivial.
  destruct (User.id u =? i)%Z eqn:E; simpl; [rewrite Hg|]; rewrite IH.
  - apply Z.eqb_eq in E. rewrite E.
    now rewrite (proj2 (Z.eqb_neq i j) (fun H => Hne (eq_sym H))).
  - reflexivity.
Qed.

Lemma filter_user_removed (i j : Z) (l : list User.t) :
  filter (fun u => (User.id u =? j)%Z)
         (filter (fun u => negb (User.id u =? i)%Z) l)
  = if (j =? i)%Z then [] else filter (fun u => (User.id u =? j)%Z) l.
Proof.
  induction l as [|u l IH]; simpl; [now destruct (j =? i)%Z|].
  destruct (User.id u =? i)%Z eqn:Ei; simpl.
  - rewrite IH. apply Z.eqb_eq in Ei. rewrite Ei.
    destruct (j =? i)%Z eqn:Ej; trivial.
    now rewrite Z.eqb_sym, Ej.
  - rewrite IH. destruct (User.id u =? j)%Z eqn:Ej; trivial.
    apply Z.eqb_eq in Ej. rewrite <- Ej, Ei. reflexivity.
Qed.

(** X28.  [deleteUser] fails with "User not found", changing nothing,
    when the id is within the range of the column and no user has it:
    unlike [deleteFaq] and [deleteSchool] it
    does not report [success: false].  Otherwise it reports success and
    removes the user and nothing else: the other users are found as
    before, the schools and the FAQs, those the user created included,
    stay, a second deletion fails, and the token of the user no longer
    authenticates. *)
Theorem deleteUser_spec (id : Z) (st : Store) :
  (int4 id -> Users.getUserById id st = None ->
   Users.deleteUser id st = (Err (Error "User not found"), st))
  /\ (forall u, Users.getUserById id st = Some u ->
        exists st',
          Users.deleteUser id st = (Ok true, st') /\
          Users.getUserById id st' = None /\
          (forall j, j <> id ->
             Users.getUserById j st' = Users.getUserById j st) /\
          core st' = core st /\
          users_id_seq st' = users_id_seq st /\
          Users.deleteUser id st' = (Err (Error "User not found"), st') /\
          Auth.verifyAuth (T "user_" ++ T (number_text id)) st' = None).
Proof.
  split.
  - intros _ H. unfold Users.deleteUser. now rewrite H.
  - intros u Hu. unfold Users.deleteUser at 1. rewrite Hu.
    eexists. split; [reflexivity|].
    assert (Hgone : Users.getUserById id
              (Users.with_users st
                 (filter (fun u => negb (User.id u =? id)%Z) (users st)))
            = None).
    { unfold Users.getUserById. simpl. rewrite filter_user_removed.
      now rewrite Z.eqb_refl. }
    split; [exact Hgone|]. split; [|split; [reflexivity|split; [reflexivity|]]].
    + intros j Hj. unfold Users.getUserById. simpl.
      rewrite filter_user_removed.
      now rewrite (proj2 (Z.eqb_neq j id) Hj).
    + split.
      * unfold Users.deleteUser. now rewrite Hgone.
      * rewrite verifyAuth_prefixed, number_text_parse, filter_head_find.
        unfold Users.getUserById in Hgone.
        now destruct (filter (fun u => (User.id u =? id)%Z) _).
Qed.

(** [deleteUser_spec] at work on the example database. *)
Lemma deleteUser_spec_witness :
  Users.deleteUser 5 AdminScenario.store0
  = (Err (Error "User not found"), AdminScenario.store0).
Proof.
  apply (proj1 (deleteUser_spec 5 AdminScenario.store0));
    [split; discriminate|reflexivity].
Defined.

Lemma set_user_id (pbkdf2 : text -> text -> text) (now : Z) (salt : text)
    (input : UpdateUserInput.t) (u : User.t) :
  User.id (Users.set_user pbkdf2 now salt input u) = User.id u.
Proof. reflexivity. Qed.

(** X29.  For ids within the range of their columns, [updateUser] fails
    with "User not found" when no user has the id, with "School not
    found" when a school id is supplied that no school has, and with the
    unique violation when the supplied user name
    is the name of another user; a failed update changes nothing.  A
    successful update returns and stores the current row with the
    supplied values set: the stored password is replaced by the hash, a
    colon and the salt exactly when a password is supplied, a supplied
    null removes the school, [updated_at] becomes the time of the call,
    the id and [created_at] stay, and the other users, the schools, the
    FAQs and the sequences are untouched. *)
Theorem updateUser_spec (pbkdf2 : text -> text -> text) (now : Z) (salt : text)
    (input : UpdateUserInput.t) (st : Store) :
  (int4 (UpdateUserInput.id input) ->
   Users.getUserById (UpdateUserInput.id input) st = None ->
   Users.updateUser pbkdf2 now salt input st
   = (Err (Error "User not found"), st))
  /\ (forall cur z,
        Users.getUserById (UpdateUserInput.id input) st = Some cur ->
        UpdateUserInput.school_id input = Some (Some z) ->
        int4 z ->
        Users.school_exists z st = false ->
        Users.updateUser pbkdf2 now salt input st
        = (Err (Error "School not found"), st))
  /\ (forall cur other name,
        Users.getUserById (UpdateUserInput.id input) st = Some cur ->
        (forall z, UpdateUserInput.school_id input = Some (Some z) ->
           Users.school_exists z st = true) ->
        UpdateUserInput.username input = Some name ->
        In other (users st) ->
        User.id other <> UpdateUserInput.id input ->
        User.username other = name ->
        Users.updateUser pbkdf2 now salt input st
        = (Err (unique_violation "users_username_unique"), st))
  /\ (forall e st',
        Users.updateUser pbkdf2 now salt input st = (Err e, st') -> st' = st)
  /\ (forall row st',
        Users.updateUser pbkdf2 now salt input st = (Ok row, st') ->
        exists cur,
          Users.getUserById (UpdateUserInput.id input) st = Some cur /\
          row = Users.set_user pbkdf2 now salt input cur /\
          User.id row = UpdateUserInput.id input /\
          User.password_hash row
          = match UpdateUserInput.password input with
            | Some password => pbkdf2 password salt ++ T ":" ++ salt
            | None => User.password_hash cur
            end /\
          User.school_id row
          = match UpdateUserInput.school_id input with
            | Some school => school
            | None => User.school_id cur
            end /\
          User.created_at row = User.created_at cur /\
          User.updated_at row = now /\
          Users.getUserById (UpdateUserInput.id input) st' = Some row /\
          (forall j, j <> UpdateUserInput.id input ->
             Users.getUserById j st' = Users.getUserById j st) /\
          core st' = core st /\
          users_id_seq st' = users_id_seq st).
Proof.
  split; [|split; [|split; [|split]]].
  - intros _ H. unfold Users.updateUser. now rewrite H.
  - intros cur z Hcur Hz _ Hno. unfold Users.updateUser.
    now rewrite Hcur, Hz, Hno.
  - intros cur other name Hcur Hsch Hname Hother Hne Hon.
    unfold Users.updateUser. rewrite Hcur. cbv zeta.
    assert (Hok : match UpdateUserInput.school_id input with
                  | Some (Some school_id) =>
                      negb (Users.school_exists school_id st)
                  | _ => false
                  end = false).
    { destruct (UpdateUserInput.school_id input) as [[z|]|]; trivial.
      now rewrite (Hsch z eq_refl). }
    rewrite Hok, Hname.
    destruct (getUserById_Some _ _ _ Hcur) as [Hcin Hcid].
    assert (Htwo : 2 <= List.length
              (filter (fun u => text_eqb (User.username u) name)
                 (map (fun u => if (User.id u =? UpdateUserInput.id input)%Z
                                then Users.set_user pbkdf2 now salt input u
                                else u)
                      (users st)))).
    { apply updated_key_twice with (cur := cur) (other := other); trivial.
      - intros u. unfold Users.set_user. simpl. now rewrite Hname.
      - now apply Z.eqb_eq.
      - now apply Z.eqb_neq. }
    apply Nat.ltb_lt in Htwo. now rewrite Htwo.
  - intros e st' H. unfold Users.updateUser in H. cbv zeta in H.
    destruct (Users.getUserById (UpdateUserInput.id input) st) as [cur|] eqn:Hcur;
      [|now inversion H].
    destruct (match UpdateUserInput.school_id input with
              | Some (Some school_id) => _ | _ => false end);
      [now inversion H|].
    destruct (match UpdateUserInput.username input with
              | Some name => _ | None => false end);
      [now inversion H|].
    unfold Users.getUserById in Hcur.
    destruct (filter _ (users st)); [discriminate|]. simpl in H.
    discriminate.
  - intros row st' H. unfold Users.updateUser in H. cbv zeta in H.
    destruct (Users.getUserById (UpdateUserInput.id input) st) as [cur|] eqn:Hcur;
      [|discriminate].
    destruct (match UpdateUserInput.school_id input with
              | Some (Some school_id) => _ | _ => false end);
      [discriminate|].
    destruct (match UpdateUserInput.username input with
              | Some name => _ | None => false end);
      [discriminate|].
    destruct (getUserById_Some _ _ _ Hcur) as [_ Hcid].
    unfold Users.getUserById in Hcur.
    destruct (filter (fun u => (User.id u =? UpdateUserInput.id input)%Z)
                (users st)) as [|r rs] eqn:Ef; [discriminate|].
    inversion Hcur; subst r. simpl in H. inversion H; subst row st'.
    exists cur. split; trivial. split; trivial. split; [exact Hcid|].
    split; [reflexivity|].
    split; [unfold Users.set_user; simpl;
            now destruct (UpdateUserInput.school_id input)|].
    split; [reflexivity|]. split; [reflexivity|].
    split; [|split; [|now split]].
    + unfold Users.getUserById. simpl.
      rewrite filter_user_updated by (intros; apply set_user_id).
      now rewrite Ef.
    + intros j Hj. unfold Users.getUserById. simpl.
      rewrite filter_user_other; trivial.
Qed.

(** [updateUser_spec] at work on the example database. *)
Lemma updateUser_spec_witness :
  Users.updateUser (fun password salt => rev password ++ salt) 300 (T "s4lt")
    (UpdateUserInput.mk 1 None None None (Some (Some 9%Z)) None None None)
    AdminScenario.store0
  = (Err (Error "School not found"), AdminScenario.store0).
Proof.
  assert (H9 : int4 9) by (split; discriminate).
  exact (proj1 (proj2 (updateUser_spec
           (fun password salt => rev password ++ salt) 300 (T "s4lt")
           (UpdateUserInput.mk 1 None None None (Some (Some 9%Z)) None None
                               None)
           AdminScenario.store0)) AdminScenario.admin 9%Z eq_refl eq_refl
           H9 eq_refl).
Defined.
